(** * pyFastBigInt: divide-and-conquer division, decimal printing and
      integer square root on Python integers.

    Shallow embedding of [pyFastBigInt.py].  Python's unbounded [int] is [Z];
    [>>], [&] and [|] are [Z.shiftr], [Z.land] and [Z.lor] (both sides use
    floor shifts and infinite two's complement on negative numbers);
    [divmod] is floor division, as [Z.div] / [Z.modulo].  Exceptions are an
    explicit error type.  Every [while] loop carries an iteration budget and
    the recursion a depth budget, so that all functions are total and can be
    evaluated. *)

From Stdlib Require Import ZArith List String Ascii Lia Bool.
Import ListNotations.
Local Open Scope Z_scope.

(** ** Exceptions and budgets *)

(** The [while] loops of the module, used to report which loop ran out of
    its iteration budget. *)
Inductive loop_id : Type :=
| LoopEqualLen      (* branch M == K:  while r >= n *)
| LoopD_neg         (* branch K < M < 2K:  while r < 0 *)
| LoopD_ge          (* branch K < M < 2K:  while r >= n *)
| LoopE_r1_neg      (* branch M == 2K:  while r1 < 0 *)
| LoopE_r1_len      (* branch M == 2K:  while r1.bit_length() >= k *)
| LoopE_r2_neg      (* branch M == 2K:  while r2 < 0 *)
| LoopE_r2_ge       (* branch M == 2K:  while r2 >= n *)
| LoopLongDiv       (* branch M > 2K:  while r > n *)
| LoopPowers        (* fastBigIntStrBase10: while powers[-1]... *)
| LoopSqrtSmall     (* _floorSqrtPositiveInt: while (s+1)*(s+1) <= n *)
| LoopSqrtDown      (* _floorSqrtPositiveInt: while actualSquare > n *)
| LoopSqrtUp.       (* _floorSqrtPositiveInt: while actualSquare <= n *)

Inductive error : Type :=
| TypeError
| ValueError
| ZeroDivisionError
| IndexError
| UnboundLocalError
| RecursionLimit              (* the depth budget of the model ran out *)
| LoopBudget (l : loop_id).   (* a loop body would run more often than budgeted *)

Inductive result (A : Type) : Type :=
| Ok (a : A)
| Err (e : error).
Arguments Ok {A} a.
Arguments Err {A} e.

Definition bind {A B : Type} (x : result A) (f : A -> result B) : result B :=
  match x with
  | Ok a => f a
  | Err e => Err e
  end.

Notation "' p <- x ;; k" := (bind x (fun p => k))
  (at level 61, p pattern, x at next level, right associativity).
Notation "a <- x ;; k" := (bind x (fun a => k))
  (at level 61, x at next level, right associativity).

(** ** Host integer primitives *)

(** [int.bit_length()]: bits of the absolute value, 0 for 0. *)
Definition bit_length (x : Z) : Z :=
  if x =? 0 then 0 else Z.log2 (Z.abs x) + 1.

(** The builtin [divmod] on integers. *)
Definition divmod (m n : Z) : result (Z * Z) :=
  if n =? 0 then Err ZeroDivisionError else Ok (m / n, m mod n).

(** [x << s]; a negative shift count raises ValueError. *)
Definition py_lshift (x s : Z) : result Z :=
  if s <? 0 then Err ValueError else Ok (Z.shiftl x s).

Definition _splitHiLo (num bitIdx : Z) : Z * Z :=
  let hi := Z.shiftr num bitIdx in
  let lo := Z.land num (Z.shiftl 1 bitIdx - 1) in
  (hi, lo).

(** ** The division kernel *)

(** [while r < 0: r += n; q -= 1] *)
Fixpoint while_neg (l : loop_id) (iters : nat) (n q r : Z) {struct iters}
  : result (Z * Z) :=
  if r <? 0 then
    match iters with
    | O => Err (LoopBudget l)
    | S i => while_neg l i n (q - 1) (r + n)
    end
  else Ok (q, r).

(** [while r >= n: r -= n; q += 1] *)
Fixpoint while_ge (l : loop_id) (iters : nat) (n q r : Z) {struct iters}
  : result (Z * Z) :=
  if r >=? n then
    match iters with
    | O => Err (LoopBudget l)
    | S i => while_ge l i n (q + 1) (r - n)
    end
  else Ok (q, r).

(** [while r1.bit_length() >= k: r1 -= n; q1 += 1] *)
Fixpoint while_len (l : loop_id) (iters : nat) (k n q r : Z) {struct iters}
  : result (Z * Z) :=
  if bit_length r >=? k then
    match iters with
    | O => Err (LoopBudget l)
    | S i => while_len l i k n (q + 1) (r - n)
    end
  else Ok (q, r).

(** The state of the long-division loop of the branch M > 2K. *)
Record longdiv_state : Type := mkLD {
  ld_q : Z;
  ld_r : Z;
  ld_remainingBits : Z
}.

(** The long-division loop, [while r > n: ...]; [div] is the recursive call
    of the kernel. *)
Fixpoint longdiv_loop (div : Z -> Z -> result (Z * Z)) (iters : nat)
  (k n : Z) (st : longdiv_state) {struct iters} : result longdiv_state :=
  let q := ld_q st in
  let r := ld_r st in
  let remainingBits := ld_remainingBits st in
  if r >? n then
    match iters with
    | O => Err (LoopBudget LoopLongDiv)
    | S i =>
        let newRemainingBits := Z.max (bit_length r - 2 * k) 0 in
        let bitsProcessed := remainingBits - newRemainingBits in
        let remainingBits := newRemainingBits in
        q <- py_lshift q bitsProcessed ;;
        let '(r_hi, r_lo) := _splitHiLo r remainingBits in
        '(qi, r) <- div r_hi n ;;
        let r := Z.lor (Z.shiftl r remainingBits) r_lo in
        let q := q + qi in
        longdiv_loop div i k n (mkLD q r remainingBits)
    end
  else Ok st.

Definition DIVMOD_BAILOUT_BITS : Z := 10000.

(** [_divModPositiveArgs(m, n)].  [depth] bounds the recursion depth and
    [iters] the number of times the body of any one [while] loop may run.
    A call made at depth [S d] runs its callees at depth [d].  The [print]
    of the branch K < M < 2K is guarded by [n_hi == 0]; the value tested
    there is [d_branch_n_hi] below. *)
Fixpoint _divModPositiveArgs (depth iters : nat) (m n : Z) {struct depth}
  : result (Z * Z) :=
  let self : Z -> Z -> result (Z * Z) :=
    match depth with
    | O => fun _ _ => Err RecursionLimit
    | S d => _divModPositiveArgs d iters
    end in
  let m_len := bit_length m in
  let n_len := bit_length n in
  if bit_length n <? DIVMOD_BAILOUT_BITS then
    divmod m n
  else if m_len <? n_len then
    Ok (0, m)
  else if m_len =? n_len then
    while_ge LoopEqualLen iters n 0 m
  else if m_len <? 2 * n_len then
    let k := m_len - n_len in
    let excess_bits := n_len - k in
    let '(m_hi, m_lo) := _splitHiLo m excess_bits in
    let '(n_hi, n_lo) := _splitHiLo n excess_bits in
    '(q, r) <- self m_hi n_hi ;;
    let r := Z.lor (Z.shiftl r excess_bits) m_lo - n_lo * q in
    '(q, r) <- while_neg LoopD_neg iters n q r ;;
    while_ge LoopD_ge iters n q r
  else if m_len =? 2 * n_len then
    let k := n_len in
    let kh_floor := k / 2 in
    let kh_ceil := k - kh_floor in
    let '(m_hi, m_mid) := _splitHiLo m k in
    let '(m_mid, m_lo) := _splitHiLo m_mid kh_ceil in
    let '(n_hi, n_lo) := _splitHiLo n kh_floor in
    '(q1, r1) <- self m_hi n_hi ;;
    let r1 := Z.lor (Z.shiftl r1 kh_floor) m_mid - n_lo * q1 in
    '(q1, r1) <- while_neg LoopE_r1_neg iters n q1 r1 ;;
    '(q1, r1) <- while_len LoopE_r1_len iters k n q1 r1 ;;
    '(q2, r2) <- self r1 n_hi ;;
    let q2 := if negb (Z.land k 1 =? 0) then Z.shiftl q2 1 else q2 in
    let r2 := Z.lor (Z.shiftl r2 kh_ceil) m_lo - n_lo * q2 in
    '(q2, r2) <- while_neg LoopE_r2_neg iters n q2 r2 ;;
    '(q2, r2) <- while_ge LoopE_r2_ge iters n q2 r2 ;;
    let q := Z.shiftl q1 kh_ceil + q2 in
    Ok (q, r2)
  else
    let k := bit_length n in
    let q := 0 in
    let r := m in
    let remainingBits := bit_length r - 2 * k in
    st <- longdiv_loop self iters k n (mkLD q r remainingBits) ;;
    let q := Z.shiftl (ld_q st) (ld_remainingBits st) in
    Ok (q, ld_r st).

(** The value [n_hi] that the branch K < M < 2K tests with [if n_hi == 0]
    before it prints. *)
Definition d_branch_n_hi (m n : Z) : Z :=
  let m_len := bit_length m in
  let n_len := bit_length n in
  let k := m_len - n_len in
  let excess_bits := n_len - k in
  fst (_splitHiLo n excess_bits).

(** ** Python objects at the public entry points *)

Inductive value : Type :=
| VInt (z : Z)
| VBool (b : bool)
| VStr (s : string)
| VNone.

(** [isinstance(v, int)]: [bool] is a subclass of [int]. *)
Definition isinstance_int (v : value) : bool :=
  match v with
  | VInt _ | VBool _ => true
  | _ => false
  end.

(** The integer a bool or int stands for in arithmetic. *)
Definition int_of (v : value) : Z :=
  match v with
  | VInt z => z
  | VBool true => 1
  | VBool false => 0
  | _ => 0
  end.

(** [a == b] on ints and bools. *)
Definition py_eq (a b : value) : bool :=
  isinstance_int a && isinstance_int b && (int_of a =? int_of b).

Definition fastBigIntDivMod (depth iters : nat) (m n : value)
  : result (Z * Z) :=
  if negb (isinstance_int m) || negb (isinstance_int n) then Err TypeError
  else
    let m := int_of m in
    let n := int_of n in
    '(q, r) <- _divModPositiveArgs depth iters (Z.abs m) (Z.abs n) ;;
    if (m >? 0) && (n >? 0) then Ok (q, r)
    else if (m <? 0) && (n <? 0) then Ok (q, - r)
    else if r =? 0 then Ok (- q, r)
    else
      let q := - (q + 1) in
      if m >? 0 then Ok (q, n + r) else Ok (q, n - r).

(** ** Decimal strings *)

Definition digit_char (d : Z) : ascii :=
  ascii_of_N (48 + Z.to_N d).

Fixpoint str_digits (fuel : nat) (n : Z) (acc : string) : string :=
  match fuel with
  | O => acc
  | S f =>
      let (q, d) := Z.div_eucl n 10 in
      if q =? 0 then String (digit_char d) acc
      else str_digits f q (String (digit_char d) acc)
  end.

(** The builtin [str] on integers. *)
Definition str (n : Z) : string :=
  if n <? 0
  then String "-" (str_digits (Z.to_nat (bit_length n)) (- n) EmptyString)
  else str_digits (S (Z.to_nat (bit_length n))) n EmptyString.

(** Reading a decimal string back ([int(s)] on an optional ['-'] followed by
    one or more digits). *)
Definition digit_value (c : ascii) : option Z :=
  let k := N_of_ascii c in
  if ((48 <=? k) && (k <=? 57))%N then Some (Z.of_N k - 48) else None.

Fixpoint parse_digits (s : string) (acc : Z) : option Z :=
  match s with
  | EmptyString => Some acc
  | String c s' =>
      match digit_value c with
      | Some d => parse_digits s' (10 * acc + d)
      | None => None
      end
  end.

Definition parse_int (s : string) : option Z :=
  match s with
  | EmptyString => None
  | String "-" EmptyString => None
  | String "-" s' => option_map Z.opp (parse_digits s' 0)
  | _ => parse_digits s 0
  end.

(** ['0' * k]; a count below one gives the empty string. *)
Fixpoint zeros (k : nat) : string :=
  match k with
  | O => EmptyString
  | S k' => String "0" (zeros k')
  end.

(** [l[i]] on a list: negative indices count from the end. *)
Definition py_index (l : list Z) (i : Z) : result Z :=
  let len := Z.of_nat (List.length l) in
  let j := if i <? 0 then i + len else i in
  if (0 <=? j) && (j <? len) then Ok (nth (Z.to_nat j) l 0)
  else Err IndexError.

Definition STRINGIFY_BAILOUT_BITS : Z := 20000.

Fixpoint _toBase10StringHelper (depth iters : nat) (n : Z) (powers : list Z)
  (digitsLog2 : Z) {struct depth} : result string :=
  if bit_length n <? STRINGIFY_BAILOUT_BITS then
    let chars := str n in
    width <- py_lshift 1 digitsLog2 ;;
    Ok (zeros (Z.to_nat (width - Z.of_nat (String.length chars))) ++ chars)%string
  else
    match depth with
    | O => Err RecursionLimit
    | S d =>
        p <- py_index powers (digitsLog2 - 1) ;;
        '(lhs, rhs) <- _divModPositiveArgs d iters n p ;;
        a <- _toBase10StringHelper d iters lhs powers (digitsLog2 - 1) ;;
        b <- _toBase10StringHelper d iters rhs powers (digitsLog2 - 1) ;;
        Ok (a ++ b)%string
    end.

(** [while powers[-1].bit_length() * 2 < n.bit_length(): powers.append(...)] *)
Fixpoint build_powers (iters : nat) (n : Z) (powers : list Z) {struct iters}
  : result (list Z) :=
  let top := List.last powers 0 in
  if bit_length top * 2 <? bit_length n then
    match iters with
    | O => Err (LoopBudget LoopPowers)
    | S i => build_powers i n (powers ++ [top * top])
    end
  else Ok powers.

(** [for i, c in enumerate(chars): if c != '0': break] followed by
    [chars[i:]]: the suffix from the first character that is not ['0'], or
    the last character when all are; [i] is unbound on the empty string. *)
Fixpoint strip_leading_zeros (chars : string) : result string :=
  match chars with
  | EmptyString => Err UnboundLocalError
  | String c rest =>
      if Ascii.eqb c "0" then
        match rest with
        | EmptyString => Ok chars
        | _ => strip_leading_zeros rest
        end
      else Ok chars
  end.

(** The body of [fastBigIntStrBase10] for a positive integer. *)
Definition strBase10_positive (depth iters : nat) (n : Z) : result string :=
  powers <- build_powers iters n [10] ;;
  chars <- _toBase10StringHelper depth iters n powers
             (Z.of_nat (List.length powers)) ;;
  strip_leading_zeros chars.

(** [fastBigIntStrBase10(n)]; the recursive call on [-n] passes the type
    check and both sign tests and runs the positive body. *)
Definition fastBigIntStrBase10 (depth iters : nat) (v : value)
  : result string :=
  if negb (isinstance_int v) then Err TypeError
  else
    let n := int_of v in
    if n =? 0 then Ok "0"%string
    else if n <? 0 then
      s <- strBase10_positive depth iters (- n) ;;
      Ok (String "-" s)
    else strBase10_positive depth iters n.

(** ** Integer square root *)

(** [while (s+1)*(s+1) <= n: s += 1] *)
Fixpoint sqrt_small_loop (iters : nat) (n s : Z) {struct iters} : result Z :=
  if (s + 1) * (s + 1) <=? n then
    match iters with
    | O => Err (LoopBudget LoopSqrtSmall)
    | S i => sqrt_small_loop i n (s + 1)
    end
  else Ok s.

(** [while actualSquare > n: approx -= 1; actualSquare -= ((approx << 1) | 1)] *)
Fixpoint sqrt_down_loop (iters : nat) (n approx actualSquare : Z)
  {struct iters} : result Z :=
  if actualSquare >? n then
    match iters with
    | O => Err (LoopBudget LoopSqrtDown)
    | S i =>
        let approx := approx - 1 in
        let actualSquare := actualSquare - Z.lor (Z.shiftl approx 1) 1 in
        sqrt_down_loop i n approx actualSquare
    end
  else Ok approx.

(** [while actualSquare <= n: approx += 1; actualSquare += ((approx << 1) | 1)] *)
Fixpoint sqrt_up_loop (iters : nat) (n approx actualSquare : Z)
  {struct iters} : result Z :=
  if actualSquare <=? n then
    match iters with
    | O => Err (LoopBudget LoopSqrtUp)
    | S i =>
        let approx := approx + 1 in
        let actualSquare := actualSquare + Z.lor (Z.shiftl approx 1) 1 in
        sqrt_up_loop i n approx actualSquare
    end
  else Ok approx.

Fixpoint _floorSqrtPositiveInt (depth iters : nat) (n : Z) {struct depth}
  : result Z :=
  if bit_length n <=? 1 then Ok n
  else if bit_length n <? 8 then sqrt_small_loop iters n 1
  else
    match depth with
    | O => Err RecursionLimit
    | S d =>
        let resultPadBits := bit_length n / 4 in
        let padBits := 2 * resultPadBits in
        s <- _floorSqrtPositiveInt d iters (Z.shiftr n padBits) ;;
        let approx := Z.shiftl s resultPadBits in
        '(q, _) <- _divModPositiveArgs d iters n approx ;;
        let approx := Z.shiftr (approx + q) 1 in
        let actualSquare := approx * approx in
        if actualSquare >? n then
          let approx := approx - 1 in
          let actualSquare := actualSquare - Z.lor (Z.shiftl approx 1) 1 in
          sqrt_down_loop iters n approx actualSquare
        else
          let actualSquare := actualSquare + Z.lor (Z.shiftl approx 1) 1 in
          sqrt_up_loop iters n approx actualSquare
    end.

(** [fastBigIntFloorSqrt(n)].  When [n.bit_length() <= 1] the kernel returns
    its argument object itself, so a bool comes back as that bool; every
    other branch builds a fresh int. *)
Definition fastBigIntFloorSqrt (depth iters : nat) (v : value)
  : result value :=
  if negb (isinstance_int v) then Err TypeError
  else if int_of v <? 0 then Err ValueError
  else
    s <- _floorSqrtPositiveInt depth iters (int_of v) ;;
    Ok (if bit_length (int_of v) <=? 1 then v else VInt s).

(** ** Definitions used in the proofs *)

(** One unfolding of the kernel, with the recursive call abstracted. *)
Definition kernel_step (self : Z -> Z -> result (Z * Z)) (iters : nat) (m n : Z)
  : result (Z * Z) :=
  let m_len := bit_length m in
  let n_len := bit_length n in
  if bit_length n <? DIVMOD_BAILOUT_BITS then
    divmod m n
  else if m_len <? n_len then
    Ok (0, m)
  else if m_len =? n_len then
    while_ge LoopEqualLen iters n 0 m
  else if m_len <? 2 * n_len then
    let k := m_len - n_len in
    let excess_bits := n_len - k in
    let '(m_hi, m_lo) := _splitHiLo m excess_bits in
    let '(n_hi, n_lo) := _splitHiLo n excess_bits in
    '(q, r) <- self m_hi n_hi ;;
    let r := Z.lor (Z.shiftl r excess_bits) m_lo - n_lo * q in
    '(q, r) <- while_neg LoopD_neg iters n q r ;;
    while_ge LoopD_ge iters n q r
  else if m_len =? 2 * n_len then
    let k := n_len in
    let kh_floor := k / 2 in
    let kh_ceil := k - kh_floor in
    let '(m_hi, m_mid) := _splitHiLo m k in
    let '(m_mid, m_lo) := _splitHiLo m_mid kh_ceil in
    let '(n_hi, n_lo) := _splitHiLo n kh_floor in
    '(q1, r1) <- self m_hi n_hi ;;
    let r1 := Z.lor (Z.shiftl r1 kh_floor) m_mid - n_lo * q1 in
    '(q1, r1) <- while_neg LoopE_r1_neg iters n q1 r1 ;;
    '(q1, r1) <- while_len LoopE_r1_len iters k n q1 r1 ;;
    '(q2, r2) <- self r1 n_hi ;;
    let q2 := if negb (Z.land k 1 =? 0) then Z.shiftl q2 1 else q2 in
    let r2 := Z.lor (Z.shiftl r2 kh_ceil) m_lo - n_lo * q2 in
    '(q2, r2) <- while_neg LoopE_r2_neg iters n q2 r2 ;;
    '(q2, r2) <- while_ge LoopE_r2_ge iters n q2 r2 ;;
    let q := Z.shiftl q1 kh_ceil + q2 in
    Ok (q, r2)
  else
    let k := bit_length n in
    let q := 0 in
    let r := m in
    let remainingBits := bit_length r - 2 * k in
    st <- longdiv_loop self iters k n (mkLD q r remainingBits) ;;
    let q := Z.shiftl (ld_q st) (ld_remainingBits st) in
    Ok (q, ld_r st).

(** [_divModPositiveArgs m n] returns [(q, r)] once the budgets are large
    enough. *)
Definition div_returns (m n q r : Z) : Prop :=
  exists D I, forall d i, (D <= d)%nat -> (I <= i)%nat ->
    _divModPositiveArgs d i m n = Ok (q, r).


(** [_floorSqrtPositiveInt n] returns [s] once the budgets are large enough. *)
Definition sqrt_returns (n s : Z) : Prop :=
  exists D I, forall d i, (D <= d)%nat -> (I <= i)%nat ->
    _floorSqrtPositiveInt d i n = Ok s.

(** [s] is the floor of the square root of [n]. *)
Definition is_floor_sqrt (n s : Z) : Prop :=
  s * s <= n /\ (s + 1) * (s + 1) > n.

(** Errors that only say that a budget of the model was too small. *)
Definition budget_error (e : error) : bool :=
  match e with
  | RecursionLimit | LoopBudget _ => true
  | _ => false
  end.

(** An outcome that larger budgets cannot change: a value or a Python
    exception. *)
Definition settled {A : Type} (x : result A) : Prop :=
  match x with
  | Ok _ => True
  | Err e => budget_error e = false
  end.

Definition no_type_error {A : Type} (x : result A) : Prop :=
  x <> Err TypeError.

(** ** Concrete inputs *)

(** A dividend of 30000 bits and a divisor of 10000 bits whose long division
    ends with the working remainder equal to the divisor. *)
Definition longdiv_m : Z := 2 ^ 29999 + 2 ^ 9999.
Definition longdiv_n : Z := 2 ^ 9999.

(** A dividend of 40004 bits and a divisor of 20002 bits for the branch
    M == 2K, together with the intermediate values of that call
    ([hang_b] is 2^10000). *)
Definition hang_n : Z := 2 ^ 20002 - 1.
Definition hang_m : Z := Z.shiftl (2 ^ 10000 * hang_n + 2 ^ 20001) 10001.
Definition hang_b : Z := 2 ^ 10000.
Definition hang_mhi : Z := 2 * hang_b * hang_b + hang_b - 1.
Definition hang_mrest : Z := 2 * hang_b * hang_b.
Definition hang_nhi : Z := 2 * hang_b - 1.
Definition hang_r1 : Z := 1 - 2 * hang_b * hang_b.

(** The powers [10^(2^j)] as the table of [fastBigIntStrBase10] builds them,
    by repeated squaring. *)
Definition ten_pow2 (j : nat) : Z := Nat.iter j (fun p => p * p) 10.

(** An integer of 54428 bits, (2^13608 + 1) * 10^12288, whose conversion
    divides [c3_lhs] by 10^4096 in the long-division branch. *)
Definition c3_t : Z := 2 ^ 13607.
Definition c3_lhs : Z := (2 * c3_t + 1) * ten_pow2 12.
Definition c3_n : Z := c3_lhs * ten_pow2 13.
Definition c3_powers : list Z := map ten_pow2 (seq 0 14).

(** The leading 40 bits of 10^4096. *)
Definition c3_b : Z := 843429577354.

(** Bit lengths along a chain of squarings, and the last power. *)
Fixpoint pow_chain (k : nat) (p : Z) : list Z * Z :=
  match k with
  | O => ([bit_length p], p)
  | S k' => let '(l, last) := pow_chain k' (p * p) in (bit_length p :: l, last)
  end.

Fixpoint Zlist_eqb (a b : list Z) : bool :=
  match a, b with
  | [], [] => true
  | x :: a', y :: b' => (x =? y) && Zlist_eqb a' b'
  | _, _ => false
  end.

(** [lo * 2^e <= z < hi * 2^e] *)
Definition scaled_between (z lo hi e : Z) : Prop := lo * 2 ^ e <= z < hi * 2 ^ e.

(** The left padding of [_toBase10StringHelper]. *)
Definition pad (digitsLog2 : Z) (chars : string) : string :=
  (zeros (Z.to_nat (Z.shiftl 1 digitsLog2 - Z.of_nat (String.length chars)))
   ++ chars)%string.

(** The characters assembled for [c3_n] before the leading zeros are
    stripped. *)
Definition c3_chars : string :=
  ((pad 12 (str (2 * c3_t)) ++ pad 12 (str (ten_pow2 12)))
   ++ pad 13 (str 0))%string.

(** ** Definitions used in the proofs about the decimal printer and the
    square root *)

(** The lowest [w] decimal digits of [x], most significant first, written in
    front of [acc]. *)
Fixpoint fixed_digits (w : nat) (x : Z) (acc : string) : string :=
  match w with
  | O => acc
  | S w' => fixed_digits w' (x / 10) (String (digit_char (x mod 10)) acc)
  end.

(** The dividends that [_toBase10StringHelper] meets on its chain of
    quotients, from [x] at [digitsLog2 = k] down, each have at most twice
    the bits of the power they are divided by, until one is below the
    bail-out size. *)
Fixpoint lead_ok (k : nat) (x : Z) : Prop :=
  match k with
  | O => bit_length x < STRINGIFY_BAILOUT_BITS
  | S k' =>
      bit_length x < STRINGIFY_BAILOUT_BITS \/
      (bit_length x <= 2 * bit_length (ten_pow2 k') /\ lead_ok k' (x / ten_pow2 k'))
  end.

(** The approximation of [_floorSqrtPositiveInt] after its Newton step, with
    the values that the recursive call and the division return. *)
Definition newton_approx (n : Z) : Z :=
  let resultPadBits := bit_length n / 4 in
  let padBits := 2 * resultPadBits in
  let approx := Z.shiftl (Z.sqrt (Z.shiftr n padBits)) resultPadBits in
  Z.shiftr (approx + n / approx) 1.

(** A dividend of 20000 bits and a divisor of 10000 bits for the branch
    M == 2K: the first half of the division leaves a remainder with as many
    bits as the divisor. *)
Definition half_m : Z := 2 ^ 19999 + 2 ^ 14999.
Definition half_n : Z := 2 ^ 10000 - 1.

(** * Properties *)

(** ** Bit lengths, splitting and the correction loops *)

Lemma bit_length_nonneg x : 0 <= bit_length x.
Proof.
  unfold bit_length. destruct (Z.eqb_spec x 0); [lia|].
  pose proof (Z.log2_nonneg (Z.abs x)). lia.
Qed.

Lemma bit_length_pos_bounds n :
  0 < n -> 1 <= bit_length n /\ 2 ^ (bit_length n - 1) <= n < 2 ^ bit_length n.
Proof.
  intros Hn. unfold bit_length. destruct (Z.eqb_spec n 0); [lia|].
  rewrite Z.abs_eq by lia.
  pose proof (Z.log2_nonneg n). pose proof (Z.log2_spec n Hn).
  replace (Z.log2 n + 1 - 1) with (Z.log2 n) by lia.
  replace (Z.log2 n + 1) with (Z.succ (Z.log2 n)) by lia. lia.
Qed.

Lemma bit_length_abs x : bit_length (Z.abs x) = bit_length x.
Proof.
  unfold bit_length. rewrite Z.abs_idemp.
  destruct (Z.eqb_spec x 0), (Z.eqb_spec (Z.abs x) 0); lia.
Qed.

Lemma bit_length_le_iff x k : 0 <= k -> (bit_length x <= k <-> Z.abs x < 2 ^ k).
Proof.
  intros Hk. rewrite <- bit_length_abs.
  destruct (Z.eq_dec (Z.abs x) 0) as [E|E].
  - rewrite E. cbn. pose proof (Z.pow_pos_nonneg 2 k). lia.
  - assert (Hp : 0 < Z.abs x) by lia.
    destruct (bit_length_pos_bounds _ Hp) as [H1 [H2 H3]]. split; intros H.
    + eapply Z.lt_le_trans; [exact H3|]. apply Z.pow_le_mono_r; lia.
    + destruct (Z_le_gt_dec (bit_length (Z.abs x)) k) as [|G]; [assumption|].
      exfalso. assert (2 ^ k <= 2 ^ (bit_length (Z.abs x) - 1))
        by (apply Z.pow_le_mono_r; lia). lia.
Qed.

Lemma bit_length_ge_iff x k : 1 <= k -> (k <= bit_length x <-> 2 ^ (k - 1) <= Z.abs x).
Proof.
  intros Hk. pose proof (bit_length_le_iff x (k - 1) ltac:(lia)). lia.
Qed.

Lemma bit_length_shiftr n e :
  0 < n -> 0 <= e < bit_length n ->
  0 < Z.shiftr n e /\ bit_length (Z.shiftr n e) = bit_length n - e.
Proof.
  intros Hn He. destruct (bit_length_pos_bounds n Hn) as [H1 [H2 H3]].
  rewrite Z.shiftr_div_pow2 by lia.
  assert (P : 0 < 2 ^ e) by (apply Z.pow_pos_nonneg; lia).
  assert (L : 2 ^ (bit_length n - e - 1) <= n / 2 ^ e).
  { apply Z.div_le_lower_bound; [lia|]. rewrite <- Z.pow_add_r by lia.
    replace (e + (bit_length n - e - 1)) with (bit_length n - 1) by lia. lia. }
  assert (U : n / 2 ^ e < 2 ^ (bit_length n - e)).
  { apply Z.div_lt_upper_bound; [lia|]. rewrite <- Z.pow_add_r by lia.
    replace (e + (bit_length n - e)) with (bit_length n) by lia. lia. }
  assert (0 < 2 ^ (bit_length n - e - 1)) by (apply Z.pow_pos_nonneg; lia).
  split; [lia|].
  assert (bit_length (n / 2 ^ e) <= bit_length n - e)
    by (apply bit_length_le_iff; lia).
  assert (bit_length n - e <= bit_length (n / 2 ^ e)).
  { apply bit_length_ge_iff; [lia|]. replace (bit_length n - e - 1) with (bit_length n - e - 1) by lia. lia. }
  lia.
Qed.

Lemma splitHiLo_spec num b :
  0 <= b ->
  let '(hi, lo) := _splitHiLo num b in
  num = hi * 2 ^ b + lo /\ 0 <= lo < 2 ^ b /\ hi = num / 2 ^ b /\ lo = num mod 2 ^ b.
Proof.
  intros Hb. unfold _splitHiLo.
  assert (P : 0 < 2 ^ b) by (apply Z.pow_pos_nonneg; lia).
  rewrite Z.shiftr_div_pow2 by lia.
  rewrite Z.shiftl_1_l.
  replace (2 ^ b - 1) with (Z.ones b) by (rewrite Z.ones_equiv; lia).
  rewrite Z.land_ones by lia.
  pose proof (Z.mod_pos_bound num (2 ^ b) P).
  pose proof (Z.div_mod num (2 ^ b) ltac:(lia)). repeat split; lia.
Qed.

Lemma lor_shiftl_low r b lo :
  0 <= b -> 0 <= lo < 2 ^ b -> Z.lor (Z.shiftl r b) lo = r * 2 ^ b + lo.
Proof.
  intros Hb Hlo.
  assert (E : Z.land (Z.shiftl r b) lo = 0).
  { apply Z.bits_inj'. intros i Hi. rewrite Z.land_spec, Z.bits_0.
    destruct (Z_lt_ge_dec i b) as [L|G].
    - rewrite Z.shiftl_spec_low by lia. reflexivity.
    - replace lo with (lo mod 2 ^ b) by (apply Z.mod_small; lia).
      rewrite Z.mod_pow2_bits_high by lia. apply andb_false_r. }
  rewrite <- Z.lxor_lor by exact E.
  rewrite <- Z.add_nocarry_lxor by exact E.
  rewrite Z.shiftl_mul_pow2 by lia. reflexivity.
Qed.

(** Loops in closed form. *)
Lemma while_neg_returns l n q r :
  0 < n ->
  exists I, forall i, (I <= i)%nat ->
    while_neg l i n q r = Ok (if r <? 0 then (q + r / n, r mod n) else (q, r)).
Proof.
  intros Hn.
  assert (G : forall c q r, - r <= Z.of_nat c * n -> forall i, (c <= i)%nat ->
    while_neg l i n q r = Ok (if r <? 0 then (q + r / n, r mod n) else (q, r))).
  { induction c as [|c IH]; intros q0 r0 Hc i Hi.
    - destruct i; simpl; destruct (Z.ltb_spec r0 0); try reflexivity; lia.
    - destruct i as [|i]; [lia|]. simpl.
      destruct (Z.ltb_spec r0 0) as [Hr|Hr]; [|reflexivity].
      rewrite IH by lia.
      replace (r0 / n) with ((r0 + n) / n - 1)
        by (replace (r0 + n) with (r0 + 1 * n) by lia; rewrite Z.div_add by lia; lia).
      replace (r0 mod n) with ((r0 + n) mod n)
        by (replace (r0 + n) with (r0 + 1 * n) by lia; apply Z.mod_add; lia).
      destruct (Z.ltb_spec (r0 + n) 0) as [H2|H2].
      + f_equal; f_equal; lia.
      + rewrite Z.div_small, Z.mod_small by lia. f_equal; f_equal; lia. }
  exists (Z.to_nat (Z.abs r)). intros i Hi. apply (G (Z.to_nat (Z.abs r))); [|exact Hi].
  rewrite Z2Nat.id by lia. nia.
Qed.

Lemma while_ge_returns l n q r :
  0 < n ->
  exists I, forall i, (I <= i)%nat ->
    while_ge l i n q r = Ok (if r >=? n then (q + r / n, r mod n) else (q, r)).
Proof.
  intros Hn.
  assert (G : forall c q r, r < Z.of_nat c * n + n -> forall i, (c <= i)%nat ->
    while_ge l i n q r = Ok (if r >=? n then (q + r / n, r mod n) else (q, r))).
  { induction c as [|c IH]; intros q0 r0 Hc i Hi.
    - destruct i; simpl; destruct (Z.geb_spec r0 n); try reflexivity; lia.
    - destruct i as [|i]; [lia|]. simpl.
      destruct (Z.geb_spec r0 n) as [Hr|Hr]; [|reflexivity].
      rewrite IH by lia.
      replace (r0 / n) with ((r0 - n) / n + 1)
        by (replace (r0 - n) with (r0 + (-1) * n) by lia; rewrite Z.div_add by lia; lia).
      replace (r0 mod n) with ((r0 - n) mod n)
        by (replace (r0 - n) with (r0 + (-1) * n) by lia; apply Z.mod_add; lia).
      destruct (Z.geb_spec (r0 - n) n) as [H2|H2].
      + f_equal; f_equal; lia.
      + rewrite Z.div_small, Z.mod_small by lia. f_equal; f_equal; lia. }
  exists (Z.to_nat (Z.abs r)). intros i Hi. apply (G (Z.to_nat (Z.abs r))); [|exact Hi].
  rewrite Z2Nat.id by lia. nia.
Qed.

(** The bit-length test of the branch M == 2K leaves [|r'| < 2^(k-1)]. *)
Lemma while_len_returns l k n q r :
  1 <= k -> 2 ^ (k - 1) <= n < 2 ^ k -> 0 <= r ->
  exists I q' r', (forall i, (I <= i)%nat -> while_len l i k n q r = Ok (q', r')) /\
    q' * n + r' = q * n + r /\ bit_length r' < k.
Proof.
  intros Hk Hn.
  assert (P : 0 < 2 ^ (k - 1)) by (apply Z.pow_pos_nonneg; lia).
  assert (E2 : 2 ^ k = 2 * 2 ^ (k - 1)).
  { replace k with (Z.succ (k - 1)) at 1 by lia. apply Z.pow_succ_r; lia. }
  assert (G : forall c q r, 0 <= r < Z.of_nat c * n + n ->
    exists q' r', (forall i, (S c <= i)%nat -> while_len l i k n q r = Ok (q', r')) /\
      q' * n + r' = q * n + r /\ bit_length r' < k).
  { induction c as [|c IH]; intros q0 r0 Hc.
    - destruct (Z.geb_spec (bit_length r0) k) as [Hb|Hb].
      + exists (q0 + 1), (r0 - n).
        assert (B : bit_length (r0 - n) < k).
        { enough (bit_length (r0 - n) <= k - 1) by lia.
          apply bit_length_le_iff; [lia|].
          apply bit_length_ge_iff in Hb; lia. }
        split; [|split; [lia|exact B]].
        intros i Hi. destruct i as [|i]; [lia|]. simpl.
        destruct (Z.geb_spec (bit_length r0) k); [|lia].
        destruct i; simpl; destruct (Z.geb_spec (bit_length (r0 - n)) k); try reflexivity; lia.
      + exists q0, r0. split; [|split; [lia|lia]].
        intros i Hi. destruct i; simpl;
          destruct (Z.geb_spec (bit_length r0) k); try reflexivity; lia.
    - destruct (Z.geb_spec (bit_length r0) k) as [Hb|Hb].
      + destruct (Z_lt_ge_dec (r0 - n) 0) as [Hneg|Hpos].
        * exists (q0 + 1), (r0 - n).
          assert (B : bit_length (r0 - n) < k).
          { enough (bit_length (r0 - n) <= k - 1) by lia.
            apply bit_length_le_iff; [lia|].
            apply bit_length_ge_iff in Hb; lia. }
          split; [|split; [lia|exact B]].
          intros i Hi. destruct i as [|i]; [lia|]. simpl.
          destruct (Z.geb_spec (bit_length r0) k); [|lia].
          destruct i; simpl; destruct (Z.geb_spec (bit_length (r0 - n)) k); try reflexivity; lia.
        * destruct (IH (q0 + 1) (r0 - n)) as (q' & r' & F & Eq & B); [lia|].
          exists q', r'. split; [|split; [lia|exact B]].
          intros i Hi. destruct i as [|i]; [lia|]. simpl.
          destruct (Z.geb_spec (bit_length r0) k); [|lia]. apply F. lia.
      + exists q0, r0. split; [|split; [lia|lia]].
        intros i Hi. destruct i; simpl;
          destruct (Z.geb_spec (bit_length r0) k); try reflexivity; lia. }
  intros Hr. destruct (G (Z.to_nat r) q r) as (q' & r' & F & Eq & B).
  { rewrite Z2Nat.id by lia. nia. }
  exists (S (Z.to_nat r)), q', r'. auto.
Qed.

(** ** The division kernel returns *)

Lemma kernel_unfold_S d i m n :
  _divModPositiveArgs (S d) i m n = kernel_step (_divModPositiveArgs d i) i m n.
Proof. reflexivity. Qed.

Lemma kernel_unfold_O i m n :
  _divModPositiveArgs O i m n = kernel_step (fun _ _ => Err RecursionLimit) i m n.
Proof. reflexivity. Qed.

Ltac resolve_tests :=
  repeat match goal with
  | |- context [?a <? ?b] =>
      first [ rewrite (proj2 (Z.ltb_lt a b)) by lia
            | rewrite (proj2 (Z.ltb_ge a b)) by lia ]
  | |- context [?a =? ?b] =>
      first [ rewrite (proj2 (Z.eqb_eq a b)) by lia
            | rewrite (proj2 (Z.eqb_neq a b)) by lia ]
  end.

Section KernelStep.
Variable self : Z -> Z -> result (Z * Z).
Variable iters : nat.
Variables m n : Z.

Lemma step_bailout :
  bit_length n < DIVMOD_BAILOUT_BITS -> kernel_step self iters m n = divmod m n.
Proof. intros H. unfold kernel_step. cbv zeta. resolve_tests. reflexivity. Qed.

Hypothesis Hbig : DIVMOD_BAILOUT_BITS <= bit_length n.

Lemma step_b :
  bit_length m < bit_length n -> kernel_step self iters m n = Ok (0, m).
Proof. intros H. unfold kernel_step. cbv zeta. resolve_tests. reflexivity. Qed.

Lemma step_c :
  bit_length m = bit_length n ->
  kernel_step self iters m n = while_ge LoopEqualLen iters n 0 m.
Proof. intros H. unfold kernel_step. cbv zeta. resolve_tests. reflexivity. Qed.

Lemma step_d :
  bit_length n < bit_length m < 2 * bit_length n ->
  kernel_step self iters m n =
    let e := bit_length n - (bit_length m - bit_length n) in
    '(q, r) <- self (fst (_splitHiLo m e)) (fst (_splitHiLo n e)) ;;
    '(q, r) <- while_neg LoopD_neg iters n q
                 (Z.lor (Z.shiftl r e) (snd (_splitHiLo m e))
                  - snd (_splitHiLo n e) * q) ;;
    while_ge LoopD_ge iters n q r.
Proof. intros H. unfold kernel_step. cbv zeta. resolve_tests. reflexivity. Qed.

Lemma step_e :
  bit_length m = 2 * bit_length n ->
  kernel_step self iters m n =
    let k := bit_length n in
    let kh_floor := k / 2 in
    let kh_ceil := k - kh_floor in
    let m_hi := fst (_splitHiLo m k) in
    let m_mid := fst (_splitHiLo (snd (_splitHiLo m k)) kh_ceil) in
    let m_lo := snd (_splitHiLo (snd (_splitHiLo m k)) kh_ceil) in
    let n_hi := fst (_splitHiLo n kh_floor) in
    let n_lo := snd (_splitHiLo n kh_floor) in
    '(q1, r1) <- self m_hi n_hi ;;
    '(q1, r1) <- while_neg LoopE_r1_neg iters n q1
                   (Z.lor (Z.shiftl r1 kh_floor) m_mid - n_lo * q1) ;;
    '(q1, r1) <- while_len LoopE_r1_len iters k n q1 r1 ;;
    '(q2, r2) <- self r1 n_hi ;;
    let q2 := if negb (Z.land k 1 =? 0) then Z.shiftl q2 1 else q2 in
    '(q2, r2) <- while_neg LoopE_r2_neg iters n q2
                   (Z.lor (Z.shiftl r2 kh_ceil) m_lo - n_lo * q2) ;;
    '(q2, r2) <- while_ge LoopE_r2_ge iters n q2 r2 ;;
    Ok (Z.shiftl q1 kh_ceil + q2, r2).
Proof.
  intros H. unfold kernel_step. cbv zeta.
  pose proof (bit_length_pos_bounds n) as _.
  assert (0 < bit_length n) by (unfold DIVMOD_BAILOUT_BITS in Hbig; lia).
  resolve_tests. reflexivity.
Qed.

Lemma step_f :
  2 * bit_length n < bit_length m ->
  kernel_step self iters m n =
    st <- longdiv_loop self iters (bit_length n) n
            (mkLD 0 m (bit_length m - 2 * bit_length n)) ;;
    Ok (Z.shiftl (ld_q st) (ld_remainingBits st), ld_r st).
Proof.
  intros H. unfold kernel_step. cbv zeta.
  assert (0 < bit_length n) by (unfold DIVMOD_BAILOUT_BITS in Hbig; lia).
  resolve_tests. reflexivity.
Qed.
End KernelStep.

Lemma divmod_unique n q r T :
  0 < n -> q * n + r = T -> 0 <= r < n -> (q, r) = (T / n, T mod n).
Proof.
  intros Hn E Hr.
  assert (q = T / n) by (apply Z.div_unique_pos with r; lia).
  assert (r = T mod n) by (apply Z.mod_unique_pos with q; lia).
  congruence.
Qed.

(** A downward correction followed by an upward one yields the floor
    quotient and remainder of the value [q * n + r] they started from. *)
Lemma correction_returns l1 l2 n q r :
  0 < n ->
  exists I q' r', forall i, (I <= i)%nat ->
    while_neg l1 i n q r = Ok (q', r') /\
    while_ge l2 i n q' r' = Ok ((q * n + r) / n, (q * n + r) mod n).
Proof.
  intros Hn.
  destruct (while_neg_returns l1 n q r Hn) as [I1 H1].
  set (p := if r <? 0 then (q + r / n, r mod n) else (q, r)) in *.
  destruct (while_ge_returns l2 n (fst p) (snd p) Hn) as [I2 H2].
  exists (Nat.max I1 I2), (fst p), (snd p). intros i Hi.
  rewrite H1, H2 by lia. split; [destruct p; reflexivity|]. f_equal.
  pose proof (Z.div_mod r n ltac:(lia)) as Dr.
  pose proof (Z.mod_pos_bound r n Hn) as Br.
  assert (E1 : fst p * n + snd p = q * n + r /\ 0 <= snd p).
  { subst p. destruct (Z.ltb_spec r 0); simpl; split; nia. }
  destruct E1 as [E1 P1]. destruct p as [q' r']. simpl in *.
  pose proof (Z.div_mod r' n ltac:(lia)) as Dr'.
  pose proof (Z.mod_pos_bound r' n Hn) as Br'.
  destruct (Z.geb_spec r' n).
  - apply divmod_unique; [lia| nia |lia].
  - apply divmod_unique; [lia| nia |lia].
Qed.

Lemma splitHiLo_fst num b : 0 <= b -> fst (_splitHiLo num b) = num / 2 ^ b.
Proof. intros Hb. pose proof (splitHiLo_spec num b Hb) as H.
  destruct (_splitHiLo num b). simpl. tauto. Qed.

Lemma splitHiLo_snd num b : 0 <= b -> snd (_splitHiLo num b) = num mod 2 ^ b.
Proof. intros Hb. pose proof (splitHiLo_spec num b Hb) as H.
  destruct (_splitHiLo num b). simpl. tauto. Qed.

Lemma div_pow2_neg m e : 0 <= e -> m < 0 -> m / 2 ^ e < 0.
Proof.
  intros He Hm. assert (0 < 2 ^ e) by (apply Z.pow_pos_nonneg; lia).
  apply Z.div_lt_upper_bound; lia.
Qed.

Lemma bit_length_div_pow2 n e :
  0 < n -> 0 <= e < bit_length n ->
  0 < n / 2 ^ e /\ bit_length (n / 2 ^ e) = bit_length n - e.
Proof.
  intros Hn He. rewrite <- Z.shiftr_div_pow2 by lia. apply bit_length_shiftr; assumption.
Qed.

(** Branch K < M < 2K, given that the recursive call returns. *)
Lemma branch_d_returns m n :
  0 < n -> DIVMOD_BAILOUT_BITS <= bit_length n ->
  bit_length n < bit_length m < 2 * bit_length n ->
  (let e := bit_length n - (bit_length m - bit_length n) in
   exists q1 r1, div_returns (m / 2 ^ e) (n / 2 ^ e) q1 r1 /\
                 q1 * (n / 2 ^ e) + r1 = m / 2 ^ e) ->
  div_returns m n (m / n) (m mod n).
Proof.
  intros Hn Hbig HM. cbv zeta.
  set (e := bit_length n - (bit_length m - bit_length n)).
  intros (q1 & r1 & (D1 & I1 & R1) & E1).
  assert (He : 0 <= e) by lia.
  assert (P : 0 < 2 ^ e) by (apply Z.pow_pos_nonneg; lia).
  pose proof (Z.div_mod m (2 ^ e) ltac:(lia)) as Dm.
  pose proof (Z.mod_pos_bound m (2 ^ e) P) as Bm.
  pose proof (Z.div_mod n (2 ^ e) ltac:(lia)) as Dn.
  set (r' := Z.lor (Z.shiftl r1 e) (m mod 2 ^ e) - n mod 2 ^ e * q1).
  destruct (correction_returns LoopD_neg LoopD_ge n q1 r' Hn) as (I2 & qa & ra & R2).
  assert (Er : q1 * n + r' = m).
  { unfold r'. rewrite lor_shiftl_low by lia.
    set (mh := m / 2 ^ e) in *. set (nh := n / 2 ^ e) in *.
    set (ml := m mod 2 ^ e) in *. set (nl := n mod 2 ^ e) in *.
    rewrite Dm, Dn, <- E1. ring. }
  exists (S D1), (Nat.max I1 I2). intros d i Hd Hi.
  destruct d as [|d]; [lia|].
  rewrite kernel_unfold_S, step_d by assumption. cbv zeta. fold e.
  rewrite !splitHiLo_fst, !splitHiLo_snd by lia.
  rewrite R1 by lia. unfold bind at 1. fold r'.
  destruct (R2 i ltac:(lia)) as [Ra Rb].
  rewrite Ra. unfold bind. rewrite Rb, Er. reflexivity.
Qed.

Lemma land_1_mod2 k : Z.land k 1 = k mod 2.
Proof. change 1 with (Z.ones 1) at 1. rewrite Z.land_ones by lia. reflexivity. Qed.

(** Branch M == 2K, given that the recursive calls on the high half of the
    divisor return. *)
Lemma branch_e_returns m n :
  0 < n -> DIVMOD_BAILOUT_BITS <= bit_length n ->
  bit_length m = 2 * bit_length n ->
  (let nh := n / 2 ^ (bit_length n / 2) in
   forall m', m' < 0 \/ bit_length m' <= 2 * bit_length nh ->
     exists q r, div_returns m' nh q r /\ q * nh + r = m') ->
  div_returns m n (m / n) (m mod n).
Proof.
  intros Hn Hbig HM. cbv zeta.
  destruct (bit_length_pos_bounds n Hn) as [K1 Bn].
  set (k := bit_length n) in *.
  set (kf := k / 2). set (kc := k - kf).
  unfold DIVMOD_BAILOUT_BITS in Hbig.
  assert (Hdiv : k = 2 * kf + k mod 2) by (apply Z.div_mod; lia).
  assert (Hmod : 0 <= k mod 2 < 2) by (apply Z.mod_pos_bound; lia).
  assert (Hkf : 1 <= kf /\ kf < k /\ 1 <= kc /\ k <= 2 * kc /\ kc < k)
    by (unfold kc; lia).
  set (nh := n / 2 ^ kf). intros Hrec.
  assert (PP : 0 < 2 ^ kf) by (apply Z.pow_pos_nonneg; lia).
  assert (PQ : 0 < 2 ^ kc) by (apply Z.pow_pos_nonneg; lia).
  assert (Ek : 2 ^ k = 2 ^ kc * 2 ^ kf).
  { rewrite <- Z.pow_add_r by lia. f_equal. unfold kc. lia. }
  destruct (bit_length_div_pow2 n kf Hn ltac:(fold k; lia)) as [Hnh Lnh].
  fold nh in Hnh, Lnh. fold k in Lnh.
  (* the slices of m and n *)
  set (mh := m / 2 ^ k). set (mrest := m mod 2 ^ k).
  set (mm := mrest / 2 ^ kc). set (ml := mrest mod 2 ^ kc).
  set (nl := n mod 2 ^ kf).
  assert (Dm : m = 2 ^ k * mh + mrest) by (apply Z.div_mod; lia).
  assert (Bmr : 0 <= mrest < 2 ^ k) by (apply Z.mod_pos_bound; lia).
  assert (Dmr : mrest = 2 ^ kc * mm + ml) by (apply Z.div_mod; lia).
  assert (Bml : 0 <= ml < 2 ^ kc) by (apply Z.mod_pos_bound; lia).
  assert (Bmm : 0 <= mm < 2 ^ kf).
  { split; [apply Z.div_pos; lia|]. apply Z.div_lt_upper_bound; lia. }
  assert (Dn : n = 2 ^ kf * nh + nl) by (apply Z.div_mod; lia).
  (* first recursive call *)
  destruct (Hrec mh) as (q1 & r1 & (D1 & I1 & R1) & E1).
  { destruct (Z_lt_ge_dec m 0) as [Neg|Pos].
    - left. apply div_pow2_neg; lia.
    - right. assert (m <> 0)
        by (intros E0; rewrite E0 in HM; change (bit_length 0) with 0 in HM; lia).
      destruct (bit_length_div_pow2 m k ltac:(lia) ltac:(lia)) as [_ L].
      fold mh in L. lia. }
  set (r1' := Z.lor (Z.shiftl r1 kf) mm - nl * q1).
  assert (Er1 : q1 * n + r1' = 2 ^ kf * mh + mm).
  { unfold r1'. rewrite lor_shiftl_low by lia. rewrite Dn, <- E1. ring. }
  destruct (while_neg_returns LoopE_r1_neg n q1 r1' Hn) as [I2 R2].
  set (p1 := if r1' <? 0 then (q1 + r1' / n, r1' mod n) else (q1, r1')) in R2.
  assert (Ep1 : fst p1 * n + snd p1 = q1 * n + r1' /\ 0 <= snd p1).
  { pose proof (Z.div_mod r1' n ltac:(lia)). pose proof (Z.mod_pos_bound r1' n Hn).
    unfold p1. destruct (Z.ltb_spec r1' 0); simpl; split; nia. }
  destruct p1 as [q1a r1a]. simpl in Ep1. destruct Ep1 as [Ep1 Pr1a].
  destruct (while_len_returns LoopE_r1_len k n q1a r1a K1 Bn Pr1a)
    as (I3 & q1b & r1b & R3 & E3 & L3).
  (* second recursive call *)
  destruct (Hrec r1b) as (q2 & r2 & (D2 & I4 & R4) & E2); [right; lia|].
  set (q2' := if negb (Z.land k 1 =? 0) then Z.shiftl q2 1 else q2).
  set (r2' := Z.lor (Z.shiftl r2 kc) ml - nl * q2').
  assert (Er2 : q2' * n + r2' = 2 ^ kc * r1b + ml).
  { unfold r2'. rewrite lor_shiftl_low by lia.
    unfold q2'. rewrite land_1_mod2.
    destruct (Z.eqb_spec (k mod 2) 0) as [Ev|Od]; cbv beta iota delta [negb].
    - assert (kc = kf) by (unfold kc; lia).
      replace (2 ^ kc) with (2 ^ kf) by congruence.
      rewrite Dn at 1. rewrite <- E2. ring.
    - assert (kc = kf + 1) by (unfold kc; lia).
      replace (2 ^ kc) with (2 * 2 ^ kf)
        by (replace kc with (Z.succ kf) by lia; rewrite Z.pow_succ_r by lia; reflexivity).
      rewrite Z.shiftl_mul_pow2 by lia. rewrite Dn at 1. rewrite <- E2. ring. }
  destruct (correction_returns LoopE_r2_neg LoopE_r2_ge n q2' r2' Hn)
    as (I5 & qa & ra & R5).
  rewrite Er2 in R5. set (T2 := 2 ^ kc * r1b + ml) in *.
  assert (Efin : (Z.shiftl q1b kc + T2 / n, T2 mod n) = (m / n, m mod n)).
  { pose proof (Z.div_mod T2 n ltac:(lia)) as DT.
    pose proof (Z.mod_pos_bound T2 n Hn).
    apply divmod_unique; [lia| |lia].
    rewrite Z.shiftl_mul_pow2 by lia.
    transitivity (2 ^ kc * (q1b * n + r1b) + ml).
    { replace ((q1b * 2 ^ kc + T2 / n) * n + T2 mod n)
        with (q1b * 2 ^ kc * n + (n * (T2 / n) + T2 mod n)) by ring.
      rewrite <- DT. unfold T2. ring. }
    rewrite E3, Ep1, Er1, Dm, Dmr, Ek. ring. }
  exists (S (Nat.max D1 D2)), (Nat.max I1 (Nat.max I2 (Nat.max I3 (Nat.max I4 I5)))).
  intros d i Hd Hi. destruct d as [|d]; [lia|].
  rewrite kernel_unfold_S, step_e by (unfold DIVMOD_BAILOUT_BITS; fold k; lia).
  cbv zeta. fold k. fold kf. fold kc.
  rewrite !splitHiLo_fst, !splitHiLo_snd by lia.
  fold mh mrest. fold mm ml. fold nh nl.
  rewrite R1 by lia. unfold bind at 1. fold r1'.
  rewrite R2 by lia. unfold bind at 1.
  rewrite R3 by lia. unfold bind at 1.
  rewrite R4 by lia. unfold bind at 1. fold q2'. fold r2'.
  destruct (R5 i ltac:(lia)) as [Ra Rb].
  rewrite Ra. unfold bind at 1. rewrite Rb. unfold bind.
  rewrite Efin. reflexivity.
Qed.

Lemma longdiv_loop_exit div i k n st :
  ld_r st <= n -> longdiv_loop div i k n st = Ok st.
Proof.
  intros H. destruct i; simpl; rewrite Z.gtb_ltb;
    rewrite (proj2 (Z.ltb_ge n (ld_r st))) by lia; reflexivity.
Qed.

(** The kernel returns whenever the dividend is negative or has at most
    twice the bits of the divisor; the result satisfies the division
    equation, and is the floor quotient and remainder for [0 <= m]. *)
Lemma kernel_short_returns :
  forall (K : nat) (n m : Z),
    0 < n -> bit_length n <= Z.of_nat K ->
    m < 0 \/ bit_length m <= 2 * bit_length n ->
    exists q r, div_returns m n q r /\ q * n + r = m /\ (0 <= m -> 0 <= r < n).
Proof.
  induction K as [|K IH]; intros n m Hn HK Hm;
    destruct (bit_length_pos_bounds n Hn) as [K1 Bn]; [lia|].
  pose proof (Z.div_mod m n ltac:(lia)) as Dm.
  pose proof (Z.mod_pos_bound m n Hn) as Bm.
  destruct (Z_lt_ge_dec (bit_length n) DIVMOD_BAILOUT_BITS) as [Hsmall|Hbig].
  { (* bailout *)
    exists (m / n), (m mod n). split; [|split; [lia|lia]].
    exists 1%nat, 0%nat. intros d i Hd _. destruct d as [|d]; [lia|].
    rewrite kernel_unfold_S, step_bailout by assumption.
    unfold divmod. rewrite (proj2 (Z.eqb_neq n 0)) by lia. reflexivity. }
  apply Z.ge_le in Hbig.
  destruct (Z_lt_ge_dec (bit_length m) (bit_length n)) as [Hb|Hb].
  { (* M < K *)
    exists 0, m. split; [|split; [lia|]].
    - exists 1%nat, 0%nat. intros d i Hd _. destruct d as [|d]; [lia|].
      rewrite kernel_unfold_S, step_b by assumption. reflexivity.
    - intros Hm0.
      assert (bit_length m <= bit_length n - 1) as L by lia.
      apply bit_length_le_iff in L; lia. }
  destruct (Z.eq_dec (bit_length m) (bit_length n)) as [Hc|Hc].
  { (* M == K *)
    destruct (while_ge_returns LoopEqualLen n 0 m Hn) as [I R].
    set (p := if m >=? n then (0 + m / n, m mod n) else (0, m)) in R.
    exists (fst p), (snd p). split; [|split].
    - exists 1%nat, I. intros d i Hd Hi. destruct d as [|d]; [lia|].
      rewrite kernel_unfold_S, step_c by assumption. rewrite R by lia.
      destruct p; reflexivity.
    - unfold p. destruct (Z.geb_spec m n); simpl; lia.
    - unfold p. destruct (Z.geb_spec m n); simpl; lia. }
  destruct (Z_lt_ge_dec (bit_length m) (2 * bit_length n)) as [Hd|Hd].
  { (* K < M < 2K *)
    exists (m / n), (m mod n). split; [|split; [lia|lia]].
    apply branch_d_returns; [assumption|assumption|lia|]. cbv zeta.
    set (e := bit_length n - (bit_length m - bit_length n)).
    assert (He : 1 <= e < bit_length n) by (unfold e; lia).
    destruct (bit_length_div_pow2 n e Hn ltac:(lia)) as [Hnh Lnh].
    destruct (IH (n / 2 ^ e) (m / 2 ^ e) Hnh ltac:(lia)) as (q1 & r1 & R1 & E1 & _).
    { destruct (Z_lt_ge_dec m 0) as [Neg|Pos].
      - left. apply div_pow2_neg; lia.
      - right. assert (m <> 0)
          by (intros E0; rewrite E0 in Hd, Hb; change (bit_length 0) with 0 in *; lia).
        destruct (bit_length_div_pow2 m e ltac:(lia) ltac:(lia)) as [_ L].
        rewrite L, Lnh. unfold e. lia. }
    exists q1, r1. split; assumption. }
  destruct (Z.eq_dec (bit_length m) (2 * bit_length n)) as [He|He].
  { (* M == 2K *)
    exists (m / n), (m mod n). split; [|split; [lia|lia]].
    apply branch_e_returns; [assumption|assumption|assumption|]. cbv zeta.
    assert (Hdiv : bit_length n = 2 * (bit_length n / 2) + bit_length n mod 2)
      by (apply Z.div_mod; lia).
    assert (Hmod : 0 <= bit_length n mod 2 < 2) by (apply Z.mod_pos_bound; lia).
    unfold DIVMOD_BAILOUT_BITS in Hbig.
    destruct (bit_length_div_pow2 n (bit_length n / 2) Hn ltac:(lia)) as [Hnh Lnh].
    intros m' Hm'.
    destruct (IH (n / 2 ^ (bit_length n / 2)) m' Hnh ltac:(lia) Hm')
      as (q1 & r1 & R1 & E1 & _).
    exists q1, r1. split; assumption. }
  (* M > 2K: only reached here with a negative dividend *)
  assert (Neg : m < 0) by lia.
  exists 0, m. split; [|split; [lia|lia]].
  exists 1%nat, 0%nat. intros d i Hd' _. destruct d as [|d]; [lia|].
  rewrite kernel_unfold_S, step_f by lia.
  rewrite longdiv_loop_exit by (simpl; lia). unfold bind. simpl ld_q. simpl ld_r.
  rewrite Z.shiftl_0_l. reflexivity.
Qed.

Lemma longdiv_loop_step div j k n q r rem :
  n < r ->
  longdiv_loop div (S j) k n (mkLD q r rem) =
    let new := Z.max (bit_length r - 2 * k) 0 in
    q0 <- py_lshift q (rem - new) ;;
    '(qi, ri) <- div (fst (_splitHiLo r new)) n ;;
    longdiv_loop div j k n
      (mkLD (q0 + qi) (Z.lor (Z.shiftl ri new) (snd (_splitHiLo r new))) new).
Proof.
  intros H. cbn [longdiv_loop ld_q ld_r ld_remainingBits].
  rewrite Z.gtb_ltb, (proj2 (Z.ltb_lt n r)) by lia. reflexivity.
Qed.

(** The long-division loop of the branch M > 2K: it returns, with
    [0 <= r <= n] and the quotient still to be shifted by [remainingBits]. *)
Lemma longdiv_loop_returns n :
  0 < n ->
  forall (c : nat) (q r rem : Z),
    0 <= r -> 0 <= rem -> bit_length r - 2 * bit_length n <= rem ->
    bit_length r <= Z.of_nat c ->
    exists D I q' r' rem',
      (forall d i j, (D <= d)%nat -> (I <= i)%nat -> (I <= j)%nat ->
         longdiv_loop (_divModPositiveArgs d i) j (bit_length n) n (mkLD q r rem)
         = Ok (mkLD q' r' rem')) /\
      0 <= rem' /\ 0 <= r' <= n /\
      q' * 2 ^ rem' * n + r' = q * 2 ^ rem * n + r.
Proof.
  intros Hn. destruct (bit_length_pos_bounds n Hn) as [K1 Bn].
  set (k := bit_length n) in *.
  assert (Exit : forall q r rem, 0 <= r <= n -> 0 <= rem ->
    exists D I q' r' rem',
      (forall d i j, (D <= d)%nat -> (I <= i)%nat -> (I <= j)%nat ->
         longdiv_loop (_divModPositiveArgs d i) j k n (mkLD q r rem)
         = Ok (mkLD q' r' rem')) /\
      0 <= rem' /\ 0 <= r' <= n /\
      q' * 2 ^ rem' * n + r' = q * 2 ^ rem * n + r).
  { intros q r rem Hr Hrem. exists 0%nat, 0%nat, q, r, rem.
    split; [|split; [lia|split; [lia|reflexivity]]].
    intros d i j _ _ _. apply longdiv_loop_exit. simpl. lia. }
  induction c as [|c IH]; intros q r rem Hr Hrem Hinv Hc.
  { apply Exit; [|lia]. assert (bit_length r <= 0) as L by lia.
    apply bit_length_le_iff in L; lia. }
  destruct (Z_le_gt_dec r n) as [Hle|Hgt]; [apply Exit; lia|].
  set (new := Z.max (bit_length r - 2 * k) 0).
  assert (Hnew : 0 <= new <= rem) by (unfold new; lia).
  assert (PN : 0 < 2 ^ new) by (apply Z.pow_pos_nonneg; lia).
  pose proof (Z.div_mod r (2 ^ new) ltac:(lia)) as Dr.
  pose proof (Z.mod_pos_bound r (2 ^ new) PN) as Br.
  set (rh := r / 2 ^ new) in *. set (rl := r mod 2 ^ new) in *.
  assert (Hrh : 0 <= rh) by (apply Z.div_pos; lia).
  assert (Lrh : bit_length rh <= 2 * k).
  { destruct (Z_le_gt_dec (bit_length r - 2 * k) 0) as [Z0|Z1].
    - assert (new = 0) as E0 by (unfold new; lia).
      unfold rh. rewrite E0. rewrite Z.pow_0_r, Z.div_1_r. lia.
    - assert (new = bit_length r - 2 * k) as E0 by (unfold new; lia).
      destruct (bit_length_div_pow2 r new ltac:(lia) ltac:(lia)) as [_ L].
      fold rh in L. lia. }
  destruct (kernel_short_returns (Z.to_nat k) n rh Hn ltac:(fold k; lia)
              ltac:(right; fold k; lia))
    as (qi & ri & (D1 & I1 & R1) & E1 & B1).
  specialize (B1 Hrh).
  set (r2 := Z.lor (Z.shiftl ri new) rl).
  assert (Er2 : r2 = ri * 2 ^ new + rl) by (apply lor_shiftl_low; lia).
  set (q2 := Z.shiftl q (rem - new) + qi).
  assert (Einv : q2 * 2 ^ new * n + r2 = q * 2 ^ rem * n + r).
  { unfold q2. rewrite Z.shiftl_mul_pow2 by lia. rewrite Er2, Dr, <- E1.
    replace (2 ^ rem) with (2 ^ (rem - new) * 2 ^ new)
      by (rewrite <- Z.pow_add_r by lia; f_equal; lia).
    ring. }
  assert (Hr2 : 0 <= r2 < n * 2 ^ new) by (rewrite Er2; nia).
  assert (Next : exists D I q' r' rem',
      (forall d i j, (D <= d)%nat -> (I <= i)%nat -> (I <= j)%nat ->
         longdiv_loop (_divModPositiveArgs d i) j k n (mkLD q2 r2 new)
         = Ok (mkLD q' r' rem')) /\
      0 <= rem' /\ 0 <= r' <= n /\
      q' * 2 ^ rem' * n + r' = q2 * 2 ^ new * n + r2).
  { destruct (Z_le_gt_dec (bit_length r - 2 * k) 0) as [Z0|Z1].
    - assert (new = 0) as E0 by (unfold new; lia).
      apply Exit; [|lia]. rewrite E0, Z.pow_0_r in Hr2. lia.
    - assert (new = bit_length r - 2 * k) as E0 by (unfold new; lia).
      assert (L2 : bit_length r2 <= k + new).
      { apply bit_length_le_iff; [lia|]. rewrite Z.abs_eq by lia.
        rewrite Z.pow_add_r by lia. nia. }
      apply IH; lia. }
  destruct Next as (D2 & I2 & q' & r' & rem' & R2 & P1 & P2 & P3).
  exists (Nat.max D1 D2), (S (Nat.max I1 I2)), q', r', rem'.
  split; [|split; [lia|split; [lia|lia]]].
  intros d i j Hd Hi Hj. destruct j as [|j]; [lia|].
  rewrite longdiv_loop_step by lia. cbv zeta. fold new.
  unfold py_lshift. rewrite (proj2 (Z.ltb_ge (rem - new) 0)) by lia.
  unfold bind at 1.
  rewrite splitHiLo_fst, splitHiLo_snd by lia. fold rh rl.
  rewrite R1 by lia. unfold bind at 1. fold r2. fold q2.
  apply R2; lia.
Qed.

(** The kernel returns on every dividend and positive divisor. *)
Lemma kernel_returns m n :
  0 < n ->
  exists q r, div_returns m n q r /\ q * n + r = m /\
    (0 <= m -> 0 <= r <= n) /\
    (0 <= m -> bit_length m <= 2 * bit_length n -> r < n).
Proof.
  intros Hn.
  destruct (Z_lt_ge_dec m 0) as [Neg|Pos].
  { destruct (kernel_short_returns (Z.to_nat (bit_length n)) n m Hn)
      as (q & r & R & E & B); [pose proof (bit_length_nonneg n); lia|left; lia|].
    exists q, r. repeat split; try assumption; lia. }
  destruct (Z_le_gt_dec (bit_length m) (2 * bit_length n)) as [Short|Long].
  { destruct (kernel_short_returns (Z.to_nat (bit_length n)) n m Hn)
      as (q & r & R & E & B); [pose proof (bit_length_nonneg n); lia|right; lia|].
    exists q, r. repeat split; try assumption; lia. }
  pose proof (Z.div_mod m n ltac:(lia)) as Dm.
  pose proof (Z.mod_pos_bound m n Hn) as Bm.
  destruct (Z_lt_ge_dec (bit_length n) DIVMOD_BAILOUT_BITS) as [Hsmall|Hbig].
  { exists (m / n), (m mod n). split; [|repeat split; lia].
    exists 1%nat, 0%nat. intros d i Hd _. destruct d as [|d]; [lia|].
    rewrite kernel_unfold_S, step_bailout by assumption.
    unfold divmod. rewrite (proj2 (Z.eqb_neq n 0)) by lia. reflexivity. }
  apply Z.ge_le in Hbig.
  destruct (longdiv_loop_returns n Hn (Z.to_nat (bit_length m)) 0 m
              (bit_length m - 2 * bit_length n))
    as (D & I & q' & r' & rem' & R & P1 & P2 & P3); try lia.
  exists (Z.shiftl q' rem'), r'. rewrite Z.shiftl_mul_pow2 by lia.
  split; [|repeat split; lia].
  exists (S D), I. intros d i Hd Hi. destruct d as [|d]; [lia|].
  rewrite kernel_unfold_S, step_f by lia.
  rewrite R by lia. unfold bind. cbn [ld_q ld_r ld_remainingBits].
  rewrite Z.shiftl_mul_pow2 by lia. reflexivity.
Qed.

(** ** The square root *)

Lemma lor_shiftl_1 a : Z.lor (Z.shiftl a 1) 1 = 2 * a + 1.
Proof. rewrite lor_shiftl_low by lia. change (2 ^ 1) with 2. ring. Qed.

Lemma sqrt_small_loop_returns n :
  forall (c : nat) (s : Z),
    0 <= s -> s * s <= n -> n - s <= Z.of_nat c ->
    exists t, (forall i, (c <= i)%nat -> sqrt_small_loop i n s = Ok t) /\
              is_floor_sqrt n t.
Proof.
  unfold is_floor_sqrt.
  induction c as [|c IH]; intros s Hs Hsq Hc.
  - exists s. split; [|nia]. intros i _.
    destruct i; simpl; rewrite (proj2 (Z.leb_gt _ _)) by nia; reflexivity.
  - destruct (Z_le_gt_dec ((s + 1) * (s + 1)) n) as [Hle|Hgt].
    + destruct (IH (s + 1)) as (t & R & P); try lia.
      exists t. split; [|exact P]. intros i Hi. destruct i as [|i]; [lia|].
      simpl. rewrite (proj2 (Z.leb_le _ _)) by lia. apply R. lia.
    + exists s. split; [|lia]. intros i _.
      destruct i; simpl; rewrite (proj2 (Z.leb_gt _ _)) by lia; reflexivity.
Qed.

Lemma sqrt_up_loop_returns n :
  forall (c : nat) (a : Z),
    0 <= a -> a * a <= n -> n - a <= Z.of_nat c ->
    exists t, (forall i, (c <= i)%nat ->
                 sqrt_up_loop i n a ((a + 1) * (a + 1)) = Ok t) /\
              is_floor_sqrt n t.
Proof.
  unfold is_floor_sqrt.
  induction c as [|c IH]; intros a Ha Hsq Hc.
  - exists a. split; [|nia]. intros i _.
    destruct i; simpl; rewrite (proj2 (Z.leb_gt _ _)) by nia; reflexivity.
  - destruct (Z_le_gt_dec ((a + 1) * (a + 1)) n) as [Hle|Hgt].
    + destruct (IH (a + 1)) as (t & R & P); try lia.
      exists t. split; [|exact P]. intros i Hi. destruct i as [|i]; [lia|].
      cbn [sqrt_up_loop]. rewrite (proj2 (Z.leb_le _ _)) by lia.
      rewrite lor_shiftl_1.
      replace ((a + 1) * (a + 1) + (2 * (a + 1) + 1))
        with ((a + 1 + 1) * (a + 1 + 1)) by ring.
      apply R. lia.
    + exists a. split; [|lia]. intros i _.
      destruct i; simpl; rewrite (proj2 (Z.leb_gt _ _)) by lia; reflexivity.
Qed.

Lemma sqrt_down_loop_returns n :
  0 <= n ->
  forall (c : nat) (a : Z),
    0 <= a <= Z.of_nat c -> (a + 1) * (a + 1) > n ->
    exists t, (forall i, (c <= i)%nat -> sqrt_down_loop i n a (a * a) = Ok t) /\
              is_floor_sqrt n t.
Proof.
  unfold is_floor_sqrt. intros Hn.
  induction c as [|c IH]; intros a Ha Hsq.
  - exists a. assert (a = 0) by lia. subst a. split; [|lia]. intros i _.
    destruct i; simpl; rewrite Z.gtb_ltb, (proj2 (Z.ltb_ge _ _)) by lia; reflexivity.
  - destruct (Z_le_gt_dec (a * a) n) as [Hle|Hgt].
    + exists a. split; [|lia]. intros i _.
      destruct i; simpl; rewrite Z.gtb_ltb, (proj2 (Z.ltb_ge _ _)) by lia; reflexivity.
    + destruct (IH (a - 1)) as (t & R & P); try nia.
      exists t. split; [|exact P]. intros i Hi. destruct i as [|i]; [lia|].
      cbn [sqrt_down_loop]. rewrite Z.gtb_ltb, (proj2 (Z.ltb_lt _ _)) by lia.
      rewrite lor_shiftl_1.
      replace (a * a - (2 * (a - 1) + 1)) with ((a - 1) * (a - 1)) by ring.
      apply R. lia.
Qed.

Lemma sqrt_unfold_base d i n :
  bit_length n <= 1 -> _floorSqrtPositiveInt d i n = Ok n.
Proof.
  intros H. destruct d; cbn [_floorSqrtPositiveInt];
    rewrite (proj2 (Z.leb_le _ _)) by lia; reflexivity.
Qed.

Lemma sqrt_unfold_small d i n :
  1 < bit_length n < 8 -> _floorSqrtPositiveInt d i n = sqrt_small_loop i n 1.
Proof.
  intros H. destruct d; cbn [_floorSqrtPositiveInt];
    rewrite (proj2 (Z.leb_gt _ _)), (proj2 (Z.ltb_lt _ _)) by lia; reflexivity.
Qed.

Lemma sqrt_unfold_step d i n :
  8 <= bit_length n ->
  _floorSqrtPositiveInt (S d) i n =
    (s <- _floorSqrtPositiveInt d i (Z.shiftr n (2 * (bit_length n / 4))) ;;
     '(q, _) <- _divModPositiveArgs d i n (Z.shiftl s (bit_length n / 4)) ;;
     let approx := Z.shiftr (Z.shiftl s (bit_length n / 4) + q) 1 in
     if approx * approx >? n then
       sqrt_down_loop i n (approx - 1)
         (approx * approx - Z.lor (Z.shiftl (approx - 1) 1) 1)
     else
       sqrt_up_loop i n approx (approx * approx + Z.lor (Z.shiftl approx 1) 1)).
Proof.
  intros H. cbn [_floorSqrtPositiveInt].
  rewrite (proj2 (Z.leb_gt _ _)), (proj2 (Z.ltb_ge _ _)) by lia. reflexivity.
Qed.

(** The approximation handed to the Newton step is positive. *)
Lemma sqrt_approx_positive n s :
  0 <= n -> 8 <= bit_length n ->
  is_floor_sqrt (Z.shiftr n (2 * (bit_length n / 4))) s ->
  1 <= Z.shiftl s (bit_length n / 4).
Proof.
  intros Hn H8 [S1 S2].
  assert (Hdiv : bit_length n = 4 * (bit_length n / 4) + bit_length n mod 4)
    by (apply Z.div_mod; lia).
  assert (Hmod : 0 <= bit_length n mod 4 < 4) by (apply Z.mod_pos_bound; lia).
  set (rp := bit_length n / 4) in *.
  assert (n <> 0) by (intros ->; change (bit_length 0) with 0 in H8; lia).
  destruct (bit_length_shiftr n (2 * rp) ltac:(lia) ltac:(lia)) as [Hx _].
  assert (1 <= s) by nia.
  rewrite Z.shiftl_mul_pow2 by lia.
  assert (0 < 2 ^ rp) by (apply Z.pow_pos_nonneg; lia). nia.
Qed.

Lemma floorSqrt_returns_bounded :
  forall (K : nat) (n : Z),
    0 <= n -> bit_length n <= Z.of_nat K ->
    exists s, sqrt_returns n s /\ is_floor_sqrt n s.
Proof.
  induction K as [|K IH]; intros n Hn HK.
  { exists n. split.
    - exists 0%nat, 0%nat. intros d i _ _. apply sqrt_unfold_base. lia.
    - assert (bit_length n <= 0) as L by lia.
      apply bit_length_le_iff in L; [|lia]. unfold is_floor_sqrt. lia. }
  destruct (Z_le_gt_dec (bit_length n) 1) as [H1|H1].
  { exists n. split.
    - exists 0%nat, 0%nat. intros d i _ _. apply sqrt_unfold_base. lia.
    - apply bit_length_le_iff in H1; [|lia]. change (2 ^ 1) with 2 in H1.
      unfold is_floor_sqrt. nia. }
  destruct (Z_lt_ge_dec (bit_length n) 8) as [H8|H8].
  { assert (2 <= n).
    { assert (2 <= bit_length n) as L by lia.
      apply bit_length_ge_iff in L; [|lia]. change (2 ^ (2 - 1)) with 2 in L. lia. }
    destruct (sqrt_small_loop_returns n (Z.to_nat n) 1) as (t & R & P); try lia.
    exists t. split; [|exact P].
    exists 0%nat, (Z.to_nat n). intros d i _ Hi.
    rewrite sqrt_unfold_small by lia. apply R. lia. }
  apply Z.ge_le in H8.
  assert (Hdiv : bit_length n = 4 * (bit_length n / 4) + bit_length n mod 4)
    by (apply Z.div_mod; lia).
  assert (Hmod : 0 <= bit_length n mod 4 < 4) by (apply Z.mod_pos_bound; lia).
  assert (Hn0 : n <> 0) by (intros ->; change (bit_length 0) with 0 in H8; lia).
  destruct (bit_length_shiftr n (2 * (bit_length n / 4)) ltac:(lia) ltac:(lia))
    as [Hx Lx].
  destruct (IH (Z.shiftr n (2 * (bit_length n / 4))) ltac:(lia) ltac:(lia))
    as (s & (D1 & I1 & R1) & Ps).
  pose proof (sqrt_approx_positive n s Hn H8 Ps) as Hap.
  set (rp := bit_length n / 4) in *.
  set (approx := Z.shiftl s rp) in *.
  destruct (kernel_returns n approx ltac:(lia)) as (q & r & (D2 & I2 & R2) & E & B & _).
  specialize (B Hn).
  assert (Hq : 0 <= q) by nia.
  set (a := Z.shiftr (approx + q) 1).
  assert (Ha : 0 <= a).
  { unfold a. rewrite Z.shiftr_div_pow2 by lia. apply Z.div_pos; lia. }
  destruct (Z_le_gt_dec (a * a) n) as [Hle|Hgt].
  - destruct (sqrt_up_loop_returns n (Z.to_nat n) a) as (t & R & P); try lia.
    exists t. split; [|exact P].
    exists (S (Nat.max D1 D2)), (Nat.max I1 (Nat.max I2 (Z.to_nat n))).
    intros d i Hd Hi. destruct d as [|d]; [lia|].
    rewrite sqrt_unfold_step by lia. fold rp.
    rewrite R1 by lia. unfold bind at 1. fold approx.
    rewrite R2 by lia. unfold bind. cbv zeta. fold a.
    rewrite Z.gtb_ltb, (proj2 (Z.ltb_ge _ _)) by lia.
    rewrite lor_shiftl_1.
    replace (a * a + (2 * a + 1)) with ((a + 1) * (a + 1)) by ring.
    apply R. lia.
  - destruct (sqrt_down_loop_returns n Hn (Z.to_nat a) (a - 1)) as (t & R & P);
      try nia.
    exists t. split; [|exact P].
    exists (S (Nat.max D1 D2)), (Nat.max I1 (Nat.max I2 (Z.to_nat a))).
    intros d i Hd Hi. destruct d as [|d]; [lia|].
    rewrite sqrt_unfold_step by lia. fold rp.
    rewrite R1 by lia. unfold bind at 1. fold approx.
    rewrite R2 by lia. unfold bind. cbv zeta. fold a.
    rewrite Z.gtb_ltb, (proj2 (Z.ltb_lt _ _)) by lia.
    rewrite lor_shiftl_1.
    replace (a * a - (2 * (a - 1) + 1)) with ((a - 1) * (a - 1)) by ring.
    apply R. lia.
Qed.

(** ** Larger budgets do not change a settled outcome *)

Lemma bind_settled {A B : Type} (x x' : result A) (f f' : A -> result B) :
  (settled x -> x' = x) ->
  (forall a, settled (f a) -> f' a = f a) ->
  settled (bind x f) -> bind x' f' = bind x f.
Proof.
  intros Hx Hf H. destruct x as [a|e]; simpl in *.
  - rewrite Hx by exact I. simpl. apply Hf, H.
  - rewrite Hx by exact H. reflexivity.
Qed.

Lemma while_neg_settled l n :
  forall i i' q r, (i <= i')%nat -> settled (while_neg l i n q r) ->
    while_neg l i' n q r = while_neg l i n q r.
Proof.
  induction i as [|i IH]; intros i' q r Hi H.
  - destruct i'; simpl in *; destruct (r <? 0); try reflexivity; discriminate.
  - destruct i' as [|i']; [lia|]. simpl in *.
    destruct (r <? 0); [|reflexivity]. apply IH; [lia|exact H].
Qed.

Lemma while_ge_settled l n :
  forall i i' q r, (i <= i')%nat -> settled (while_ge l i n q r) ->
    while_ge l i' n q r = while_ge l i n q r.
Proof.
  induction i as [|i IH]; intros i' q r Hi H.
  - destruct i'; simpl in *; destruct (r >=? n); try reflexivity; discriminate.
  - destruct i' as [|i']; [lia|]. simpl in *.
    destruct (r >=? n); [|reflexivity]. apply IH; [lia|exact H].
Qed.

Lemma while_len_settled l k n :
  forall i i' q r, (i <= i')%nat -> settled (while_len l i k n q r) ->
    while_len l i' k n q r = while_len l i k n q r.
Proof.
  induction i as [|i IH]; intros i' q r Hi H.
  - destruct i'; simpl in *; destruct (bit_length r >=? k);
      try reflexivity; discriminate.
  - destruct i' as [|i']; [lia|]. simpl in *.
    destruct (bit_length r >=? k); [|reflexivity]. apply IH; [lia|exact H].
Qed.

Lemma longdiv_loop_settled div div' k n :
  (forall a b, settled (div a b) -> div' a b = div a b) ->
  forall j j' st, (j <= j')%nat -> settled (longdiv_loop div j k n st) ->
    longdiv_loop div' j' k n st = longdiv_loop div j k n st.
Proof.
  intros Hdiv. induction j as [|j IH]; intros j' st Hj H.
  - destruct j'; simpl in *; destruct (ld_r st >? n); try reflexivity; discriminate.
  - destruct j' as [|j']; [lia|]. cbn [longdiv_loop] in *.
    destruct (ld_r st >? n); [|reflexivity].
    cbv zeta in *. apply bind_settled; [reflexivity| |exact H].
    intros q0 H0. destruct (_splitHiLo (ld_r st) _) as [r_hi r_lo].
    apply bind_settled; [apply Hdiv| |exact H0].
    intros [qi ri] H1. apply IH; [lia|exact H1].
Qed.

Lemma kernel_step_settled self self' i i' m n :
  (forall a b, settled (self a b) -> self' a b = self a b) ->
  (i <= i')%nat ->
  settled (kernel_step self i m n) ->
  kernel_step self' i' m n = kernel_step self i m n.
Proof.
  intros Hself Hi. unfold kernel_step. cbv zeta.
  destruct (bit_length n <? DIVMOD_BAILOUT_BITS); [reflexivity|].
  destruct (bit_length m <? bit_length n); [reflexivity|].
  destruct (bit_length m =? bit_length n); [apply while_ge_settled; exact Hi|].
  destruct (bit_length m <? 2 * bit_length n).
  { destruct (_splitHiLo m _) as [m_hi m_lo]. destruct (_splitHiLo n _) as [n_hi n_lo].
    intros H. apply bind_settled; [apply Hself| |exact H].
    intros [q r] H1. apply bind_settled; [apply while_neg_settled; exact Hi| |exact H1].
    intros [q' r'] H2. apply while_ge_settled; [exact Hi|exact H2]. }
  destruct (bit_length m =? 2 * bit_length n).
  { destruct (_splitHiLo m _) as [m_hi m_mid0].
    destruct (_splitHiLo m_mid0 _) as [m_mid m_lo].
    destruct (_splitHiLo n _) as [n_hi n_lo].
    intros H. apply bind_settled; [apply Hself| |exact H].
    intros [q1 r1] H1. apply bind_settled; [apply while_neg_settled; exact Hi| |exact H1].
    intros [q1a r1a] H2. apply bind_settled; [apply while_len_settled; exact Hi| |exact H2].
    intros [q1b r1b] H3. apply bind_settled; [apply Hself| |exact H3].
    intros [q2 r2] H4. apply bind_settled; [apply while_neg_settled; exact Hi| |exact H4].
    intros [q2a r2a] H5. apply bind_settled; [apply while_ge_settled; exact Hi| |exact H5].
    intros [q2b r2b] _. reflexivity. }
  intros H. apply bind_settled; [|intros st _; reflexivity|exact H].
  apply longdiv_loop_settled; [exact Hself|exact Hi].
Qed.

(** The kernel: raising either budget leaves a settled outcome unchanged. *)
Lemma kernel_settled :
  forall d d' i i' m n, (d <= d')%nat -> (i <= i')%nat ->
    settled (_divModPositiveArgs d i m n) ->
    _divModPositiveArgs d' i' m n = _divModPositiveArgs d i m n.
Proof.
  induction d as [|d IH]; intros d' i i' m n Hd Hi H.
  - rewrite kernel_unfold_O in *.
    destruct d' as [|d'].
    + rewrite kernel_unfold_O. apply kernel_step_settled; [|exact Hi|exact H].
      intros a b Hab. reflexivity.
    + rewrite kernel_unfold_S. apply kernel_step_settled; [|exact Hi|exact H].
      intros a b Hab. discriminate Hab.
  - destruct d' as [|d']; [lia|]. rewrite kernel_unfold_S in *.
    apply kernel_step_settled; [|exact Hi|exact H].
    intros a b Hab. apply IH; [lia|exact Hi|exact Hab].
Qed.

(** An outcome settled at some budgets is the one reached with large
    budgets. *)
Lemma kernel_settled_returns d i m n q r :
  div_returns m n q r -> settled (_divModPositiveArgs d i m n) ->
  _divModPositiveArgs d i m n = Ok (q, r).
Proof.
  intros (D & I & R) H.
  rewrite <- (kernel_settled d (Nat.max d D) i (Nat.max i I) m n) by (lia || exact H).
  apply R; lia.
Qed.

Lemma sqrt_small_loop_settled n :
  forall i i' s, (i <= i')%nat -> settled (sqrt_small_loop i n s) ->
    sqrt_small_loop i' n s = sqrt_small_loop i n s.
Proof.
  induction i as [|i IH]; intros i' s Hi H.
  - destruct i'; simpl in *; destruct ((s + 1) * (s + 1) <=? n);
      try reflexivity; discriminate.
  - destruct i' as [|i']; [lia|]. simpl in *.
    destruct ((s + 1) * (s + 1) <=? n); [|reflexivity]. apply IH; [lia|exact H].
Qed.

Lemma sqrt_down_loop_settled n :
  forall i i' a sq, (i <= i')%nat -> settled (sqrt_down_loop i n a sq) ->
    sqrt_down_loop i' n a sq = sqrt_down_loop i n a sq.
Proof.
  induction i as [|i IH]; intros i' a sq Hi H.
  - destruct i'; simpl in *; destruct (sq >? n); try reflexivity; discriminate.
  - destruct i' as [|i']; [lia|]. cbn [sqrt_down_loop] in *.
    destruct (sq >? n); [|reflexivity]. apply IH; [lia|exact H].
Qed.

Lemma sqrt_up_loop_settled n :
  forall i i' a sq, (i <= i')%nat -> settled (sqrt_up_loop i n a sq) ->
    sqrt_up_loop i' n a sq = sqrt_up_loop i n a sq.
Proof.
  induction i as [|i IH]; intros i' a sq Hi H.
  - destruct i'; simpl in *; destruct (sq <=? n); try reflexivity; discriminate.
  - destruct i' as [|i']; [lia|]. cbn [sqrt_up_loop] in *.
    destruct (sq <=? n); [|reflexivity]. apply IH; [lia|exact H].
Qed.

Lemma sqrt_settled :
  forall d d' i i' n, (d <= d')%nat -> (i <= i')%nat ->
    settled (_floorSqrtPositiveInt d i n) ->
    _floorSqrtPositiveInt d' i' n = _floorSqrtPositiveInt d i n.
Proof.
  induction d as [|d IH]; intros d' i i' n Hd Hi H.
  - destruct d'; cbn [_floorSqrtPositiveInt] in *;
      destruct (bit_length n <=? 1); try reflexivity;
      destruct (bit_length n <? 8);
      try (apply sqrt_small_loop_settled; [exact Hi|exact H]);
      try reflexivity; discriminate H.
  - destruct d' as [|d']; [lia|]. cbn [_floorSqrtPositiveInt] in *.
    destruct (bit_length n <=? 1); [reflexivity|].
    destruct (bit_length n <? 8); [apply sqrt_small_loop_settled; [exact Hi|exact H]|].
    cbv zeta in *. apply bind_settled; [apply IH; lia| |exact H].
    intros s H1. apply bind_settled; [apply kernel_settled; lia| |exact H1].
    intros [q r] H2.
    destruct (_ >? n).
    + apply sqrt_down_loop_settled; [exact Hi|exact H2].
    + apply sqrt_up_loop_settled; [exact Hi|exact H2].
Qed.

Lemma sqrt_settled_returns d i n s :
  sqrt_returns n s -> settled (_floorSqrtPositiveInt d i n) ->
  _floorSqrtPositiveInt d i n = Ok s.
Proof.
  intros (D & I & R) H.
  rewrite <- (sqrt_settled d (Nat.max d D) i (Nat.max i I) n) by (lia || exact H).
  apply R; lia.
Qed.

(** ** No path below the type checks raises TypeError *)

Lemma bind_no_type_error {A B : Type} (x : result A) (f : A -> result B) :
  no_type_error x -> (forall a, no_type_error (f a)) -> no_type_error (bind x f).
Proof.
  unfold no_type_error. intros Hx Hf. destruct x as [a|e]; simpl.
  - apply Hf.
  - intros E. apply Hx. congruence.
Qed.

Ltac nte_loop i :=
  unfold no_type_error; induction i as [|i IH]; intros; simpl;
  match goal with
  | |- context [if ?c then _ else _] => destruct c
  end; try discriminate; apply IH.

Lemma while_neg_no_type_error l n i :
  forall q r, no_type_error (while_neg l i n q r).
Proof. nte_loop i. Qed.

Lemma while_ge_no_type_error l n i :
  forall q r, no_type_error (while_ge l i n q r).
Proof. nte_loop i. Qed.

Lemma while_len_no_type_error l k n i :
  forall q r, no_type_error (while_len l i k n q r).
Proof. nte_loop i. Qed.

Lemma py_lshift_no_type_error x s : no_type_error (py_lshift x s).
Proof. unfold no_type_error, py_lshift. destruct (s <? 0); discriminate. Qed.

Lemma divmod_no_type_error m n : no_type_error (divmod m n).
Proof. unfold no_type_error, divmod. destruct (n =? 0); discriminate. Qed.

Lemma longdiv_loop_no_type_error div k n :
  (forall a b, no_type_error (div a b)) ->
  forall j st, no_type_error (longdiv_loop div j k n st).
Proof.
  intros Hdiv. induction j as [|j IH]; intros st; cbn [longdiv_loop];
    destruct (ld_r st >? n); try discriminate.
  cbv zeta. apply bind_no_type_error; [apply py_lshift_no_type_error|].
  intros q0. destruct (_splitHiLo (ld_r st) _) as [r_hi r_lo].
  apply bind_no_type_error; [apply Hdiv|]. intros [qi ri]. apply IH.
Qed.

Lemma kernel_step_no_type_error self i m n :
  (forall a b, no_type_error (self a b)) ->
  no_type_error (kernel_step self i m n).
Proof.
  intros Hself. unfold kernel_step. cbv zeta.
  destruct (bit_length n <? DIVMOD_BAILOUT_BITS); [apply divmod_no_type_error|].
  destruct (bit_length m <? bit_length n); [discriminate|].
  destruct (bit_length m =? bit_length n); [apply while_ge_no_type_error|].
  destruct (bit_length m <? 2 * bit_length n).
  { destruct (_splitHiLo m _) as [m_hi m_lo]. destruct (_splitHiLo n _) as [n_hi n_lo].
    apply bind_no_type_error; [apply Hself|]. intros [q r].
    apply bind_no_type_error; [apply while_neg_no_type_error|]. intros [q' r'].
    apply while_ge_no_type_error. }
  destruct (bit_length m =? 2 * bit_length n).
  { destruct (_splitHiLo m _) as [m_hi m_mid0].
    destruct (_splitHiLo m_mid0 _) as [m_mid m_lo].
    destruct (_splitHiLo n _) as [n_hi n_lo].
    apply bind_no_type_error; [apply Hself|]. intros [q1 r1].
    apply bind_no_type_error; [apply while_neg_no_type_error|]. intros [q1a r1a].
    apply bind_no_type_error; [apply while_len_no_type_error|]. intros [q1b r1b].
    apply bind_no_type_error; [apply Hself|]. intros [q2 r2].
    apply bind_no_type_error; [apply while_neg_no_type_error|]. intros [q2a r2a].
    apply bind_no_type_error; [apply while_ge_no_type_error|]. intros [q2b r2b].
    discriminate. }
  apply bind_no_type_error; [apply longdiv_loop_no_type_error; exact Hself|].
  intros st. discriminate.
Qed.

Lemma kernel_no_type_error :
  forall d i m n, no_type_error (_divModPositiveArgs d i m n).
Proof.
  induction d as [|d IH]; intros i m n.
  - rewrite kernel_unfold_O. apply kernel_step_no_type_error. intros; discriminate.
  - rewrite kernel_unfold_S. apply kernel_step_no_type_error. intros; apply IH.
Qed.

Lemma py_index_no_type_error l i : no_type_error (py_index l i).
Proof.
  unfold no_type_error, py_index.
  destruct ((0 <=? _) && (_ <? _)); discriminate.
Qed.

Lemma helper_no_type_error :
  forall d i n powers digitsLog2,
    no_type_error (_toBase10StringHelper d i n powers digitsLog2).
Proof.
  induction d as [|d IH]; intros i n powers k; cbn [_toBase10StringHelper];
    destruct (bit_length n <? STRINGIFY_BAILOUT_BITS);
    try (apply bind_no_type_error; [apply py_lshift_no_type_error|];
         intros; discriminate);
    try discriminate.
  apply bind_no_type_error; [apply py_index_no_type_error|]. intros p.
  apply bind_no_type_error; [apply kernel_no_type_error|]. intros [lhs rhs].
  apply bind_no_type_error; [apply IH|]. intros a.
  apply bind_no_type_error; [apply IH|]. intros b. discriminate.
Qed.

Lemma build_powers_no_type_error n :
  forall i powers, no_type_error (build_powers i n powers).
Proof.
  unfold no_type_error. induction i as [|i IH]; intros powers; cbn [build_powers];
    cbv zeta; destruct (_ <? _); try discriminate; apply IH.
Qed.

Lemma strip_leading_zeros_no_type_error chars :
  no_type_error (strip_leading_zeros chars).
Proof.
  unfold no_type_error. induction chars as [|c rest IH]; simpl; [discriminate|].
  destruct (Ascii.eqb c "0"); [|discriminate].
  destruct rest; [discriminate|exact IH].
Qed.

Lemma strBase10_positive_no_type_error d i n :
  no_type_error (strBase10_positive d i n).
Proof.
  unfold strBase10_positive.
  apply bind_no_type_error; [apply build_powers_no_type_error|]. intros powers.
  apply bind_no_type_error; [apply helper_no_type_error|]. intros chars.
  apply strip_leading_zeros_no_type_error.
Qed.

(** ** A negative dividend inside the recursion *)

Lemma bind_Ok_inv {A B : Type} (x : result A) (f : A -> result B) (y : B) :
  bind x f = Ok y -> exists a, x = Ok a /\ f a = Ok y.
Proof. destruct x as [a|e]; simpl; intros H; [eauto|discriminate]. Qed.

(** The branch M > 2K on a negative dividend: the loop [while r > n] is not
    entered and the call returns [(0, m)]. *)
Lemma kernel_negative_longdiv d i m n :
  m < 0 -> 0 < n -> DIVMOD_BAILOUT_BITS <= bit_length n ->
  2 * bit_length n < bit_length m ->
  _divModPositiveArgs d i m n = Ok (0, m).
Proof.
  intros Hm Hn Hbig HM.
  assert (E : forall self, kernel_step self i m n = Ok (0, m)).
  { intros self. rewrite step_f by assumption.
    rewrite longdiv_loop_exit by (simpl; lia). unfold bind. simpl ld_q. simpl ld_r.
    rewrite Z.shiftl_0_l. reflexivity. }
  destruct d; [rewrite kernel_unfold_O|rewrite kernel_unfold_S]; apply E.
Qed.

Lemma while_neg_exceeds l n :
  0 < n ->
  forall i q r, r + Z.of_nat i * n < 0 -> while_neg l i n q r = Err (LoopBudget l).
Proof.
  intros Hn. induction i as [|i IH]; intros q r H; simpl.
  - rewrite (proj2 (Z.ltb_lt r 0)) by lia. reflexivity.
  - rewrite (proj2 (Z.ltb_lt r 0)) by nia. apply IH. nia.
Qed.

Lemma split_rejoin num b :
  0 <= b ->
  Z.lor (Z.shiftl (fst (_splitHiLo num b)) b) (snd (_splitHiLo num b)) = num.
Proof.
  intros Hb. pose proof (splitHiLo_spec num b Hb) as H.
  destruct (_splitHiLo num b) as [hi lo]. simpl.
  rewrite lor_shiftl_low by tauto. lia.
Qed.

(** The branch K < M < 2K on a negative dividend whose high part has more
    than twice the bits of the divisor's high part: the recursive call gives
    the quotient 0, and the loop [while r < 0] needs more than [i]
    iterations whenever [m + i * n < 0]. *)
Lemma kernel_negative_dividend_budget d i m n :
  m < 0 -> 0 < n -> DIVMOD_BAILOUT_BITS <= bit_length n ->
  bit_length n < bit_length m < 2 * bit_length n ->
  (let e := bit_length n - (bit_length m - bit_length n) in
   DIVMOD_BAILOUT_BITS <= bit_length (fst (_splitHiLo n e)) /\
   2 * bit_length (fst (_splitHiLo n e)) < bit_length (fst (_splitHiLo m e))) ->
  m + Z.of_nat i * n < 0 ->
  _divModPositiveArgs (S d) i m n = Err (LoopBudget LoopD_neg).
Proof.
  intros Hm Hn Hbig HM. cbv zeta.
  set (e := bit_length n - (bit_length m - bit_length n)).
  intros [Hbig' HM'] Hi.
  assert (He : 0 <= e < bit_length n) by (unfold e; lia).
  rewrite kernel_unfold_S, step_d by assumption. cbv zeta. fold e.
  rewrite kernel_negative_longdiv; try assumption.
  - unfold bind at 1. rewrite split_rejoin by lia.
    rewrite Z.mul_0_r, Z.sub_0_r.
    rewrite while_neg_exceeds by assumption. reflexivity.
  - rewrite splitHiLo_fst by lia. apply div_pow2_neg; lia.
  - rewrite splitHiLo_fst by lia.
    destruct (bit_length_div_pow2 n e Hn He) as [Hpos _]. exact Hpos.
Qed.

Lemma pair_eqb_eq (p : Z * Z) (a b : Z) :
  (fst p =? a) && (snd p =? b) = true -> p = (a, b).
Proof.
  destruct p as [x y]. simpl. intros H. apply andb_true_iff in H.
  destruct H as [H1 H2]. apply Z.eqb_eq in H1, H2. congruence.
Qed.

Lemma while_neg_nonneg l i n q r : 0 <= r -> while_neg l i n q r = Ok (q, r).
Proof.
  intros H. destruct i; simpl; rewrite (proj2 (Z.ltb_ge r 0)) by lia; reflexivity.
Qed.

Lemma while_neg_negative l i n q r :
  r < 0 ->
  while_neg l i n q r =
    match i with
    | O => Err (LoopBudget l)
    | S j => while_neg l j n (q - 1) (r + n)
    end.
Proof.
  intros H. destruct i; simpl; rewrite (proj2 (Z.ltb_lt r 0)) by lia; reflexivity.
Qed.

Lemma while_len_short l i k n q r :
  bit_length r < k -> while_len l i k n q r = Ok (q, r).
Proof.
  intros H. destruct i; simpl;
    rewrite Z.geb_leb, (proj2 (Z.leb_gt k (bit_length r))) by lia; reflexivity.
Qed.

Lemma while_len_long l i k n q r :
  k <= bit_length r ->
  while_len l i k n q r =
    match i with
    | O => Err (LoopBudget l)
    | S j => while_len l j k n (q + 1) (r - n)
    end.
Proof.
  intros H. destruct i; simpl;
    rewrite Z.geb_leb, (proj2 (Z.leb_le k (bit_length r))) by lia; reflexivity.
Qed.

(** The values met by the call on [hang_m] and [hang_n], each checked by
    evaluation. *)
Lemma hang_facts :
  bit_length hang_n = 20002 /\ bit_length hang_m = 40004 /\
  _splitHiLo hang_m 20002 = (hang_mhi, hang_mrest) /\
  _splitHiLo hang_mrest 10001 = (hang_b, 0) /\
  _splitHiLo hang_n 10001 = (hang_nhi, hang_nhi) /\
  hang_n = 4 * hang_b * hang_b - 1 /\
  bit_length hang_mhi = 20002 /\ bit_length hang_nhi = 10001 /\
  bit_length hang_r1 = 20001 /\ bit_length hang_mrest = 20002 /\
  _splitHiLo hang_r1 1 = (- (hang_b * hang_b), 1) /\
  _splitHiLo hang_nhi 1 = (hang_b - 1, 1) /\
  bit_length (- (hang_b * hang_b)) = 20001 /\
  bit_length (hang_b - 1) = 10000.
Proof.
  repeat apply conj;
    first [ apply Z.eqb_eq; vm_compute; reflexivity
          | apply pair_eqb_eq; vm_compute; reflexivity ].
Qed.

Lemma hang_b_pos : 0 < hang_b.
Proof. apply Z.pow_pos_nonneg; [reflexivity|discriminate]. Qed.

Lemma pair_eq_inv (a b c d : Z) : (a, b) = (c, d) -> a = c /\ b = d.
Proof. intros H. injection H. auto. Qed.

Lemma Ok_eq_inv {A : Type} (a b : A) : Ok a = Ok b -> a = b.
Proof. intros H. injection H. auto. Qed.

(** The first recursive call of the branch M == 2K is an exact division. *)
Lemma hang_first_call d i q1 r1 :
  _divModPositiveArgs d i hang_mhi hang_nhi = Ok (q1, r1) ->
  (q1, r1) = (hang_b + 1, 0).
Proof.
  intros H. pose proof hang_b_pos as Hb.
  destruct hang_facts as (_ & _ & _ & _ & _ & _ & F4 & F5 & _).
  assert (Hn : 0 < hang_nhi) by (unfold hang_nhi; lia).
  assert (Hm : 0 <= hang_mhi) by (unfold hang_mhi; nia).
  destruct (kernel_returns hang_mhi hang_nhi Hn) as (q & r & R & E & B1 & B2).
  specialize (B1 Hm). specialize (B2 Hm ltac:(rewrite F4, F5; lia)).
  rewrite (kernel_settled_returns d i _ _ q r R) in H by (rewrite H; exact I).
  apply Ok_eq_inv in H. rewrite <- H.
  rewrite (divmod_unique hang_nhi q r hang_mhi Hn E ltac:(lia)).
  symmetry. apply divmod_unique; [exact Hn| |lia].
  unfold hang_mhi, hang_nhi. ring.
Qed.

(** With fewer than 2^10000 iterations allowed per loop the call on
    [hang_m] and [hang_n] does not return: the first remainder 2^20001 has
    the bit length of the divisor, [while r1.bit_length() >= k] turns it
    into 1 - 2^20001, and the recursive call on that negative dividend
    needs about 2^10000 rounds of [while r < 0]. *)
Lemma hang_call_exceeds_budget d i :
  Z.of_nat i < hang_b ->
  forall x, _divModPositiveArgs d i hang_m hang_n <> Ok x.
Proof.
  intros Hi x H. pose proof hang_b_pos as Hb.
  destruct hang_facts
    as (F1 & F2 & S1 & S2 & S3 & F3 & F4 & F5 & F6 & F7 & S4 & S5 & F8 & F9).
  assert (Hstep : forall self,
    kernel_step self i hang_m hang_n = Ok x ->
    exists q1 r1, self hang_mhi hang_nhi = Ok (q1, r1) /\
      exists q2 r2 p,
        '(q, r) <- while_neg LoopE_r1_neg i hang_n q1
                     (Z.lor (Z.shiftl r1 10001) hang_b - hang_nhi * q1) ;;
        while_len LoopE_r1_len i 20002 hang_n q r = Ok p /\
        self (snd p) hang_nhi = Ok (q2, r2)).
  { intros self Hs. rewrite step_e in Hs
      by (unfold DIVMOD_BAILOUT_BITS; rewrite ?F1, ?F2; lia).
    cbv zeta in Hs. rewrite F1 in Hs.
    change (20002 / 2) with 10001 in Hs. change (20002 - 10001) with 10001 in Hs.
    rewrite S1 in Hs. cbn [fst snd] in Hs. rewrite S2, S3 in Hs. cbn [fst snd] in Hs.
    apply bind_Ok_inv in Hs as ([q1 r1] & H1 & Hs). exists q1, r1. split; [exact H1|].
    apply bind_Ok_inv in Hs as ([q1a r1a] & H2 & Hs).
    apply bind_Ok_inv in Hs as ([q1b r1b] & H3 & Hs).
    apply bind_Ok_inv in Hs as ([q2 r2] & H4 & Hs).
    exists q2, r2, (q1b, r1b). split; [|exact H4].
    rewrite H2. exact H3. }
  assert (Hloops : forall q1 r1 p,
    (q1, r1) = (hang_b + 1, 0) ->
    '(q, r) <- while_neg LoopE_r1_neg i hang_n q1
                 (Z.lor (Z.shiftl r1 10001) hang_b - hang_nhi * q1) ;;
    while_len LoopE_r1_len i 20002 hang_n q r = Ok p ->
    snd p = hang_r1 /\ (1 <= i)%nat).
  { intros q1 r1 p E Hl. apply pair_eq_inv in E as [-> ->].
    rewrite Z.shiftl_0_l, Z.lor_0_l in Hl.
    replace (hang_b - hang_nhi * (hang_b + 1)) with hang_r1 in Hl
      by (unfold hang_r1, hang_nhi; ring).
    assert (Neg : hang_r1 < 0) by (unfold hang_r1; nia).
    rewrite while_neg_negative in Hl by exact Neg.
    destruct i as [|j]; [discriminate Hl|].
    replace (hang_r1 + hang_n) with hang_mrest in Hl
      by (rewrite F3; unfold hang_r1, hang_mrest; ring).
    rewrite while_neg_nonneg in Hl by (unfold hang_mrest; nia).
    unfold bind in Hl.
    rewrite while_len_long in Hl by (rewrite F7; lia).
    replace (hang_mrest - hang_n) with hang_r1 in Hl
      by (rewrite F3; unfold hang_r1, hang_mrest; ring).
    rewrite while_len_short in Hl by (rewrite F6; lia).
    apply Ok_eq_inv in Hl. rewrite <- Hl. split; [reflexivity|lia]. }
  destruct d as [|d1].
  { rewrite kernel_unfold_O in H. apply Hstep in H as (q1 & r1 & H1 & _).
    discriminate H1. }
  rewrite kernel_unfold_S in H. apply Hstep in H as (q1 & r1 & H1 & q2 & r2 & p & Hl & H4).
  apply hang_first_call in H1.
  destruct (Hloops q1 r1 p H1 Hl) as [Ep Hi1]. rewrite Ep in H4.
  destruct d1 as [|d2].
  { rewrite kernel_unfold_O, step_d in H4
      by (unfold DIVMOD_BAILOUT_BITS; rewrite ?F5, ?F6; lia).
    cbv zeta in H4. apply bind_Ok_inv in H4 as (a & Ha & _). discriminate Ha. }
  rewrite kernel_negative_dividend_budget in H4; [discriminate H4| | | | | | ].
  - unfold hang_r1; nia.
  - unfold hang_nhi; lia.
  - unfold DIVMOD_BAILOUT_BITS; rewrite F5; lia.
  - rewrite F5, F6; lia.
  - cbv zeta. rewrite F5, F6. change (10001 - (20001 - 10001)) with 1.
    rewrite S4, S5. cbn [fst snd]. unfold DIVMOD_BAILOUT_BITS. rewrite F8, F9. lia.
  - unfold hang_r1, hang_nhi. nia.
Qed.

(** ** The long division branch on an even divisor *)

(** The branch M > 2K with one bit beyond 2K: for an even divisor [n] and an
    odd multiple [m = (2t+1) n] the loop [while r > n] stops at [r == n], and
    the call returns [(2t, n)] where [divmod] gives [(2t + 1, 0)]. *)
Lemma longdiv_even_divisor n t :
  0 < n -> Z.even n = true -> DIVMOD_BAILOUT_BITS <= bit_length n -> 0 <= t ->
  bit_length ((2 * t + 1) * n) = 2 * bit_length n + 1 ->
  div_returns ((2 * t + 1) * n) n (2 * t) n.
Proof.
  intros Hn Hev Hbig Ht HM.
  set (m := (2 * t + 1) * n) in *.
  destruct (bit_length_pos_bounds n Hn) as [K1 Bn].
  assert (En : n = 2 * (n / 2)).
  { apply Z.even_spec in Hev. destruct Hev as [h Hh]. rewrite Hh.
    rewrite (Z.mul_comm 2 h), Z.div_mul by lia. ring. }
  set (n' := n / 2) in *.
  assert (Hm : 0 < m) by (unfold m; nia).
  assert (Em : m = 2 * ((2 * t + 1) * n') + 0) by (unfold m; rewrite En; ring).
  assert (Hhi : m / 2 = (2 * t + 1) * n').
  { symmetry. apply Z.div_unique_pos with 0; lia. }
  assert (Hlo : m mod 2 = 0).
  { symmetry. apply Z.mod_unique_pos with ((2 * t + 1) * n'); lia. }
  destruct (bit_length_div_pow2 m 1 Hm ltac:(lia)) as [Hh Lh].
  change (2 ^ 1) with 2 in Hh, Lh.
  destruct (kernel_returns (m / 2) n Hn) as (q & r & (D & I & R) & E & B1 & B2).
  specialize (B1 ltac:(lia)). specialize (B2 ltac:(lia) ltac:(lia)).
  assert (Eqr : (q, r) = (t, n')).
  { rewrite (divmod_unique n q r (m / 2) Hn E ltac:(lia)).
    symmetry. apply divmod_unique; [exact Hn| |lia]. rewrite Hhi, En. ring. }
  apply pair_eq_inv in Eqr as [-> ->].
  exists (S D), (S I). intros d i Hd Hi.
  destruct d as [|d]; [lia|]. destruct i as [|j]; [lia|].
  rewrite kernel_unfold_S, step_f by lia.
  assert (Ht0 : t <> 0).
  { intros ->. unfold m in HM. rewrite Z.mul_0_r, Z.add_0_l, Z.mul_1_l in HM. lia. }
  rewrite longdiv_loop_step by (fold m; unfold m; nia).
  cbv zeta. fold m. rewrite HM.
  replace (Z.max (2 * bit_length n + 1 - 2 * bit_length n) 0) with 1 by lia.
  replace (2 * bit_length n + 1 - 2 * bit_length n - 1) with 0 by lia.
  unfold py_lshift. change (0 <? 0) with false. cbv iota.
  rewrite splitHiLo_fst, splitHiLo_snd by lia. change (2 ^ 1) with 2.
  rewrite R by lia. cbn [bind].
  rewrite Hlo, Z.shiftl_0_l, Z.add_0_l.
  rewrite lor_shiftl_low by lia. change (2 ^ 1) with 2.
  replace (n' * 2 + 0) with n by lia.
  rewrite longdiv_loop_exit by (simpl; lia). cbn [bind].
  cbn [ld_q ld_r ld_remainingBits].
  rewrite Z.shiftl_mul_pow2 by lia. change (2 ^ 1) with 2.
  f_equal. f_equal. lia.
Qed.

(** ** Printing and reading decimal digits *)

Lemma digit_value_digit_char d :
  0 <= d < 10 -> digit_value (digit_char d) = Some d.
Proof.
  intros H.
  assert (C : d = 0 \/ d = 1 \/ d = 2 \/ d = 3 \/ d = 4 \/ d = 5 \/ d = 6 \/
              d = 7 \/ d = 8 \/ d = 9) by lia.
  repeat (destruct C as [->|C]; [reflexivity|]). subst d. reflexivity.
Qed.

Lemma string_length_app (s1 s2 : string) :
  String.length (s1 ++ s2) = (String.length s1 + String.length s2)%nat.
Proof. induction s1 as [|c s1 IH]; simpl; [reflexivity|rewrite IH; reflexivity]. Qed.

Lemma zeros_length k : String.length (zeros k) = k.
Proof. induction k as [|k IH]; simpl; [reflexivity|rewrite IH; reflexivity]. Qed.

Lemma parse_digits_app s1 s2 a :
  parse_digits (s1 ++ s2) a =
    match parse_digits s1 a with
    | Some v => parse_digits s2 v
    | None => None
    end.
Proof.
  revert a. induction s1 as [|c s1 IH]; intros a; simpl; [reflexivity|].
  destruct (digit_value c); [apply IH|reflexivity].
Qed.

Lemma parse_digits_zeros k a :
  parse_digits (zeros k) a = Some (a * 10 ^ Z.of_nat k).
Proof.
  revert a. induction k as [|k IH]; intros a.
  - simpl. f_equal. lia.
  - cbn [zeros parse_digits]. change (digit_value "0") with (Some 0). cbv iota beta.
    rewrite IH. f_equal. rewrite Nat2Z.inj_succ, Z.pow_succ_r by lia. ring.
Qed.

Lemma str_digits_S f n acc :
  str_digits (S f) n acc =
    let (q, d) := Z.div_eucl n 10 in
    if q =? 0 then String (digit_char d) acc
    else str_digits f q (String (digit_char d) acc).
Proof. reflexivity. Qed.

(** [str_digits] with enough fuel writes the decimal digits of [x] in front
    of [acc]: reading them back gives [x], and there are more than [k] of
    them when [10^k <= x]. *)
Lemma str_digits_spec :
  forall (fuel : nat) (x : Z) (acc : string),
    0 <= x < 2 ^ Z.of_nat fuel ->
    exists L : nat,
      String.length (str_digits (S fuel) x acc) = (L + String.length acc)%nat /\
      (forall a, parse_digits (str_digits (S fuel) x acc) a
                 = parse_digits acc (a * 10 ^ Z.of_nat L + x)) /\
      (forall k, 0 <= k -> 10 ^ k <= x -> k < Z.of_nat L).
Proof.
  induction fuel as [|fuel IH]; intros x acc Hx.
  - assert (x = 0) by (change (2 ^ Z.of_nat 0) with 1 in Hx; lia). subst x.
    exists 1%nat. cbn [str_digits]. change (Z.div_eucl 0 10) with (0, 0).
    cbv iota beta. change (0 =? 0) with true. cbv iota.
    split; [reflexivity|]. split.
    + intros a. cbn [parse_digits]. change (digit_value (digit_char 0)) with (Some 0).
      cbv iota beta. f_equal. change (10 ^ Z.of_nat 1) with 10. lia.
    + intros k Hk H. assert (0 < 10 ^ k) by (apply Z.pow_pos_nonneg; lia). lia.
  - rewrite (str_digits_S (S fuel)).
    pose proof (Z.div_mod x 10 ltac:(lia)) as Dx.
    pose proof (Z.mod_pos_bound x 10 ltac:(lia)) as Bx.
    assert (Ed : Z.div_eucl x 10 = (x / 10, x mod 10)).
    { unfold Z.div, Z.modulo. destruct (Z.div_eucl x 10); reflexivity. }
    rewrite Ed. cbv iota beta.
    set (q := x / 10) in *. set (dg := x mod 10) in *.
    destruct (Z.eqb_spec q 0) as [Eq|Nq].
    + exists 1%nat. split; [reflexivity|]. split.
      * intros a. cbn [parse_digits]. rewrite digit_value_digit_char by lia.
        cbv iota beta. f_equal. change (10 ^ Z.of_nat 1) with 10. lia.
      * intros k Hk H.
        destruct (Z.eq_dec k 0) as [->|Nk]; [reflexivity|].
        assert (10 ^ 1 <= 10 ^ k) by (apply Z.pow_le_mono_r; lia).
        change (10 ^ 1) with 10 in *. change (Z.of_nat 1) with 1. lia.
    + assert (Hq : 0 <= q < 2 ^ Z.of_nat fuel).
      { rewrite Nat2Z.inj_succ, Z.pow_succ_r in Hx by lia. lia. }
      destruct (IH q (String (digit_char dg) acc) Hq) as (L & HL & HP & HK).
      exists (S L). split; [|split].
      * rewrite HL. simpl. lia.
      * intros a. rewrite HP. cbn [parse_digits].
        rewrite digit_value_digit_char by lia. cbv iota beta. f_equal.
        rewrite Nat2Z.inj_succ, Z.pow_succ_r by lia. lia.
      * intros k Hk H.
        destruct (Z.eq_dec k 0) as [->|Nk]; [lia|].
        assert (k - 1 < Z.of_nat L); [|lia].
        apply HK; [lia|].
        assert (E10 : 10 ^ k = 10 * 10 ^ (k - 1)).
        { replace k with (Z.succ (k - 1)) at 1 by lia. apply Z.pow_succ_r. lia. }
        lia.
Qed.

Lemma str_nonneg_spec x :
  0 <= x ->
  (forall a, parse_digits (str x) a
             = Some (a * 10 ^ Z.of_nat (String.length (str x)) + x)) /\
  (forall k, 0 <= k -> 10 ^ k <= x -> k < Z.of_nat (String.length (str x))).
Proof.
  intros Hx. unfold str. rewrite (proj2 (Z.ltb_ge x 0)) by lia.
  assert (B : 0 <= x < 2 ^ Z.of_nat (Z.to_nat (bit_length x))).
  { pose proof (bit_length_nonneg x). rewrite Z2Nat.id by lia.
    pose proof (proj1 (bit_length_le_iff x (bit_length x) ltac:(lia)) ltac:(lia)).
    lia. }
  destruct (str_digits_spec _ x EmptyString B) as (L & HL & HP & HK).
  rewrite HL. simpl String.length. rewrite Nat.add_0_r. split.
  - intros a. rewrite HP. reflexivity.
  - exact HK.
Qed.

(** Stripping the leading zeros does not change the number read back. *)
Lemma parse_strip_leading_zeros chars v :
  chars <> EmptyString -> parse_digits chars 0 = Some v ->
  exists s, strip_leading_zeros chars = Ok s /\ parse_int s = Some v.
Proof.
  induction chars as [|c rest IH]; intros Hne Hp; [congruence|].
  cbn [strip_leading_zeros]. cbn [parse_digits] in Hp.
  destruct (digit_value c) as [dg|] eqn:Ed; [|discriminate].
  assert (Hdash : c <> "-"%char) by (intros ->; discriminate Ed).
  assert (Hint : parse_int (String c rest) = parse_digits (String c rest) 0).
  { unfold parse_int. destruct c as [[] [] [] [] [] [] [] []]; try reflexivity.
    exfalso. apply Hdash. reflexivity. }
  destruct (Ascii.eqb_spec c "0") as [->|Nz].
  - change (digit_value "0") with (Some 0) in Ed. injection Ed as <-.
    change (10 * 0 + 0) with 0 in Hp.
    destruct rest as [|c2 rest2].
    + exists "0"%string. split; [reflexivity|]. simpl in Hp. exact Hp.
    + apply IH; [discriminate|exact Hp].
  - exists (String c rest). split; [reflexivity|].
    rewrite Hint. cbn [parse_digits]. rewrite Ed. exact Hp.
Qed.

(** ** Bit lengths of the powers of ten *)

Lemma scaled_between_mul x y a a' c c' ex ey :
  0 <= ex -> 0 <= ey -> 0 <= a -> 0 <= c ->
  scaled_between x a a' ex -> scaled_between y c c' ey ->
  scaled_between (x * y) (a * c) (a' * c') (ex + ey).
Proof.
  unfold scaled_between. intros Hex Hey Ha Hc [Hx1 Hx2] [Hy1 Hy2].
  rewrite Z.pow_add_r by assumption.
  assert (0 < 2 ^ ex) by (apply Z.pow_pos_nonneg; lia).
  assert (0 < 2 ^ ey) by (apply Z.pow_pos_nonneg; lia).
  set (P := 2 ^ ex) in *. set (Q := 2 ^ ey) in *.
  split.
  - replace (a * c * (P * Q)) with ((a * P) * (c * Q)) by ring.
    apply Z.mul_le_mono_nonneg; nia.
  - replace (a' * c' * (P * Q)) with ((a' * P) * (c' * Q)) by ring.
    apply Z.mul_lt_mono_nonneg; nia.
Qed.

Lemma scaled_between_bit_length z lo hi e k :
  0 <= e -> 0 <= k -> 2 ^ k <= lo -> hi <= 2 ^ (k + 1) ->
  scaled_between z lo hi e -> bit_length z = k + 1 + e.
Proof.
  unfold scaled_between. intros He Hk Hlo Hhi [H1 H2].
  assert (0 < 2 ^ e) by (apply Z.pow_pos_nonneg; lia).
  assert (0 < 2 ^ k) by (apply Z.pow_pos_nonneg; lia).
  assert (L : 2 ^ (k + e) <= z) by (rewrite Z.pow_add_r by lia; nia).
  assert (U : z < 2 ^ (k + 1 + e)) by (rewrite Z.pow_add_r by lia; nia).
  assert (0 < 2 ^ (k + e)) by (apply Z.pow_pos_nonneg; lia).
  assert (A : bit_length z <= k + 1 + e) by (apply bit_length_le_iff; lia).
  assert (B : k + 1 + e <= bit_length z).
  { apply bit_length_ge_iff; [lia|]. replace (k + 1 + e - 1) with (k + e) by lia. lia. }
  lia.
Qed.

Lemma pow_chain_spec k :
  forall p, pow_chain k p =
    (map (fun j => bit_length (Nat.iter j (fun q => q * q) p)) (seq 0 (S k)),
     Nat.iter k (fun q => q * q) p).
Proof.
  induction k as [|k IH]; intros p; [reflexivity|].
  cbn [pow_chain]. rewrite IH.
  change (seq 0 (S (S k))) with (0%nat :: seq 1 (S k)).
  rewrite <- seq_shift. cbn [map]. rewrite map_map. cbn [Nat.iter]. f_equal.
  - f_equal. apply map_ext. intros j. rewrite Nat.iter_succ_r. reflexivity.
  - rewrite Nat.iter_succ_r. reflexivity.
Qed.

Lemma Zlist_eqb_eq a : forall b, Zlist_eqb a b = true -> a = b.
Proof.
  induction a as [|x a IH]; intros [|y b] H; simpl in H; try discriminate;
    [reflexivity|].
  apply andb_true_iff in H as [H1 H2]. apply Z.eqb_eq in H1. apply IH in H2.
  congruence.
Qed.

Lemma c3_chain_facts :
  map (fun j => bit_length (ten_pow2 j)) (seq 0 13)
    = [4; 7; 14; 27; 54; 107; 213; 426; 851; 1701; 3402; 6804; 13607] /\
  scaled_between (ten_pow2 12) c3_b (c3_b + 1) 13567 /\
  Z.even (ten_pow2 12) = true.
Proof.
  assert (H : (let '(l, p) := pow_chain 12 10 in
               Zlist_eqb l [4; 7; 14; 27; 54; 107; 213; 426; 851; 1701; 3402; 6804; 13607]
               && ((c3_b * 2 ^ 13567 <=? p) && (p <? (c3_b + 1) * 2 ^ 13567))
               && Z.even p) = true) by (vm_compute; reflexivity).
  rewrite pow_chain_spec in H. fold ten_pow2 in H.
  change (Nat.iter 12 (fun q => q * q) 10) with (ten_pow2 12) in H.
  apply andb_true_iff in H as [H H3]. apply andb_true_iff in H as [H1 H2].
  apply andb_true_iff in H2 as [H2a H2b].
  split; [|split; [|exact H3]].
  - apply Zlist_eqb_eq in H1. exact H1.
  - split; [apply Z.leb_le; exact H2a|apply Z.ltb_lt; exact H2b].
Qed.

(** * The claims *)

(** ** Reachability of the debug print *)

(** C8: in the branch K < M < 2K the high part [n_hi] of a positive divisor
    keeps the top set bit of [n], so it is at least 1 and the [print] guarded
    by [n_hi == 0] is never reached. *)
Theorem C8_print_guard_never_holds (m n : Z) :
  0 < n ->
  bit_length n < bit_length m < 2 * bit_length n ->
  1 <= d_branch_n_hi m n /\ (d_branch_n_hi m n =? 0) = false.
Proof.
  intros Hn HM. unfold d_branch_n_hi. cbv zeta.
  set (e := bit_length n - (bit_length m - bit_length n)).
  assert (He : 0 <= e < bit_length n) by (unfold e; lia).
  rewrite splitHiLo_fst by lia.
  destruct (bit_length_div_pow2 n e Hn He) as [Hpos _].
  split; [lia|]. apply Z.eqb_neq. lia.
Qed.

Lemma C8_print_guard_witness :
  (0 < 5 /\ bit_length 5 < bit_length 12 < 2 * bit_length 5) /\
  1 <= d_branch_n_hi 12 5 /\ (d_branch_n_hi 12 5 =? 0) = false.
Proof.
  assert (H1 : 0 < 5) by lia.
  assert (H2 : bit_length 5 < bit_length 12 < 2 * bit_length 5)
    by (vm_compute; split; reflexivity).
  split; [split; assumption|].
  apply (C8_print_guard_never_holds 12 5 H1 H2).
Defined.

(** ** Booleans at the entry points *)

(** C9: a bool passes [isinstance(_, int)], so no entry point raises
    TypeError on bools; [fastBigIntDivMod(True, True)] is [(1, 0)],
    [fastBigIntStrBase10(False)] is ["0"], and [fastBigIntFloorSqrt(True)]
    hands back its argument [True], which equals 1. *)
Theorem C9_bools_are_accepted :
  (forall d i a b, fastBigIntDivMod d i (VBool a) (VBool b) <> Err TypeError) /\
  (forall d i b, fastBigIntStrBase10 d i (VBool b) <> Err TypeError) /\
  (forall d i b, fastBigIntFloorSqrt d i (VBool b) <> Err TypeError) /\
  (forall d i, fastBigIntDivMod d i (VBool true) (VBool true) = Ok (1, 0)) /\
  (forall d i, fastBigIntStrBase10 d i (VBool false) = Ok "0"%string) /\
  (forall d i, fastBigIntFloorSqrt d i (VBool true) = Ok (VBool true)) /\
  py_eq (VBool true) (VInt 1) = true.
Proof.
  split; [|split; [|split; [|split; [|split; [|split]]]]].
  - intros d i a b. unfold fastBigIntDivMod. cbn [isinstance_int negb orb].
    apply bind_no_type_error; [apply kernel_no_type_error|].
    intros [q r]. unfold no_type_error.
    repeat match goal with |- context [if ?c then _ else _] => destruct c end;
      discriminate.
  - intros d i b. unfold fastBigIntStrBase10. cbn [isinstance_int negb].
    destruct b; cbn [int_of]; simpl Z.eqb; cbv iota; [|discriminate].
    simpl Z.ltb. cbv iota. apply strBase10_positive_no_type_error.
  - intros d i b. destruct b; destruct d; discriminate.
  - intros d i. destruct d; reflexivity.
  - intros d i. reflexivity.
  - intros d i. destruct d; reflexivity.
  - reflexivity.
Qed.

(** ** Failures of the entry points *)

Lemma kernel_bailout d i m n :
  bit_length n < DIVMOD_BAILOUT_BITS -> _divModPositiveArgs d i m n = divmod m n.
Proof.
  intros H. destruct d;
    [rewrite kernel_unfold_O|rewrite kernel_unfold_S]; apply step_bailout; exact H.
Qed.

Lemma fastBigIntDivMod_type_error d i m n :
  fastBigIntDivMod d i m n = Err TypeError <->
  isinstance_int m = false \/ isinstance_int n = false.
Proof.
  unfold fastBigIntDivMod.
  destruct (isinstance_int m), (isinstance_int n); cbn [negb orb];
    try (split; [intros _; auto|reflexivity]).
  split; [|intros [H|H]; discriminate].
  intros H. exfalso. revert H.
  apply bind_no_type_error; [apply kernel_no_type_error|].
  intros [q r]. unfold no_type_error.
  repeat match goal with |- context [if ?c then _ else _] => destruct c end;
    discriminate.
Qed.

(** C6: [fastBigIntDivMod] raises TypeError exactly when an argument is not
    an int; on ints with [n == 0] the kernel takes the bailout branch and the
    ZeroDivisionError of the builtin [divmod] comes out, so no pair is
    returned. *)
Theorem C6_divmod_type_and_zero_errors :
  (forall d i m n,
     fastBigIntDivMod d i m n = Err TypeError <->
     isinstance_int m = false \/ isinstance_int n = false) /\
  (forall d i m n,
     isinstance_int m = true -> isinstance_int n = true -> int_of n = 0 ->
     _divModPositiveArgs d i (Z.abs (int_of m)) (Z.abs (int_of n))
       = divmod (Z.abs (int_of m)) 0 /\
     divmod (Z.abs (int_of m)) 0 = Err ZeroDivisionError /\
     fastBigIntDivMod d i m n = Err ZeroDivisionError).
Proof.
  split; [exact fastBigIntDivMod_type_error|].
  intros d i m n Hm Hn H0.
  assert (K : _divModPositiveArgs d i (Z.abs (int_of m)) (Z.abs (int_of n))
              = divmod (Z.abs (int_of m)) 0).
  { rewrite H0. apply kernel_bailout. reflexivity. }
  split; [exact K|]. split; [reflexivity|].
  unfold fastBigIntDivMod. rewrite Hm, Hn. cbn [negb orb]. rewrite K. reflexivity.
Qed.

Lemma C6_divmod_zero_witness :
  fastBigIntDivMod 0 0 (VInt 7) (VInt 0) = Err ZeroDivisionError.
Proof.
  apply (proj2 C6_divmod_type_and_zero_errors 0%nat 0%nat (VInt 7) (VInt 0));
    reflexivity.
Defined.

(** ** The square root *)

Lemma floorSqrt_returns n :
  0 <= n -> exists s, sqrt_returns n s /\ is_floor_sqrt n s.
Proof.
  intros Hn. apply (floorSqrt_returns_bounded (Z.to_nat (bit_length n))); [exact Hn|].
  pose proof (bit_length_nonneg n). lia.
Qed.

Lemma fastBigIntFloorSqrt_returns v :
  isinstance_int v = true -> 0 <= int_of v ->
  exists D I r, forall d i, (D <= d)%nat -> (I <= i)%nat ->
    fastBigIntFloorSqrt d i v = Ok r.
Proof.
  intros Hv Hn. destruct (floorSqrt_returns (int_of v) Hn) as (s & (D & I & R) & P).
  exists D, I, (if bit_length (int_of v) <=? 1 then v else VInt s).
  intros d i Hd Hi. unfold fastBigIntFloorSqrt. rewrite Hv. cbn [negb].
  rewrite (proj2 (Z.ltb_ge _ _)) by lia. rewrite R by assumption. reflexivity.
Qed.

(** C4: for every nonnegative integer [n], [fastBigIntFloorSqrt(n)] returns
    an integer [s] with [s*s <= n] and [(s+1)*(s+1) > n]: with large enough
    budgets the Newton step and its correction loops end at the floor square
    root. *)
Theorem C4_floor_sqrt_correct (n : Z) :
  0 <= n ->
  exists s, s * s <= n /\ (s + 1) * (s + 1) > n /\
    exists D I, forall d i, (D <= d)%nat -> (I <= i)%nat ->
      fastBigIntFloorSqrt d i (VInt n) = Ok (VInt s).
Proof.
  intros Hn. destruct (floorSqrt_returns n Hn) as (s & (D & I & R) & [P1 P2]).
  exists s. split; [exact P1|]. split; [exact P2|].
  exists D, I. intros d i Hd Hi. unfold fastBigIntFloorSqrt.
  cbn [isinstance_int negb int_of].
  rewrite (proj2 (Z.ltb_ge _ _)) by lia. rewrite R by assumption. unfold bind.
  destruct (Z.leb_spec (bit_length n) 1) as [L|L]; [|reflexivity].
  specialize (R D I (le_n _) (le_n _)).
  rewrite sqrt_unfold_base in R by exact L. congruence.
Qed.

Lemma C4_floor_sqrt_witness :
  0 <= 1000000 /\
  exists s, s * s <= 1000000 /\ (s + 1) * (s + 1) > 1000000 /\
    exists D I, forall d i, (D <= d)%nat -> (I <= i)%nat ->
      fastBigIntFloorSqrt d i (VInt 1000000) = Ok (VInt s).
Proof.
  assert (H : 0 <= 1000000) by lia.
  split; [exact H|]. exact (C4_floor_sqrt_correct 1000000 H).
Defined.

(** C10: for a nonnegative [n] of at least 8 bits the recursive call on
    [n >> padBits] returns, and the approximation built from it is at least 1
    before the Newton step, so the division by it is not a division by
    zero. *)
Theorem C10_sqrt_divisor_positive (n : Z) :
  0 <= n -> 8 <= bit_length n ->
  let resultPadBits := bit_length n / 4 in
  let padBits := 2 * resultPadBits in
  exists s, sqrt_returns (Z.shiftr n padBits) s /\
    1 <= Z.shiftl s resultPadBits /\
    forall d i, _divModPositiveArgs d i n (Z.shiftl s resultPadBits)
                <> Err ZeroDivisionError.
Proof.
  intros Hn H8. cbv zeta.
  assert (Hdiv : bit_length n = 4 * (bit_length n / 4) + bit_length n mod 4)
    by (apply Z.div_mod; lia).
  assert (Hmod : 0 <= bit_length n mod 4 < 4) by (apply Z.mod_pos_bound; lia).
  assert (Hn0 : n <> 0) by (intros ->; change (bit_length 0) with 0 in H8; lia).
  destruct (bit_length_shiftr n (2 * (bit_length n / 4)) ltac:(lia) ltac:(lia))
    as [Hx _].
  destruct (floorSqrt_returns (Z.shiftr n (2 * (bit_length n / 4))) ltac:(lia))
    as (s & R & P).
  pose proof (sqrt_approx_positive n s Hn H8 P) as Hap.
  exists s. split; [exact R|]. split; [exact Hap|].
  intros d i E.
  destruct (kernel_returns n (Z.shiftl s (bit_length n / 4)) ltac:(lia))
    as (q & r & Rk & _).
  rewrite (kernel_settled_returns d i _ _ q r Rk) in E; [discriminate|].
  rewrite E. reflexivity.
Qed.

Lemma C10_sqrt_divisor_witness :
  (0 <= 1000 /\ 8 <= bit_length 1000) /\
  exists s, sqrt_returns (Z.shiftr 1000 (2 * (bit_length 1000 / 4))) s /\
    1 <= Z.shiftl s (bit_length 1000 / 4) /\
    forall d i, _divModPositiveArgs d i 1000 (Z.shiftl s (bit_length 1000 / 4))
                <> Err ZeroDivisionError.
Proof.
  assert (H1 : 0 <= 1000) by lia.
  assert (H2 : 8 <= bit_length 1000) by (vm_compute; discriminate).
  split; [split; assumption|]. exact (C10_sqrt_divisor_positive 1000 H1 H2).
Defined.

Lemma fastBigIntFloorSqrt_settled_ok d i v :
  isinstance_int v = true -> 0 <= int_of v ->
  settled (fastBigIntFloorSqrt d i v) ->
  exists r, fastBigIntFloorSqrt d i v = Ok r.
Proof.
  intros Hv Hn. unfold fastBigIntFloorSqrt. rewrite Hv. cbn [negb].
  rewrite (proj2 (Z.ltb_ge _ _)) by lia.
  destruct (floorSqrt_returns (int_of v) Hn) as (s & R & _).
  intros H.
  assert (S : settled (_floorSqrtPositiveInt d i (int_of v))).
  { destruct (_floorSqrtPositiveInt d i (int_of v)); [exact I|exact H]. }
  rewrite (sqrt_settled_returns d i _ s R S). eexists. reflexivity.
Qed.

(** C7: [fastBigIntFloorSqrt] raises TypeError exactly on a non-int,
    ValueError exactly on a negative int, and returns a value exactly on a
    nonnegative int; [fastBigIntStrBase10] raises TypeError exactly on a
    non-int. *)
Theorem C7_sqrt_and_str_argument_errors :
  (forall d i v,
     fastBigIntFloorSqrt d i v = Err TypeError <-> isinstance_int v = false) /\
  (forall d i v,
     fastBigIntFloorSqrt d i v = Err ValueError <->
     isinstance_int v = true /\ int_of v < 0) /\
  (forall v,
     (exists D I r, forall d i, (D <= d)%nat -> (I <= i)%nat ->
        fastBigIntFloorSqrt d i v = Ok r) <->
     isinstance_int v = true /\ 0 <= int_of v) /\
  (forall d i v,
     fastBigIntStrBase10 d i v = Err TypeError <-> isinstance_int v = false).
Proof.
  split; [|split; [|split]].
  - intros d i v. split.
    + intros E. destruct (isinstance_int v) eqn:Hv; [|reflexivity]. exfalso.
      destruct (Z_lt_ge_dec (int_of v) 0) as [Neg|Pos].
      * unfold fastBigIntFloorSqrt in E. rewrite Hv in E. cbn [negb] in E.
        rewrite (proj2 (Z.ltb_lt _ _)) in E by lia. discriminate.
      * destruct (fastBigIntFloorSqrt_settled_ok d i v Hv ltac:(lia)) as [r Er];
          [rewrite E; reflexivity|congruence].
    + intros Hv. unfold fastBigIntFloorSqrt. rewrite Hv. reflexivity.
  - intros d i v. split.
    + intros E. destruct (isinstance_int v) eqn:Hv.
      * split; [reflexivity|].
        destruct (Z_lt_ge_dec (int_of v) 0) as [Neg|Pos]; [exact Neg|]. exfalso.
        destruct (fastBigIntFloorSqrt_settled_ok d i v Hv ltac:(lia)) as [r Er];
          [rewrite E; reflexivity|congruence].
      * unfold fastBigIntFloorSqrt in E. rewrite Hv in E. discriminate.
    + intros [Hv Neg]. unfold fastBigIntFloorSqrt. rewrite Hv. cbn [negb].
      rewrite (proj2 (Z.ltb_lt _ _)) by lia. reflexivity.
  - intros v. split.
    + intros (D & I & r & R). specialize (R D I (le_n _) (le_n _)).
      unfold fastBigIntFloorSqrt in R.
      destruct (isinstance_int v); [|discriminate]. cbn [negb] in R.
      destruct (Z.ltb_spec (int_of v) 0); [discriminate|]. split; [reflexivity|lia].
    + intros [Hv Hn]. apply fastBigIntFloorSqrt_returns; assumption.
  - intros d i v. unfold fastBigIntStrBase10.
    destruct (isinstance_int v); cbn [negb]; [|split; reflexivity].
    split; [|discriminate]. intros E. exfalso. revert E.
    destruct (int_of v =? 0); [discriminate|].
    destruct (int_of v <? 0).
    + apply bind_no_type_error; [apply strBase10_positive_no_type_error|].
      intros s. discriminate.
    + apply strBase10_positive_no_type_error.
Qed.

(** ** The long division branch *)

(** The kernel at a dividend of 30000 bits and a divisor of 10000 bits: the
    loop [while r > n] stops with [r == n]. *)
Lemma longdiv_remainder_is_divisor :
  _divModPositiveArgs 10 10 longdiv_m longdiv_n = Ok (2 ^ 20000, longdiv_n).
Proof.
  assert (H : match _divModPositiveArgs 10 10 longdiv_m longdiv_n with
              | Ok (q, r) => (q =? 2 ^ 20000) && (r =? longdiv_n)
              | Err _ => false
              end = true) by (vm_compute; reflexivity).
  destruct (_divModPositiveArgs 10 10 longdiv_m longdiv_n) as [[q r]|];
    [|discriminate].
  apply andb_true_iff in H. destruct H as [Hq Hr].
  apply Z.eqb_eq in Hq, Hr. subst. reflexivity.
Qed.

Lemma Ok_pair_snd (a b c d : Z) : Ok (a, b) = Ok (c, d) -> b = d.
Proof. intros H. injection H. auto. Qed.

Lemma longdiv_shape (A B : Z) :
  0 < A -> 0 < B ->
  0 < A * B + B /\ A * B + B = (A + 1) * B + 0 /\ ~ (0 <= B < B).
Proof. intros HA HB. repeat split; nia. Qed.

Lemma longdiv_inputs_facts :
  0 < longdiv_m /\ 0 < longdiv_n /\
  longdiv_m = (2 ^ 20000 + 1) * longdiv_n + 0 /\ ~ (0 <= longdiv_n < longdiv_n) /\
  longdiv_m = 2 ^ 20000 * longdiv_n + longdiv_n.
Proof.
  assert (HA : 0 < 2 ^ 20000) by (apply Z.pow_pos_nonneg; [reflexivity|discriminate]).
  assert (HB : 0 < 2 ^ 9999) by (apply Z.pow_pos_nonneg; [reflexivity|discriminate]).
  destruct (longdiv_shape _ _ HA HB) as (H1 & H2 & H3).
  assert (E : longdiv_m = 2 ^ 20000 * 2 ^ 9999 + 2 ^ 9999).
  { unfold longdiv_m. change 29999 with (20000 + 9999).
    rewrite Z.pow_add_r by discriminate. reflexivity. }
  unfold longdiv_n. rewrite E.
  exact (conj H1 (conj HB (conj H2 (conj H3 eq_refl)))).
Qed.

(** C1 fails on the code: for [m = 2^29999 + 2^9999] and [n = 2^9999] the
    kernel returns [(2^20000, n)].  The pair satisfies [m = q*n + r], but the
    remainder equals the divisor, so [r < n] does not hold. *)
Theorem C1_longdiv_remainder_not_below_divisor :
  0 <= longdiv_m /\ 0 < longdiv_n /\
  exists q r, _divModPositiveArgs 10 10 longdiv_m longdiv_n = Ok (q, r) /\
    longdiv_m = q * longdiv_n + r /\ ~ (0 <= r < longdiv_n).
Proof.
  destruct longdiv_inputs_facts as (Hm & Hn & E & N & E').
  split; [apply Z.lt_le_incl; exact Hm|]. split; [exact Hn|].
  exists (2 ^ 20000), longdiv_n.
  split; [exact longdiv_remainder_is_divisor|]. split; [exact E'|exact N].
Qed.

(** C2 fails on the code: [fastBigIntDivMod(2^29999 + 2^9999, 2^9999)]
    returns [(2^20000, 2^9999)], while the builtin [divmod] gives
    [(2^20000 + 1, 0)]. *)
Theorem C2_divmod_differs_from_builtin :
  fastBigIntDivMod 10 10 (VInt longdiv_m) (VInt longdiv_n)
    = Ok (2 ^ 20000, longdiv_n) /\
  divmod longdiv_m longdiv_n = Ok (2 ^ 20000 + 1, 0) /\
  fastBigIntDivMod 10 10 (VInt longdiv_m) (VInt longdiv_n)
    <> divmod longdiv_m longdiv_n.
Proof.
  destruct longdiv_inputs_facts as (Hm & Hn & E & N & E').
  assert (F : fastBigIntDivMod 10 10 (VInt longdiv_m) (VInt longdiv_n)
              = Ok (2 ^ 20000, longdiv_n)).
  { unfold fastBigIntDivMod. cbn [isinstance_int negb orb int_of].
    rewrite (Z.abs_eq longdiv_m) by (apply Z.lt_le_incl; exact Hm).
    rewrite (Z.abs_eq longdiv_n) by (apply Z.lt_le_incl; exact Hn).
    rewrite longdiv_remainder_is_divisor. unfold bind.
    rewrite !Z.gtb_ltb, (proj2 (Z.ltb_lt 0 longdiv_m) Hm),
      (proj2 (Z.ltb_lt 0 longdiv_n) Hn).
    reflexivity. }
  assert (G : divmod longdiv_m longdiv_n = Ok (2 ^ 20000 + 1, 0)).
  { unfold divmod.
    rewrite (proj2 (Z.eqb_neq longdiv_n 0)) by (apply Z.neq_sym, Z.lt_neq; exact Hn).
    rewrite (divmod_unique longdiv_n (2 ^ 20000 + 1) 0 longdiv_m);
      [reflexivity|exact Hn|symmetry; exact E|].
    split; [apply Z.le_refl|exact Hn]. }
  split; [exact F|]. split; [exact G|].
  rewrite F, G. intros Heq. apply Ok_pair_snd in Heq.
  rewrite Heq in Hn. exact (Z.lt_irrefl 0 Hn).
Qed.

(** ** The correction loops *)

Lemma hang_inputs_positive : 0 <= hang_m /\ 0 < hang_n.
Proof.
  split; [apply Z.leb_le|apply Z.ltb_lt]; vm_compute; reflexivity.
Qed.

(** C5 fails on the code: for the nonnegative [hang_m] (40004 bits) and the
    positive [hang_n = 2^20002 - 1] the call does return in the end, but not
    while every loop is held to fewer than 2^10000 iterations, whatever the
    recursion depth: a correction loop runs far more than 4 times. *)
Theorem C5_correction_loop_far_beyond_four :
  0 <= hang_m /\ 0 < hang_n /\
  (exists q r, div_returns hang_m hang_n q r) /\
  (forall d i, Z.of_nat i < 2 ^ 10000 ->
     forall x, _divModPositiveArgs d i hang_m hang_n <> Ok x) /\
  (forall d x, _divModPositiveArgs d 4 hang_m hang_n <> Ok x).
Proof.
  destruct hang_inputs_positive as [Hm Hn].
  split; [exact Hm|]. split; [exact Hn|]. split; [|split].
  - destruct (kernel_returns hang_m hang_n Hn) as (q & r & R & _).
    exists q, r. exact R.
  - intros d i Hi. apply hang_call_exceeds_budget. exact Hi.
  - intros d. apply hang_call_exceeds_budget.
    pose proof hang_b_pos. assert (16 <= hang_b); [|lia].
    change 16 with (2 ^ 4). apply Z.pow_le_mono_r; [reflexivity|discriminate].
Qed.

(** * Further properties of the division kernel and the square root *)

Lemma div_returns_unique m n q r q' r' :
  div_returns m n q r -> div_returns m n q' r' -> q = q' /\ r = r'.
Proof.
  intros (D & I & H) (D' & I' & H').
  specialize (H (Nat.max D D') (Nat.max I I') ltac:(lia) ltac:(lia)).
  specialize (H' (Nat.max D D') (Nat.max I I') ltac:(lia) ltac:(lia)).
  rewrite H in H'. apply Ok_eq_inv in H'. apply pair_eq_inv in H'. exact H'.
Qed.

Lemma kernel_returns_cases m n :
  0 <= m -> 0 < n ->
  exists q r, div_returns m n q r /\ q * n + r = m /\ 0 <= r <= n /\
    (bit_length n < DIVMOD_BAILOUT_BITS \/ bit_length m <= 2 * bit_length n ->
     q = m / n /\ r = m mod n) /\
    ((q = m / n /\ r = m mod n) \/ (m mod n = 0 /\ q = m / n - 1 /\ r = n)).
Proof.
  intros Hm Hn.
  destruct (kernel_returns m n Hn) as (q & r & Hret & Heq & Hr & Hlt).
  specialize (Hr Hm). specialize (Hlt Hm).
  exists q, r. split; [exact Hret|]. split; [exact Heq|]. split; [exact Hr|].
  assert (Hexact : r < n -> q = m / n /\ r = m mod n).
  { intros Hrn. apply pair_eq_inv. apply divmod_unique; [exact Hn|exact Heq|lia]. }
  split.
  - intros [Hb|Hb].
    + assert (Hd : div_returns m n (m / n) (m mod n)).
      { exists O, O. intros d i _ _. rewrite kernel_bailout by exact Hb.
        unfold divmod. rewrite (proj2 (Z.eqb_neq n 0)) by lia. reflexivity. }
      exact (div_returns_unique _ _ _ _ _ _ Hret Hd).
    + apply Hexact. apply Hlt. exact Hb.
  - destruct (Z_lt_ge_dec r n) as [Hrn|Hrn]; [left; apply Hexact; exact Hrn|].
    right. assert (r = n) by lia. subst r.
    assert (E : m = (q + 1) * n) by lia.
    rewrite E. rewrite Z.mod_mul, Z.div_mul by lia. lia.
Qed.

Lemma floor_divmod_unique m n q r :
  q * n + r = m -> 0 <= r < n \/ n < r <= 0 -> q = m / n /\ r = m mod n.
Proof.
  intros E H. split.
  - apply (Z.div_unique m n q r); [exact H|lia].
  - apply (Z.mod_unique m n q r); [exact H|lia].
Qed.

Lemma wrapper_result d i vm vn q0 r0 :
  isinstance_int vm = true -> isinstance_int vn = true ->
  _divModPositiveArgs d i (Z.abs (int_of vm)) (Z.abs (int_of vn)) = Ok (q0, r0) ->
  fastBigIntDivMod d i vm vn =
    if (int_of vm >? 0) && (int_of vn >? 0) then Ok (q0, r0)
    else if (int_of vm <? 0) && (int_of vn <? 0) then Ok (q0, - r0)
    else if r0 =? 0 then Ok (- q0, r0)
    else if int_of vm >? 0 then Ok (- (q0 + 1), int_of vn + r0)
    else Ok (- (q0 + 1), int_of vn - r0).
Proof.
  intros Hm Hn K. unfold fastBigIntDivMod. rewrite Hm, Hn. cbn [negb orb].
  rewrite K. reflexivity.
Qed.

Lemma sign_fixup m n q0 r0 :
  n <> 0 -> q0 * Z.abs n + r0 = Z.abs m -> 0 <= r0 <= Z.abs n ->
  (m = 0 -> r0 = 0) ->
  exists q r,
    (if (m >? 0) && (n >? 0) then Ok (q0, r0)
     else if (m <? 0) && (n <? 0) then Ok (q0, - r0)
     else if r0 =? 0 then Ok (- q0, r0)
     else if m >? 0 then Ok (- (q0 + 1), n + r0)
     else Ok (- (q0 + 1), n - r0)) = Ok (q, r) /\
    q * n + r = m /\
    ((0 <= m /\ n < 0) \/ (m <= 0 /\ 0 < n) \/ r0 < Z.abs n ->
     q = m / n /\ r = m mod n) /\
    ((q = m / n /\ r = m mod n) \/ (m mod n = 0 /\ q = m / n - 1 /\ r = n)).
Proof.
  intros Hn0 Heq Hr Hzero.
  assert (Full : forall q, q * n + n = m -> m mod n = 0 /\ q = m / n - 1).
  { intros q E. assert (E' : m = (q + 1) * n) by lia.
    rewrite E'. rewrite Z.mod_mul, Z.div_mul by lia. lia. }
  destruct (Z.lt_trichotomy m 0) as [Hm|[Hm|Hm]];
    destruct (Z.lt_trichotomy n 0) as [Hn|[Hn|Hn]]; try lia;
    rewrite ?Z.gtb_ltb.
  - (* m < 0, n < 0 *)
    rewrite (Z.abs_neq m), (Z.abs_neq n) in * by lia.
    exists q0, (- r0). resolve_tests. cbn [andb].
    split; [reflexivity|]. split; [lia|]. split.
    + intros H. apply floor_divmod_unique; lia.
    + destruct (Z.eq_dec r0 (- n)) as [E|E].
      * right. destruct (Full q0) as [F1 F2]; [lia|]. repeat split; lia.
      * left. apply floor_divmod_unique; lia.
  - (* m < 0, 0 < n *)
    rewrite (Z.abs_neq m), (Z.abs_eq n) in * by lia.
    resolve_tests. cbn [andb].
    destruct (Z.eq_dec r0 0) as [E|E].
    + exists (- q0), r0. resolve_tests.
      split; [reflexivity|]. split; [lia|].
      assert (- q0 = m / n /\ r0 = m mod n) by (apply floor_divmod_unique; lia).
      split; [intros _; assumption|left; assumption].
    + exists (- (q0 + 1)), (n - r0). resolve_tests.
      split; [reflexivity|]. split; [lia|].
      assert (- (q0 + 1) = m / n /\ n - r0 = m mod n)
        by (apply floor_divmod_unique; lia).
      split; [intros _; assumption|left; assumption].
  - (* m = 0, n < 0 *)
    specialize (Hzero Hm). subst m r0. change (Z.abs 0) with 0 in Heq.
    exists (- q0), 0. resolve_tests. cbn [andb]. resolve_tests.
    split; [reflexivity|]. split; [lia|].
    assert (- q0 = 0 / n /\ 0 = 0 mod n) by (apply floor_divmod_unique; lia).
    split; [intros _; assumption|left; assumption].
  - (* m = 0, 0 < n *)
    specialize (Hzero Hm). subst m r0. change (Z.abs 0) with 0 in Heq.
    exists (- q0), 0. resolve_tests. cbn [andb]. resolve_tests.
    split; [reflexivity|]. split; [lia|].
    assert (- q0 = 0 / n /\ 0 = 0 mod n) by (apply floor_divmod_unique; lia).
    split; [intros _; assumption|left; assumption].
  - (* 0 < m, n < 0 *)
    rewrite (Z.abs_eq m), (Z.abs_neq n) in * by lia.
    resolve_tests. cbn [andb].
    destruct (Z.eq_dec r0 0) as [E|E].
    + exists (- q0), r0. resolve_tests.
      split; [reflexivity|]. split; [lia|].
      assert (- q0 = m / n /\ r0 = m mod n) by (apply floor_divmod_unique; lia).
      split; [intros _; assumption|left; assumption].
    + exists (- (q0 + 1)), (n + r0). resolve_tests.
      split; [reflexivity|]. split; [lia|].
      assert (- (q0 + 1) = m / n /\ n + r0 = m mod n)
        by (apply floor_divmod_unique; lia).
      split; [intros _; assumption|left; assumption].
  - (* 0 < m, 0 < n *)
    rewrite (Z.abs_eq m), (Z.abs_eq n) in * by lia.
    exists q0, r0. resolve_tests. cbn [andb].
    split; [reflexivity|]. split; [lia|]. split.
    + intros H. apply floor_divmod_unique; lia.
    + destruct (Z.eq_dec r0 n) as [E|E].
      * right. destruct (Full q0) as [F1 F2]; [lia|]. repeat split; lia.
      * left. apply floor_divmod_unique; lia.
Qed.

Lemma is_floor_sqrt_unique n s : is_floor_sqrt n s -> s = Z.sqrt n.
Proof.
  intros [H1 H2].
  assert (0 <= s) by nia.
  symmetry. apply Z.sqrt_unique. change (Z.succ s) with (s + 1). lia.
Qed.

Lemma floorSqrt_settled_value d i n :
  0 <= n ->
  match _floorSqrtPositiveInt d i n with
  | Ok s => s = Z.sqrt n
  | Err e => budget_error e = true
  end.
Proof.
  intros Hn. destruct (floorSqrt_returns n Hn) as (s & Hret & Hs).
  pose proof (sqrt_settled_returns d i n s Hret) as S.
  destruct (_floorSqrtPositiveInt d i n) as [s'|e].
  - specialize (S I). apply Ok_eq_inv in S. subst s'.
    apply is_floor_sqrt_unique. exact Hs.
  - destruct (budget_error e) eqn:E; [reflexivity|].
    specialize (S E). discriminate S.
Qed.

(** One Newton step from [a], where [a <= sqrt n < a + e] and [e*e <= 2*a],
    lands on the floor square root or one above it. *)
Lemma newton_step_bounds a e n :
  0 < a -> 0 < e -> e * e <= 2 * a -> a * a <= n < (a + e) * (a + e) ->
  Z.sqrt n <= (a + n / a) / 2 <= Z.sqrt n + 1.
Proof.
  intros Ha He Hea [Hlo Hhi].
  assert (Hn : 0 <= n) by nia.
  pose proof (Z.sqrt_spec n Hn) as [S1 S2]. change (Z.succ (Z.sqrt n)) with (Z.sqrt n + 1) in S2.
  pose proof (Z.sqrt_nonneg n) as S0.
  set (s := Z.sqrt n) in *.
  pose proof (Z.div_mod n a ltac:(lia)) as Dq.
  pose proof (Z.mod_pos_bound n a Ha) as Bq.
  set (q := n / a) in *. set (r0 := n mod a) in *.
  assert (Hqa : a <= q) by nia.
  replace (a + q) with ((q - a) + a * 2) by ring.
  rewrite Z.div_add by lia.
  pose proof (Z.div_mod (q - a) 2 ltac:(lia)) as Dc.
  pose proof (Z.mod_pos_bound (q - a) 2 ltac:(lia)) as Bc.
  set (c := (q - a) / 2) in *. set (b := (q - a) mod 2) in *.
  assert (Hc0 : 0 <= c) by lia.
  assert (Hup : n < (c + a + 1) * (c + a + 1)) by nia.
  assert (Hce : c <= e).
  { assert (a * q < (a + e) * (a + e)) by lia.
    assert (q <= a + 2 * e + 1) by nia. lia. }
  split.
  - destruct (Z_le_gt_dec s (c + a)) as [H|H]; [exact H|].
    assert (c + a + 1 <= s) by lia.
    assert ((c + a + 1) * (c + a + 1) <= s * s) by (apply Z.mul_le_mono_nonneg; lia).
    lia.
  - destruct (Z.eq_dec c 0) as [->|Nc].
    + destruct (Z_le_gt_dec (0 + a) (s + 1)) as [H|H]; [exact H|].
      assert ((s + 1) * (s + 1) <= a * a) by (apply Z.mul_le_mono_nonneg; lia). lia.
    + assert (Hsq : (c - 1) * (c - 1) <= 2 * a).
      { assert ((c - 1) * (c - 1) <= e * e) by (apply Z.mul_le_mono_nonneg; lia). lia. }
      assert (Hdn : (c + a - 1) * (c + a - 1) <= n) by nia.
      destruct (Z_le_gt_dec (c + a) (s + 1)) as [H|H]; [exact H|].
      assert ((s + 1) * (s + 1) <= (c + a - 1) * (c + a - 1))
        by (apply Z.mul_le_mono_nonneg; lia).
      lia.
Qed.

(** The first approximation [a = isqrt(n >> 2p) << p] of the Newton step,
    [p = bit_length n / 4]. *)
Lemma newton_start n :
  0 <= n -> 8 <= bit_length n ->
  let p := bit_length n / 4 in
  let a := Z.shiftl (Z.sqrt (Z.shiftr n (2 * p))) p in
  0 < a /\ 2 ^ p * 2 ^ p <= 2 * a /\ a * a <= n < (a + 2 ^ p) * (a + 2 ^ p) /\
  bit_length n <= 2 * bit_length a.
Proof.
  intros Hn HB p a.
  pose proof (Z.div_mod (bit_length n) 4 ltac:(lia)) as Dp.
  pose proof (Z.mod_pos_bound (bit_length n) 4 ltac:(lia)) as Bp.
  fold p in Dp.
  assert (Hp : 2 <= p) by lia.
  assert (Hn0 : 0 < n).
  { destruct (Z.eq_dec n 0) as [->|]; [|lia]. change (bit_length 0) with 0 in HB. lia. }
  destruct (bit_length_pos_bounds n Hn0) as (_ & Nlo & Nhi).
  set (e := 2 ^ p). assert (He : 0 < e) by (apply Z.pow_pos_nonneg; lia).
  assert (EE : 2 ^ (2 * p) = e * e).
  { unfold e. rewrite <- Z.pow_add_r by lia. f_equal. lia. }
  set (n0 := Z.shiftr n (2 * p)) in *.
  assert (En0 : n0 = n / (e * e)) by (unfold n0; rewrite Z.shiftr_div_pow2, EE by lia; reflexivity).
  pose proof (Z.div_mod n (e * e) ltac:(nia)) as Dn.
  pose proof (Z.mod_pos_bound n (e * e) ltac:(nia)) as Bn.
  rewrite <- En0 in Dn.
  assert (Hn0lo : e * e <= 2 * n0).
  { assert (2 ^ (4 * p - 1) <= 2 ^ (bit_length n - 1)) by (apply Z.pow_le_mono_r; lia).
    assert (E4 : 2 ^ (4 * p - 1) * 2 = (e * e) * (e * e)).
    { rewrite <- EE, <- Z.pow_add_r by lia.
      replace (2 ^ (4 * p - 1) * 2) with (2 ^ (4 * p - 1) * 2 ^ 1) by reflexivity.
      rewrite <- Z.pow_add_r by lia. f_equal. lia. }
    assert ((e * e) * (e * e) <= 2 * n) by lia.
    assert (0 < e * e) by nia.
    destruct (Z_le_gt_dec (e * e) (2 * n0)) as [H'|H']; [exact H'|].
    assert (2 * n0 + 2 <= e * e).
    { assert (Ev : e * e = 2 * (2 ^ (2 * p - 1))).
      { rewrite <- EE. replace (2 * p) with (1 + (2 * p - 1)) at 1 by lia.
        rewrite Z.pow_add_r by lia. reflexivity. }
      lia. }
    nia. }
  pose proof (Z.sqrt_spec n0 ltac:(nia)) as [S1 S2].
  change (Z.succ (Z.sqrt n0)) with (Z.sqrt n0 + 1) in S2.
  pose proof (Z.sqrt_nonneg n0) as S0.
  set (s0 := Z.sqrt n0) in *.
  assert (Ea : a = s0 * e).
  { unfold a. fold n0. fold s0. rewrite Z.shiftl_mul_pow2 by lia. reflexivity. }
  assert (Hs0 : e <= 2 * s0).
  { destruct (Z_le_gt_dec e (2 * s0)) as [H'|H']; [exact H'|].
    assert (Ev : e = 2 * 2 ^ (p - 1)).
    { unfold e. replace p with (1 + (p - 1)) at 1 by lia.
      rewrite Z.pow_add_r by lia. reflexivity. }
    assert (s0 + 1 <= 2 ^ (p - 1)) by lia.
    assert (0 < 2 ^ (p - 1)) by (apply Z.pow_pos_nonneg; lia).
    assert ((s0 + 1) * (s0 + 1) <= 2 ^ (p - 1) * 2 ^ (p - 1)) by nia.
    nia. }
  assert (Hs0pos : 0 < s0) by lia.
  assert (Hhi : n < (a + e) * (a + e)).
  { rewrite Ea. assert (n < (n0 + 1) * (e * e)) by nia.
    assert ((n0 + 1) <= (s0 + 1) * (s0 + 1)) by lia. nia. }
  assert (Ha : 0 < a) by nia.
  split; [exact Ha|]. split; [nia|]. split; [split; [nia|exact Hhi]|].
  destruct (bit_length_pos_bounds a Ha) as (_ & _ & Ahi).
  pose proof (bit_length_nonneg a).
  apply bit_length_le_iff; [lia|]. rewrite Z.abs_eq by lia.
  replace (2 * bit_length a) with (bit_length a + bit_length a) by lia.
  rewrite Z.pow_add_r by lia.
  assert (a + e <= 2 ^ bit_length a); [|nia].
  destruct (Z_le_gt_dec p (bit_length a)) as [Hpa|Hpa].
  - assert (Ex : 2 ^ bit_length a = 2 ^ (bit_length a - p) * e).
    { unfold e. rewrite <- Z.pow_add_r by lia. f_equal. lia. }
    rewrite Ex in *. rewrite Ea in *.
    assert (s0 < 2 ^ (bit_length (s0 * e) - p)) by nia. nia.
  - assert (2 ^ bit_length a < e) by (apply Z.pow_lt_mono_r; lia). nia.
Qed.

Lemma sqrt_down_loop_exit i n a sq : sq <= n -> sqrt_down_loop i n a sq = Ok a.
Proof.
  intros H. destruct i; cbn [sqrt_down_loop];
    rewrite Z.gtb_ltb, (proj2 (Z.ltb_ge _ _)) by lia; reflexivity.
Qed.

Lemma sqrt_up_loop_exit i n a sq : n < sq -> sqrt_up_loop i n a sq = Ok a.
Proof.
  intros H. destruct i; cbn [sqrt_up_loop];
    rewrite (proj2 (Z.leb_gt _ _)) by lia; reflexivity.
Qed.

(** After the Newton step neither correction loop has anything left to do. *)
Lemma newton_correction n x :
  0 <= n -> Z.sqrt n <= x <= Z.sqrt n + 1 ->
  forall i,
    (if x * x >? n
     then sqrt_down_loop i n (x - 1) (x * x - Z.lor (Z.shiftl (x - 1) 1) 1)
     else sqrt_up_loop i n x (x * x + Z.lor (Z.shiftl x 1) 1)) = Ok (Z.sqrt n).
Proof.
  intros Hn Hx i.
  pose proof (Z.sqrt_spec n Hn) as [S1 S2].
  change (Z.succ (Z.sqrt n)) with (Z.sqrt n + 1) in S2.
  pose proof (Z.sqrt_nonneg n) as S0.
  rewrite !lor_shiftl_1. rewrite Z.gtb_ltb.
  destruct (Z.ltb_spec n (x * x)) as [Hgt|Hle].
  - assert (x = Z.sqrt n + 1).
    { destruct (Z.eq_dec x (Z.sqrt n)) as [E|E]; [rewrite E in Hgt; lia|lia]. }
    subst x. rewrite sqrt_down_loop_exit by lia. f_equal. lia.
  - assert (x = Z.sqrt n).
    { destruct (Z.eq_dec x (Z.sqrt n + 1)) as [E|E]; [rewrite E in Hle; lia|lia]. }
    subst x. rewrite sqrt_up_loop_exit by lia. reflexivity.
Qed.

Lemma while_neg_within l n (c : nat) :
  0 < n ->
  forall q r, - r <= Z.of_nat c * n -> forall i, (c <= i)%nat ->
    while_neg l i n q r = Ok (if r <? 0 then (q + r / n, r mod n) else (q, r)).
Proof.
  intros Hn. induction c as [|c IH]; intros q0 r0 Hc i Hi.
  - destruct i; simpl; destruct (Z.ltb_spec r0 0); try reflexivity; lia.
  - destruct i as [|i]; [lia|]. simpl.
    destruct (Z.ltb_spec r0 0) as [Hr|Hr]; [|reflexivity].
    rewrite IH by lia.
    replace (r0 / n) with ((r0 + n) / n - 1)
      by (replace (r0 + n) with (r0 + 1 * n) by lia; rewrite Z.div_add by lia; lia).
    replace (r0 mod n) with ((r0 + n) mod n)
      by (replace (r0 + n) with (r0 + 1 * n) by lia; apply Z.mod_add; lia).
    destruct (Z.ltb_spec (r0 + n) 0) as [H2|H2].
    + f_equal; f_equal; lia.
    + rewrite Z.div_small, Z.mod_small by lia. f_equal; f_equal; lia.
Qed.

Lemma while_ge_exit l i n q r : r < n -> while_ge l i n q r = Ok (q, r).
Proof.
  intros H. destruct i; cbn [while_ge];
    rewrite Z.geb_leb, (proj2 (Z.leb_gt _ _)) by lia; reflexivity.
Qed.

(** The quotient estimated from the high parts of a dividend below
    [2^(2k+e)] and a divisor of [k+e] bits: never too small, and at most
    four too large. *)
Lemma quotient_estimate m n e k :
  0 <= m -> 0 <= e -> 1 <= k ->
  m < 2 ^ (2 * k + e) -> 2 ^ (k + e - 1) <= n < 2 ^ (k + e) ->
  let q1 := (m / 2 ^ e) / (n / 2 ^ e) in
  let r := m - q1 * n in
  - r <= 4 * n /\ r < n.
Proof.
  intros Hm He Hk Mhi [Nlo Nhi] q1 r.
  set (E := 2 ^ e) in *. assert (HE : 0 < E) by (apply Z.pow_pos_nonneg; lia).
  pose proof (Z.div_mod m E ltac:(lia)) as Dm.
  pose proof (Z.mod_pos_bound m E HE) as Rm.
  pose proof (Z.div_mod n E ltac:(lia)) as Dn.
  pose proof (Z.mod_pos_bound n E HE) as Rn.
  set (mh := m / E) in *. set (ml := m mod E) in *.
  set (nh := n / E) in *. set (nl := n mod E) in *.
  set (P := 2 ^ (k - 1)) in *. assert (HP : 0 < P) by (apply Z.pow_pos_nonneg; lia).
  assert (EN : 2 ^ (k + e - 1) = P * E).
  { unfold P, E. rewrite <- Z.pow_add_r by lia. f_equal. lia. }
  assert (EN2 : 2 ^ (k + e) = 2 * P * E).
  { replace (k + e) with (1 + (k + e - 1)) by lia. rewrite Z.pow_add_r, EN by lia.
    change (2 ^ 1) with 2. ring. }
  assert (EM : 2 ^ (2 * k + e) = 4 * P * P * E).
  { replace (2 * k + e) with (1 + 1 + (k - 1) + (k + e - 1)) by lia.
    rewrite !Z.pow_add_r, EN by lia. change (2 ^ 1) with 2. fold P. ring. }
  rewrite EN in Nlo. rewrite EN2 in Nhi. rewrite EM in Mhi.
  assert (Hnh : P <= nh < 2 * P) by nia.
  assert (Hmh : 0 <= mh < 4 * P * P) by nia.
  pose proof (Z.div_mod mh nh ltac:(lia)) as Dq.
  pose proof (Z.mod_pos_bound mh nh ltac:(lia)) as Rq.
  fold q1 in Dq. set (r1 := mh mod nh) in *.
  assert (Hq1 : 0 <= q1 <= 4 * P) by nia.
  unfold r. split.
  - assert (q1 * nl <= 4 * P * E) by nia.
    nia.
  - assert (mh + 1 <= (q1 + 1) * nh) by nia.
    assert (m < (mh + 1) * E) by nia.
    nia.
Qed.

Lemma while_len_once l k n q r :
  0 < n -> bit_length n = k -> 0 <= r < n ->
  forall i, (1 <= i)%nat ->
    while_len l i k n q r
      = Ok (if 2 ^ (k - 1) <=? r then (q + 1, r - n) else (q, r)).
Proof.
  intros Hn Bk Hr i Hi.
  destruct (bit_length_pos_bounds n Hn) as (K1 & Nlo & Nhi). rewrite Bk in *.
  assert (E2 : 2 ^ k = 2 * 2 ^ (k - 1)).
  { replace k with (1 + (k - 1)) at 1 by lia. rewrite Z.pow_add_r by lia. reflexivity. }
  destruct (Z.leb_spec (2 ^ (k - 1)) r) as [Hge|Hlt].
  - assert (Bl : k <= bit_length r).
    { apply bit_length_ge_iff; [lia|]. rewrite Z.abs_eq by lia. exact Hge. }
    rewrite while_len_long by exact Bl.
    destruct i as [|i]; [lia|].
    apply while_len_short.
    assert (bit_length (r - n) <= k - 1); [|lia].
    apply bit_length_le_iff; [lia|]. rewrite Z.abs_neq by lia. lia.
  - apply while_len_short.
    assert (bit_length r <= k - 1); [|lia].
    apply bit_length_le_iff; [lia|]. rewrite Z.abs_eq by lia. exact Hlt.
Qed.

Lemma half_inputs_facts :
  0 <= half_m /\ 0 < half_n /\ DIVMOD_BAILOUT_BITS <= bit_length half_n /\
  bit_length half_m = 2 * bit_length half_n /\
  _divModPositiveArgs 0 4
    (fst (_splitHiLo half_m (bit_length half_n)))
    (fst (_splitHiLo half_n (bit_length half_n / 2))) = Ok (2 ^ 4999 + 1, 1).
Proof.
  split; [apply Z.leb_le; vm_compute; reflexivity|].
  split; [apply Z.ltb_lt; vm_compute; reflexivity|].
  split; [apply Z.leb_le; vm_compute; reflexivity|].
  split; [apply Z.eqb_eq; vm_compute; reflexivity|].
  assert (Em : fst (_splitHiLo half_m (bit_length half_n)) = 2 ^ 9999 + 2 ^ 4999)
    by (apply Z.eqb_eq; vm_compute; reflexivity).
  assert (En : fst (_splitHiLo half_n (bit_length half_n / 2)) = 2 ^ 5000 - 1)
    by (apply Z.eqb_eq; vm_compute; reflexivity).
  rewrite Em, En.
  assert (Hb : bit_length (2 ^ 5000 - 1) < DIVMOD_BAILOUT_BITS)
    by (apply Z.ltb_lt; vm_compute; reflexivity).
  rewrite (kernel_bailout 0 4 _ _ Hb). unfold divmod.
  assert (Hz : (2 ^ 5000 - 1 =? 0) = false) by (vm_compute; reflexivity).
  rewrite Hz.
  assert (Hpos : 0 < 2 ^ 5000 - 1) by (apply Z.ltb_lt; vm_compute; reflexivity).
  assert (Hmul : (2 ^ 4999 + 1) * (2 ^ 5000 - 1) + 1 = 2 ^ 9999 + 2 ^ 4999)
    by (apply Z.eqb_eq; vm_compute; reflexivity).
  assert (Hr : 0 <= 1 < 2 ^ 5000 - 1)
    by (split; [discriminate|apply Z.ltb_lt; vm_compute; reflexivity]).
  rewrite <- (divmod_unique (2 ^ 5000 - 1) (2 ^ 4999 + 1) 1 (2 ^ 9999 + 2 ^ 4999)
                Hpos Hmul Hr).
  reflexivity.
Qed.

(** * The decimal printer *)

Lemma ten_pow2_S j : ten_pow2 (S j) = ten_pow2 j * ten_pow2 j.
Proof. reflexivity. Qed.

Lemma ten_pow2_spec j : ten_pow2 j = 10 ^ (2 ^ Z.of_nat j).
Proof.
  induction j as [|j IH]; [reflexivity|].
  rewrite ten_pow2_S, IH, Nat2Z.inj_succ, Z.pow_succ_r by lia.
  assert (0 < 2 ^ Z.of_nat j) by (apply Z.pow_pos_nonneg; lia).
  rewrite <- Z.pow_add_r by lia. f_equal. lia.
Qed.

Lemma ten_pow2_pos j : 0 < ten_pow2 j.
Proof.
  rewrite ten_pow2_spec. apply Z.pow_pos_nonneg; [lia|].
  apply Z.pow_nonneg. lia.
Qed.

Lemma py_index_table (f : nat -> Z) (n : nat) (j : Z) :
  0 <= j < Z.of_nat n ->
  py_index (map f (seq 0 n)) j = Ok (f (Z.to_nat j)).
Proof.
  intros Hj. unfold py_index. rewrite length_map, length_seq.
  rewrite (proj2 (Z.ltb_ge j 0)) by lia.
  rewrite (proj2 (Z.leb_le 0 j)), (proj2 (Z.ltb_lt j (Z.of_nat n))) by lia.
  cbn [andb]. f_equal.
  rewrite (nth_indep _ 0 (f 0%nat)) by (rewrite length_map, length_seq; lia).
  rewrite (map_nth f (seq 0 n) 0%nat). rewrite seq_nth by lia. reflexivity.
Qed.

Lemma last_table (f : nat -> Z) (j : nat) :
  last (map f (seq 0 (S j))) 0 = f j.
Proof. rewrite seq_S, map_app. cbn [map]. rewrite last_last. reflexivity. Qed.

(** The table of powers: the loop squares the last entry while twice its
    bit length is below that of [n]. *)
Lemma build_powers_table n (J : nat) :
  (forall j, (j < J)%nat -> bit_length (ten_pow2 j) * 2 < bit_length n) ->
  bit_length n <= bit_length (ten_pow2 J) * 2 ->
  forall (k j i : nat), (j + k = J)%nat -> (k <= i)%nat ->
    build_powers i n (map ten_pow2 (seq 0 (S j))) = Ok (map ten_pow2 (seq 0 (S J))).
Proof.
  intros Hlt Hge. induction k as [|k IH]; intros j i Hj Hi.
  - assert (j = J) by lia. subst j.
    destruct i; cbn [build_powers]; cbv zeta; rewrite last_table;
      rewrite (proj2 (Z.ltb_ge _ _)) by lia; reflexivity.
  - destruct i as [|i]; [lia|]. cbn [build_powers]. cbv zeta. rewrite last_table.
    rewrite (proj2 (Z.ltb_lt _ _)) by (apply Hlt; lia).
    rewrite <- ten_pow2_S.
    replace (map ten_pow2 (seq 0 (S j)) ++ [ten_pow2 (S j)])
      with (map ten_pow2 (seq 0 (S (S j))))
      by (rewrite (seq_S (S j)), map_app; reflexivity).
    apply IH; lia.
Qed.

Lemma helper_bailout d i n powers k :
  bit_length n < STRINGIFY_BAILOUT_BITS -> 0 <= k ->
  _toBase10StringHelper d i n powers k = Ok (pad k (str n)).
Proof.
  intros H Hk. destruct d; cbn [_toBase10StringHelper];
    rewrite (proj2 (Z.ltb_lt _ _)) by exact H;
    unfold py_lshift; rewrite (proj2 (Z.ltb_ge k 0)) by lia; reflexivity.
Qed.

Lemma helper_step d i n powers k :
  STRINGIFY_BAILOUT_BITS <= bit_length n ->
  _toBase10StringHelper (S d) i n powers k =
    (p <- py_index powers (k - 1) ;;
     '(lhs, rhs) <- _divModPositiveArgs d i n p ;;
     a <- _toBase10StringHelper d i lhs powers (k - 1) ;;
     b <- _toBase10StringHelper d i rhs powers (k - 1) ;;
     Ok (a ++ b)%string).
Proof.
  intros H. cbn [_toBase10StringHelper].
  rewrite (proj2 (Z.ltb_ge _ _)) by exact H. reflexivity.
Qed.

Lemma div_eucl_10 x : Z.div_eucl x 10 = (x / 10, x mod 10).
Proof. unfold Z.div, Z.modulo. destruct (Z.div_eucl x 10); reflexivity. Qed.

Lemma string_app_assoc (a b c : string) : ((a ++ b) ++ c = a ++ (b ++ c))%string.
Proof. induction a as [|x a IH]; simpl; [reflexivity|rewrite IH; reflexivity]. Qed.

Lemma zeros_snoc w s : (zeros w ++ String "0" s = String "0" (zeros w ++ s))%string.
Proof. induction w as [|w IH]; simpl; [reflexivity|rewrite IH; reflexivity]. Qed.

Lemma fixed_digits_zero w acc : fixed_digits w 0 acc = (zeros w ++ acc)%string.
Proof.
  revert acc. induction w as [|w IH]; intros acc; [reflexivity|].
  cbn [fixed_digits]. change (0 / 10) with 0. change (0 mod 10) with 0.
  rewrite IH. change (digit_char 0) with "0"%char. rewrite zeros_snoc. reflexivity.
Qed.

Lemma fixed_digits_length w : forall x acc,
  String.length (fixed_digits w x acc) = (w + String.length acc)%nat.
Proof.
  induction w as [|w IH]; intros x acc; [reflexivity|].
  cbn [fixed_digits]. rewrite IH. simpl. lia.
Qed.

Lemma fixed_digits_acc w : forall x acc,
  fixed_digits w x acc = (fixed_digits w x EmptyString ++ acc)%string.
Proof.
  induction w as [|w IH]; intros x acc; [reflexivity|].
  cbn [fixed_digits]. rewrite IH.
  rewrite (IH (x / 10) (String _ EmptyString)).
  rewrite string_app_assoc. reflexivity.
Qed.

(** The digits of [x] above the lowest [w2] are those of [x / 10^w2]. *)
Lemma fixed_digits_add w2 : forall w1 x acc,
  fixed_digits (w2 + w1) x acc
    = fixed_digits w1 (x / 10 ^ Z.of_nat w2) (fixed_digits w2 x acc).
Proof.
  induction w2 as [|w2 IH]; intros w1 x acc.
  - cbn [plus fixed_digits]. change (10 ^ Z.of_nat 0) with 1. rewrite Z.div_1_r.
    reflexivity.
  - cbn [plus fixed_digits]. rewrite IH. f_equal.
    rewrite Nat2Z.inj_succ, Z.pow_succ_r by lia.
    rewrite Z.div_div; [reflexivity|lia|]. apply Z.pow_pos_nonneg; lia.
Qed.

(** The lowest [w] digits do not see multiples of [10^w]. *)
Lemma fixed_digits_low w : forall a b acc,
  fixed_digits w (a * 10 ^ Z.of_nat w + b) acc = fixed_digits w b acc.
Proof.
  induction w as [|w IH]; intros a b acc; [reflexivity|].
  cbn [fixed_digits].
  rewrite Nat2Z.inj_succ, Z.pow_succ_r by lia.
  replace (a * (10 * 10 ^ Z.of_nat w) + b) with (b + (a * 10 ^ Z.of_nat w) * 10) by ring.
  rewrite Z_mod_plus_full, Z.div_add by lia.
  replace (b / 10 + a * 10 ^ Z.of_nat w) with (a * 10 ^ Z.of_nat w + b / 10) by ring.
  apply IH.
Qed.

(** Two halves printed side by side are the whole number. *)
Lemma fixed_digits_halves w q r :
  0 <= r < 10 ^ Z.of_nat w ->
  (fixed_digits w q EmptyString ++ fixed_digits w r EmptyString)%string
    = fixed_digits (w + w) (q * 10 ^ Z.of_nat w + r) EmptyString.
Proof.
  intros Hr. rewrite fixed_digits_add, fixed_digits_low.
  rewrite (fixed_digits_acc w _ (fixed_digits w r EmptyString)).
  rewrite Z.div_add_l by lia. rewrite (Z.div_small r) by exact Hr.
  rewrite Z.add_0_r. reflexivity.
Qed.

(** With enough fuel [str_digits] writes the digits of [fixed_digits]
    without the leading zeros. *)
Lemma fixed_digits_str_digits :
  forall (f w : nat) (x : Z) (acc : string),
    0 <= x < 2 ^ Z.of_nat f -> x < 10 ^ Z.of_nat (S w) ->
    exists j, fixed_digits (S w) x acc = (zeros j ++ str_digits (S f) x acc)%string.
Proof.
  induction f as [|f IH]; intros w x acc Hx Hw.
  - assert (x = 0) by (change (2 ^ Z.of_nat 0) with 1 in Hx; lia). subst x.
    exists w. rewrite fixed_digits_zero. cbn [zeros]. rewrite str_digits_S.
    change (Z.div_eucl 0 10) with (0, 0). cbv iota beta.
    change (0 =? 0) with true. cbv iota. change (digit_char 0) with "0"%char.
    rewrite zeros_snoc. reflexivity.
  - rewrite str_digits_S, div_eucl_10. cbv iota beta. cbn [fixed_digits].
    pose proof (Z.div_mod x 10 ltac:(lia)) as Dx.
    pose proof (Z.mod_pos_bound x 10 ltac:(lia)) as Bx.
    destruct (Z.eqb_spec (x / 10) 0) as [Eq|Nq].
    + exists w. rewrite Eq. apply fixed_digits_zero.
    + destruct w as [|w].
      * change (10 ^ Z.of_nat 1) with 10 in Hw. exfalso. apply Nq.
        apply Z.div_small. lia.
      * apply IH.
        -- rewrite Nat2Z.inj_succ, Z.pow_succ_r in Hx by lia. lia.
        -- rewrite (Nat2Z.inj_succ (S w)), Z.pow_succ_r in Hw by lia. lia.
Qed.

(** The zero padding of the helper gives the fixed-width digits. *)
Lemma pad_str_fixed_digits (k : nat) x :
  0 <= x < ten_pow2 k ->
  pad (Z.of_nat k) (str x) = fixed_digits (2 ^ k) x EmptyString.
Proof.
  intros Hx. rewrite ten_pow2_spec in Hx.
  assert (Hw : exists w, (2 ^ k = S w)%nat).
  { pose proof (Nat.pow_nonzero 2 k ltac:(lia)). exists (Nat.pred (2 ^ k)). lia. }
  destruct Hw as (w & Hw).
  assert (B : 0 <= x < 2 ^ Z.of_nat (Z.to_nat (bit_length x))).
  { pose proof (bit_length_nonneg x). rewrite Z2Nat.id by lia.
    pose proof (proj1 (bit_length_le_iff x (bit_length x) ltac:(lia)) ltac:(lia)).
    lia. }
  assert (Hx' : x < 10 ^ Z.of_nat (S w)).
  { rewrite <- Hw, Nat2Z.inj_pow. apply Hx. }
  destruct (fixed_digits_str_digits _ w x EmptyString B Hx') as (j & E).
  assert (Es : str x = str_digits (S (Z.to_nat (bit_length x))) x EmptyString).
  { unfold str. rewrite (proj2 (Z.ltb_ge x 0)) by lia. reflexivity. }
  rewrite <- Es in E. rewrite Hw, E. unfold pad. f_equal. f_equal.
  apply (f_equal String.length) in E.
  rewrite fixed_digits_length, string_length_app, zeros_length in E.
  simpl String.length in E at 1.
  rewrite Z.shiftl_1_l, <- Nat2Z.inj_pow with (n := 2%nat), Hw. lia.
Qed.

Lemma bit_length_mono a b : 0 <= a <= b -> bit_length a <= bit_length b.
Proof.
  intros H. pose proof (bit_length_nonneg b).
  apply bit_length_le_iff; [assumption|].
  pose proof (proj1 (bit_length_le_iff b (bit_length b) ltac:(lia)) ltac:(lia)).
  lia.
Qed.

Lemma bit_length_square p :
  0 < p -> 2 * bit_length p - 1 <= bit_length (p * p) <= 2 * bit_length p.
Proof.
  intros Hp. destruct (bit_length_pos_bounds p Hp) as (H1 & H2 & H3).
  split.
  - apply bit_length_ge_iff; [lia|]. rewrite Z.abs_eq by nia.
    replace (2 * bit_length p - 1 - 1) with ((bit_length p - 1) + (bit_length p - 1)) by lia.
    rewrite Z.pow_add_r by lia.
    assert (0 < 2 ^ (bit_length p - 1)) by (apply Z.pow_pos_nonneg; lia). nia.
  - apply bit_length_le_iff; [lia|]. rewrite Z.abs_eq by nia.
    replace (2 * bit_length p) with (bit_length p + bit_length p) by lia.
    rewrite Z.pow_add_r by lia. nia.
Qed.

Lemma ten_pow2_bit_length_ge j : Z.of_nat j + 4 <= bit_length (ten_pow2 j).
Proof.
  induction j as [|j IH]; [apply Z.leb_le; reflexivity|].
  rewrite ten_pow2_S. pose proof (bit_length_square (ten_pow2 j) (ten_pow2_pos j)). lia.
Qed.

(** The helper's contract: called with the table of the powers 10^(2^j) and
    a number below 10^(2^k), it returns the [2^k] decimal digits of the
    number, zeros in front. *)
Lemma helper_contract (L : nat) :
  forall (k : nat) (x : Z), (k <= L)%nat -> 0 <= x < ten_pow2 k ->
    exists D I, forall d i, (D <= d)%nat -> (I <= i)%nat ->
      _toBase10StringHelper d i x (map ten_pow2 (seq 0 L)) (Z.of_nat k)
        = Ok (fixed_digits (2 ^ k) x EmptyString).
Proof.
  induction k as [|k IH]; intros x Hk Hx.
  - exists O, O. intros d i _ _. rewrite helper_bailout.
    + rewrite pad_str_fixed_digits by exact Hx. reflexivity.
    + change (ten_pow2 0) with 10 in Hx.
      assert (bit_length x <= 4); [|unfold STRINGIFY_BAILOUT_BITS; lia].
      apply bit_length_le_iff; [lia|]. change (2 ^ 4) with 16. lia.
    + lia.
  - destruct (Z_lt_ge_dec (bit_length x) STRINGIFY_BAILOUT_BITS) as [Hs|Hb].
    + exists O, O. intros d i _ _. rewrite helper_bailout by lia.
      rewrite pad_str_fixed_digits by exact Hx. reflexivity.
    + pose proof (ten_pow2_pos k) as Hp. set (p := ten_pow2 k) in *.
      rewrite ten_pow2_S in Hx. fold p in Hx.
      assert (Hbl : bit_length x <= 2 * bit_length p).
      { pose proof (bit_length_mono x (p * p) ltac:(lia)).
        pose proof (bit_length_square p Hp). lia. }
      destruct (kernel_returns_cases x p ltac:(lia) Hp)
        as (q & r & (D1 & I1 & R1) & Heq & Hr & Hex & _).
      destruct (Hex (or_intror Hbl)) as [Eq Er].
      assert (Hq : 0 <= q < p).
      { subst q. split; [apply Z.div_pos; lia|]. apply Z.div_lt_upper_bound; lia. }
      assert (Hr' : 0 <= r < p) by (subst r; apply Z.mod_pos_bound; exact Hp).
      destruct (IH q ltac:(lia) Hq) as (D2 & I2 & R2).
      destruct (IH r ltac:(lia) Hr') as (D3 & I3 & R3).
      exists (S (Nat.max D1 (Nat.max D2 D3))), (Nat.max I1 (Nat.max I2 I3)).
      intros d i Hd Hi. destruct d as [|d]; [lia|].
      rewrite helper_step by lia.
      replace (Z.of_nat (S k) - 1) with (Z.of_nat k) by lia.
      rewrite py_index_table by lia. cbn [bind]. rewrite Nat2Z.id. fold p.
      rewrite R1 by lia. cbn [bind].
      rewrite R2 by lia. cbn [bind].
      rewrite R3 by lia. cbn [bind]. f_equal.
      assert (Ep : p = 10 ^ Z.of_nat (2 ^ k)).
      { unfold p. rewrite ten_pow2_spec, Nat2Z.inj_pow. reflexivity. }
      rewrite fixed_digits_halves by (rewrite <- Ep; exact Hr').
      rewrite <- Ep, Heq. f_equal. simpl. lia.
Qed.

Lemma build_powers_search n :
  forall (c j : nat),
    bit_length n - 2 * bit_length (ten_pow2 j) <= Z.of_nat c ->
    (forall j', (j' < j)%nat -> bit_length (ten_pow2 j') * 2 < bit_length n) ->
    exists J, (j <= J <= j + c)%nat /\
      (forall j', (j' < J)%nat -> bit_length (ten_pow2 j') * 2 < bit_length n) /\
      bit_length n <= bit_length (ten_pow2 J) * 2.
Proof.
  induction c as [|c IH]; intros j Hc Hlt.
  - exists j. split; [lia|]. split; [exact Hlt|]. lia.
  - destruct (Z_lt_ge_dec (bit_length (ten_pow2 j) * 2) (bit_length n)) as [Hl|Hg].
    + destruct (IH (S j)) as (J & HJ & H1 & H2).
      * rewrite ten_pow2_S.
        pose proof (bit_length_square (ten_pow2 j) (ten_pow2_pos j)).
        pose proof (ten_pow2_bit_length_ge j). lia.
      * intros j' Hj'. destruct (Nat.eq_dec j' j) as [->|N]; [exact Hl|].
        apply Hlt. lia.
      * exists J. split; [lia|]. split; assumption.
    + exists j. split; [lia|]. split; [exact Hlt|]. lia.
Qed.

(** The table loop returns for every [n]: the table holds the powers
    10^(2^j) for j = 0..J, where J is the first index at which twice the bit
    length of the power reaches the bit length of [n]. *)
Lemma build_powers_returns n :
  exists J,
    (forall i, (Z.to_nat (bit_length n) <= i)%nat ->
       build_powers i n [10] = Ok (map ten_pow2 (seq 0 (S J)))) /\
    (forall j, (j < J)%nat -> bit_length (ten_pow2 j) * 2 < bit_length n) /\
    bit_length n <= bit_length (ten_pow2 J) * 2.
Proof.
  pose proof (bit_length_nonneg n) as Hn.
  destruct (build_powers_search n (Z.to_nat (bit_length n)) 0) as (J & HJ & H1 & H2).
  - pose proof (ten_pow2_bit_length_ge 0). lia.
  - intros j' Hj'. lia.
  - exists J. split; [|split; assumption].
    intros i Hi. apply (build_powers_table n J H1 H2 J 0 i); lia.
Qed.

Lemma digit_char_nonzero d : 1 <= d < 10 -> digit_char d <> "0"%char.
Proof.
  intros Hd.
  assert (C : d = 1 \/ d = 2 \/ d = 3 \/ d = 4 \/ d = 5 \/ d = 6 \/
              d = 7 \/ d = 8 \/ d = 9) by lia.
  repeat (destruct C as [->|C]; [discriminate|]). subst d. discriminate.
Qed.

Lemma str_digits_head :
  forall (f : nat) (x : Z) (acc : string),
    0 < x < 2 ^ Z.of_nat f ->
    exists c rest, str_digits (S f) x acc = String c rest /\ c <> "0"%char.
Proof.
  induction f as [|f IH]; intros x acc Hx.
  - change (2 ^ Z.of_nat 0) with 1 in Hx. lia.
  - rewrite str_digits_S, div_eucl_10. cbv iota beta.
    pose proof (Z.div_mod x 10 ltac:(lia)) as Dx.
    pose proof (Z.mod_pos_bound x 10 ltac:(lia)) as Bx.
    destruct (Z.eqb_spec (x / 10) 0) as [Eq|Nq].
    + eexists _, _. split; [reflexivity|]. apply digit_char_nonzero. lia.
    + apply IH. rewrite Nat2Z.inj_succ, Z.pow_succ_r in Hx by lia. lia.
Qed.

Lemma str_fuel_bound x :
  0 <= x -> 0 <= x < 2 ^ Z.of_nat (Z.to_nat (bit_length x)).
Proof.
  intros Hx. pose proof (bit_length_nonneg x). rewrite Z2Nat.id by lia.
  pose proof (proj1 (bit_length_le_iff x (bit_length x) ltac:(lia)) ltac:(lia)).
  lia.
Qed.

Lemma str_nonneg_unfold x :
  0 <= x -> str x = str_digits (S (Z.to_nat (bit_length x))) x EmptyString.
Proof. intros Hx. unfold str. rewrite (proj2 (Z.ltb_ge x 0)) by lia. reflexivity. Qed.

(** The decimal string of a positive integer starts with a digit that is
    not zero. *)
Lemma str_pos_head x :
  0 < x -> exists c rest, str x = String c rest /\ c <> "0"%char.
Proof.
  intros Hx. rewrite str_nonneg_unfold by lia.
  apply str_digits_head. pose proof (str_fuel_bound x ltac:(lia)). lia.
Qed.

Lemma fixed_digits_str (w : nat) x :
  0 <= x < 10 ^ Z.of_nat (S w) ->
  exists j, fixed_digits (S w) x EmptyString = (zeros j ++ str x)%string.
Proof.
  intros Hx. rewrite str_nonneg_unfold by lia.
  apply fixed_digits_str_digits; [apply str_fuel_bound; lia|lia].
Qed.

Lemma strip_zeros_prefix j c rest :
  c <> "0"%char ->
  strip_leading_zeros (zeros j ++ String c rest) = Ok (String c rest).
Proof.
  intros Hc. induction j as [|j IH].
  - cbn [zeros append strip_leading_zeros].
    rewrite (proj2 (Ascii.eqb_neq c "0") Hc). reflexivity.
  - cbn [zeros append strip_leading_zeros]. change (Ascii.eqb "0" "0") with true.
    cbv iota. destruct j; exact IH.
Qed.

Lemma zeros_prefix_unique :
  forall j1 j2 c1 r1 c2 r2,
    c1 <> "0"%char -> c2 <> "0"%char ->
    (zeros j1 ++ String c1 r1 = zeros j2 ++ String c2 r2)%string ->
    String c1 r1 = String c2 r2.
Proof.
  induction j1 as [|j1 IH]; intros [|j2] c1 r1 c2 r2 H1 H2 E; cbn [zeros append] in E.
  - exact E.
  - exfalso. apply H1. congruence.
  - exfalso. apply H2. congruence.
  - apply (IH j2); [exact H1|exact H2|]. congruence.
Qed.

(** Writing [r] in [w] digits behind the digits of a positive [q] gives the
    digits of [q * 10^w + r]. *)
Lemma str_concat q r (w : nat) :
  0 < q -> 0 <= r < 10 ^ Z.of_nat w ->
  str (q * 10 ^ Z.of_nat w + r) = (str q ++ fixed_digits w r EmptyString)%string.
Proof.
  intros Hq Hr. set (x := q * 10 ^ Z.of_nat w + r).
  assert (Hx : 0 < x) by (unfold x; nia).
  set (W := Z.to_nat (bit_length q)).
  assert (HqW : 0 <= q < 10 ^ Z.of_nat (S W)).
  { pose proof (str_fuel_bound q ltac:(lia)) as B. fold W in B.
    assert (2 ^ Z.of_nat W <= 10 ^ Z.of_nat W) by (apply Z.pow_le_mono_l; lia).
    rewrite Nat2Z.inj_succ, Z.pow_succ_r by lia.
    assert (0 < 10 ^ Z.of_nat W) by (apply Z.pow_pos_nonneg; lia). lia. }
  assert (HxW : 0 <= x < 10 ^ Z.of_nat (S (w + W))).
  { replace (Z.of_nat (S (w + W))) with (Z.of_nat (S W) + Z.of_nat w) by lia.
    rewrite Z.pow_add_r by lia. unfold x. nia. }
  destruct (fixed_digits_str W q HqW) as (j1 & E1).
  destruct (fixed_digits_str (w + W) x HxW) as (j2 & E2).
  assert (E : fixed_digits (S (w + W)) x EmptyString
              = (fixed_digits (S W) q EmptyString ++ fixed_digits w r EmptyString)%string).
  { replace (S (w + W)) with (w + S W)%nat by lia.
    rewrite fixed_digits_add. unfold x. rewrite fixed_digits_low.
    rewrite Z.div_add_l by lia. rewrite (Z.div_small r) by exact Hr.
    rewrite Z.add_0_r. apply fixed_digits_acc. }
  rewrite E1, E2, string_app_assoc in E.
  destruct (str_pos_head q Hq) as (c1 & r1 & Eq & H1).
  destruct (str_pos_head x Hx) as (c2 & r2 & Ex & H2).
  rewrite Ex. rewrite Eq in *. rewrite Ex in E. cbn [append] in E |- *.
  apply (zeros_prefix_unique j2 j1 c2 r2 c1 _ H2 H1 E).
Qed.

Lemma lead_ok_small k x : bit_length x < STRINGIFY_BAILOUT_BITS -> lead_ok k x.
Proof. intros H. destruct k; [exact H|left; exact H]. Qed.

Lemma lead_ok_below k : forall x, 0 <= x < ten_pow2 k -> lead_ok k x.
Proof.
  induction k as [|k IH]; intros x Hx.
  - change (ten_pow2 0) with 10 in Hx. cbn [lead_ok].
    assert (bit_length x <= 4); [|unfold STRINGIFY_BAILOUT_BITS; lia].
    apply bit_length_le_iff; [lia|]. change (2 ^ 4) with 16. lia.
  - right. pose proof (ten_pow2_pos k) as Hp. rewrite ten_pow2_S in Hx. split.
    + pose proof (bit_length_mono x (ten_pow2 k * ten_pow2 k) ltac:(lia)).
      pose proof (bit_length_square _ Hp). lia.
    + apply IH. split; [apply Z.div_pos; lia|]. apply Z.div_lt_upper_bound; lia.
Qed.

(** On the leading chain of quotients the helper writes the digits of its
    argument, possibly with zeros in front, as long as every division on
    the chain has a dividend of at most twice the bits of the divisor. *)
Lemma helper_leading (L : nat) :
  forall (k : nat) (x : Z), (k <= L)%nat -> 0 <= x -> lead_ok k x ->
    exists D I j, forall d i, (D <= d)%nat -> (I <= i)%nat ->
      _toBase10StringHelper d i x (map ten_pow2 (seq 0 L)) (Z.of_nat k)
        = Ok (zeros j ++ str x)%string.
Proof.
  assert (Small : forall (k : nat) x, bit_length x < STRINGIFY_BAILOUT_BITS ->
            exists D I j, forall d i, (D <= d)%nat -> (I <= i)%nat ->
              _toBase10StringHelper d i x (map ten_pow2 (seq 0 L)) (Z.of_nat k)
                = Ok (zeros j ++ str x)%string).
  { intros k x Hs. exists O, O. eexists. intros d i _ _.
    rewrite helper_bailout by lia. unfold pad. reflexivity. }
  induction k as [|k IH]; intros x Hk Hx Hok.
  - apply Small. exact Hok.
  - destruct Hok as [Hs|[Hbl Hok]]; [apply Small; exact Hs|].
    destruct (Z_lt_ge_dec (bit_length x) STRINGIFY_BAILOUT_BITS) as [Hs|Hb];
      [apply Small; exact Hs|].
    pose proof (ten_pow2_pos k) as Hp.
    assert (Hw : exists w, (2 ^ S k = S w)%nat).
    { pose proof (Nat.pow_nonzero 2 (S k) ltac:(lia)).
      exists (Nat.pred (2 ^ S k)). lia. }
    destruct Hw as (w & Hw).
    destruct (Z_lt_ge_dec x (ten_pow2 (S k))) as [Hlt|Hge].
    + destruct (helper_contract L (S k) x Hk ltac:(lia)) as (D & I & R).
      destruct (fixed_digits_str w x) as (j & E).
      { rewrite <- Hw, Nat2Z.inj_pow, <- ten_pow2_spec. lia. }
      exists D, I, j. intros d i Hd Hi. rewrite R by assumption.
      rewrite Hw, E. reflexivity.
    + set (p := ten_pow2 k) in *. rewrite ten_pow2_S in Hge. fold p in Hge.
      destruct (kernel_returns_cases x p Hx Hp)
        as (q & r & (D1 & I1 & R1) & Heq & Hr & Hex & _).
      destruct (Hex (or_intror Hbl)) as [Eq Er].
      assert (Hq : 0 < q).
      { subst q. assert (p <= x / p); [|lia]. apply Z.div_le_lower_bound; lia. }
      assert (Hr' : 0 <= r < p) by (subst r; apply Z.mod_pos_bound; exact Hp).
      rewrite <- Eq in Hok.
      destruct (IH q ltac:(lia) ltac:(lia) Hok) as (D2 & I2 & j & R2).
      destruct (helper_contract L k r ltac:(lia) Hr') as (D3 & I3 & R3).
      exists (S (Nat.max D1 (Nat.max D2 D3))), (Nat.max I1 (Nat.max I2 I3)), j.
      intros d i Hd Hi. destruct d as [|d]; [lia|].
      rewrite helper_step by lia.
      replace (Z.of_nat (S k) - 1) with (Z.of_nat k) by lia.
      rewrite py_index_table by lia. cbn [bind]. rewrite Nat2Z.id. fold p.
      rewrite R1 by lia. cbn [bind].
      rewrite R2 by lia. cbn [bind].
      rewrite R3 by lia. cbn [bind]. f_equal.
      assert (Ep : p = 10 ^ Z.of_nat (2 ^ k)).
      { unfold p. rewrite ten_pow2_spec, Nat2Z.inj_pow. reflexivity. }
      rewrite string_app_assoc. f_equal.
      rewrite <- str_concat by (rewrite <- ?Ep; assumption).
      rewrite <- Ep, Heq. reflexivity.
Qed.

(** The bit lengths that decide the branches taken on [c3_n]. *)
Lemma c3_bit_lengths :
  (forall j, (j <= 12)%nat -> bit_length (ten_pow2 j) <= 13607) /\
  bit_length (ten_pow2 12) = 13607 /\
  bit_length (ten_pow2 13) = 27214 /\
  bit_length c3_lhs = 27215 /\
  bit_length c3_n = 54428 /\
  bit_length (2 * c3_t) = 13609.
Proof.
  destruct c3_chain_facts as (Hbits & Hb12 & _).
  assert (B12 : bit_length (ten_pow2 12) = 13607).
  { apply (f_equal (fun l => nth 12 l 0)) in Hbits. exact Hbits. }
  assert (Hc : scaled_between (2 * c3_t + 1) (2 ^ 40) (2 ^ 40 + 1) 13568).
  { unfold scaled_between. split; [apply Z.leb_le|apply Z.ltb_lt]; vm_compute; reflexivity. }
  assert (Hb : 0 <= c3_b) by (apply Z.leb_le; reflexivity).
  assert (H13 : scaled_between (ten_pow2 13) (c3_b * c3_b) ((c3_b + 1) * (c3_b + 1))
                  (13567 + 13567)).
  { rewrite ten_pow2_S. apply scaled_between_mul; try assumption; discriminate. }
  assert (Hl : scaled_between c3_lhs (2 ^ 40 * c3_b) ((2 ^ 40 + 1) * (c3_b + 1))
                 (13568 + 13567)).
  { unfold c3_lhs. apply scaled_between_mul; try assumption; discriminate. }
  assert (Hn : scaled_between c3_n (2 ^ 40 * c3_b * (c3_b * c3_b))
                 ((2 ^ 40 + 1) * (c3_b + 1) * ((c3_b + 1) * (c3_b + 1)))
                 (13568 + 13567 + (13567 + 13567))).
  { unfold c3_n. apply scaled_between_mul; try assumption; discriminate. }
  split; [|split; [exact B12|split; [|split; [|split]]]].
  - intros j Hj.
    assert (E : bit_length (ten_pow2 j)
                = nth j (map (fun j0 => bit_length (ten_pow2 j0)) (seq 0 13)) 0).
    { do 13 (destruct j as [|j]; [reflexivity|]). lia. }
    rewrite E, Hbits. clear.
    do 13 (destruct j as [|j]; [discriminate|]). destruct j; discriminate.
  - assert (L1 : 2 ^ 79 <= c3_b * c3_b) by (apply Z.leb_le; reflexivity).
    assert (L2 : (c3_b + 1) * (c3_b + 1) <= 2 ^ (79 + 1)) by (apply Z.leb_le; reflexivity).
    rewrite (scaled_between_bit_length (ten_pow2 13) (c3_b * c3_b)
               ((c3_b + 1) * (c3_b + 1)) (13567 + 13567) 79
               ltac:(discriminate) ltac:(discriminate) L1 L2 H13).
    reflexivity.
  - assert (L1 : 2 ^ 79 <= 2 ^ 40 * c3_b) by (apply Z.leb_le; reflexivity).
    assert (L2 : (2 ^ 40 + 1) * (c3_b + 1) <= 2 ^ (79 + 1)) by (apply Z.leb_le; reflexivity).
    rewrite (scaled_between_bit_length c3_lhs (2 ^ 40 * c3_b)
               ((2 ^ 40 + 1) * (c3_b + 1)) (13568 + 13567) 79
               ltac:(discriminate) ltac:(discriminate) L1 L2 Hl).
    reflexivity.
  - assert (L1 : 2 ^ 158 <= 2 ^ 40 * c3_b * (c3_b * c3_b))
      by (apply Z.leb_le; reflexivity).
    assert (L2 : (2 ^ 40 + 1) * (c3_b + 1) * ((c3_b + 1) * (c3_b + 1)) <= 2 ^ (158 + 1))
      by (apply Z.leb_le; reflexivity).
    rewrite (scaled_between_bit_length c3_n (2 ^ 40 * c3_b * (c3_b * c3_b))
               ((2 ^ 40 + 1) * (c3_b + 1) * ((c3_b + 1) * (c3_b + 1)))
               (13568 + 13567 + (13567 + 13567)) 158
               ltac:(discriminate) ltac:(discriminate) L1 L2 Hn).
    reflexivity.
  - apply Z.eqb_eq. vm_compute. reflexivity.
Qed.

Lemma ten_pow2_bit_length_mono j j' :
  (j <= j')%nat -> bit_length (ten_pow2 j) <= bit_length (ten_pow2 j').
Proof.
  induction 1 as [|j' _ IH]; [lia|].
  rewrite ten_pow2_S.
  pose proof (bit_length_square (ten_pow2 j') (ten_pow2_pos j')).
  pose proof (ten_pow2_bit_length_ge j'). lia.
Qed.

Lemma bit_length_div x p :
  0 <= x -> 0 < p -> bit_length (x / p) <= Z.max 0 (bit_length x - bit_length p + 1).
Proof.
  intros Hx Hp. destruct (bit_length_pos_bounds p Hp) as (P1 & P2 & P3).
  pose proof (bit_length_nonneg x) as Bx.
  pose proof (proj1 (bit_length_le_iff x (bit_length x) Bx) ltac:(lia)) as X.
  rewrite Z.abs_eq in X by lia.
  apply bit_length_le_iff; [lia|].
  rewrite Z.abs_eq by (apply Z.div_pos; lia).
  apply Z.div_lt_upper_bound; [lia|].
  assert (0 < 2 ^ Z.max 0 (bit_length x - bit_length p + 1))
    by (apply Z.pow_pos_nonneg; lia).
  assert (2 ^ bit_length x <= 2 ^ (bit_length p - 1) * 2 ^ Z.max 0 (bit_length x - bit_length p + 1)).
  { rewrite <- Z.pow_add_r by lia. apply Z.pow_le_mono_r; lia. }
  nia.
Qed.

Lemma build_powers_mono n :
  forall i i' l p, (i <= i')%nat ->
    build_powers i n l = Ok p -> build_powers i' n l = Ok p.
Proof.
  induction i as [|i IH]; intros i' l p Hi H.
  - cbn [build_powers] in H. cbv zeta in H.
    destruct i'; cbn [build_powers]; cbv zeta;
      destruct (bit_length (last l 0) * 2 <? bit_length n); try discriminate; exact H.
  - destruct i' as [|i']; [lia|]. cbn [build_powers] in H |- *. cbv zeta in H |- *.
    destruct (bit_length (last l 0) * 2 <? bit_length n); [|exact H].
    apply (IH i'); [lia|exact H].
Qed.

Lemma strBase10_positive_returns n J :
  0 < n ->
  (forall j, (j < J)%nat -> bit_length (ten_pow2 j) * 2 < bit_length n) ->
  bit_length n <= bit_length (ten_pow2 J) * 2 ->
  lead_ok (S J) n ->
  exists D I, forall d i, (D <= d)%nat -> (I <= i)%nat ->
    strBase10_positive d i n = Ok (str n).
Proof.
  intros Hn H1 H2 Hok.
  destruct (helper_leading (S J) (S J) n (le_n _) ltac:(lia) Hok) as (D & I & j & R).
  destruct (str_pos_head n Hn) as (c & rest & Es & Hc).
  exists D, (Nat.max I J). intros d i Hd Hi. unfold strBase10_positive.
  change [10] with (map ten_pow2 (seq 0 1)).
  rewrite (build_powers_table n J H1 H2 J 0 i) by lia. cbn [bind].
  rewrite length_map, length_seq. rewrite R by lia. cbn [bind].
  rewrite Es. apply strip_zeros_prefix. exact Hc.
Qed.

Lemma str_digits_fuel :
  forall (f : nat) (x : Z) (acc : string),
    0 <= x < 10 ^ Z.of_nat (S f) ->
    forall g, (f <= g)%nat -> str_digits (S g) x acc = str_digits (S f) x acc.
Proof.
  induction f as [|f IH]; intros x acc Hx g Hg.
  - change (10 ^ Z.of_nat 1) with 10 in Hx.
    rewrite !str_digits_S, div_eucl_10. cbv iota beta.
    rewrite (Z.div_small x 10) by lia. reflexivity.
  - destruct g as [|g]; [lia|].
    rewrite (str_digits_S (S g)), (str_digits_S (S f)), div_eucl_10. cbv iota beta.
    destruct (x / 10 =? 0); [reflexivity|].
    apply IH; [|lia].
    rewrite (Nat2Z.inj_succ (S f)), Z.pow_succ_r in Hx by lia.
    pose proof (Z.div_mod x 10 ltac:(lia)). pose proof (Z.mod_pos_bound x 10 ltac:(lia)).
    split; [apply Z.div_pos; lia|]. apply Z.div_lt_upper_bound; lia.
Qed.

(** [str] of a negative integer is a minus sign and [str] of its opposite. *)
Lemma str_neg n : n < 0 -> str n = String "-" (str (- n)).
Proof.
  intros Hn. rewrite (str_nonneg_unfold (- n)) by lia. unfold str.
  rewrite (proj2 (Z.ltb_lt n 0)) by lia. f_equal.
  assert (B : bit_length (- n) = bit_length n).
  { rewrite <- (bit_length_abs n), Z.abs_neq by lia. reflexivity. }
  rewrite B.
  destruct (bit_length_pos_bounds (- n) ltac:(lia)) as (B1 & B2 & B3).
  rewrite B in *.
  destruct (Z.to_nat (bit_length n)) as [|f] eqn:E; [lia|].
  symmetry. apply str_digits_fuel; [|lia].
  assert (2 ^ bit_length n <= 10 ^ bit_length n) by (apply Z.pow_le_mono_l; lia).
  replace (Z.of_nat (S f)) with (bit_length n) by lia. lia.
Qed.

Lemma parse_int_digits s v :
  s <> EmptyString -> parse_digits s 0 = Some v -> parse_int s = Some v.
Proof.
  intros Hne Hp. destruct s as [|c rest]; [congruence|].
  cbn [parse_digits] in Hp.
  destruct (digit_value c) as [dg|] eqn:Ed; [|discriminate].
  assert (Hdash : c <> "-"%char) by (intros ->; discriminate Ed).
  assert (Hint : parse_int (String c rest) = parse_digits (String c rest) 0).
  { unfold parse_int. destruct c as [[] [] [] [] [] [] [] []]; try reflexivity.
    exfalso. apply Hdash. reflexivity. }
  rewrite Hint. cbn [parse_digits]. rewrite Ed. exact Hp.
Qed.

Lemma str_nonneg_nonempty x : 0 <= x -> str x <> EmptyString.
Proof.
  intros Hx E. destruct (Z.eq_dec x 0) as [->|N]; [discriminate E|].
  destruct (str_pos_head x ltac:(lia)) as (c & rest & Es & _). congruence.
Qed.

(** Reading back the decimal string of [n] gives [n]. *)
Lemma parse_int_str n : parse_int (str n) = Some n.
Proof.
  destruct (Z_lt_ge_dec n 0) as [Hn|Hn].
  - rewrite str_neg by exact Hn.
    pose proof (proj1 (str_nonneg_spec (- n) ltac:(lia)) 0) as P.
    pose proof (str_nonneg_nonempty (- n) ltac:(lia)) as Ne.
    destruct (str (- n)) as [|c rest]; [congruence|].
    cbn [parse_int]. rewrite P. cbn [option_map]. f_equal. lia.
  - apply parse_int_digits; [apply str_nonneg_nonempty; lia|].
    rewrite (proj1 (str_nonneg_spec n ltac:(lia)) 0). f_equal.
Qed.

Lemma fastBigIntStrBase10_returns n J :
  n <> 0 ->
  (forall j, (j < J)%nat -> bit_length (ten_pow2 j) * 2 < bit_length n) ->
  bit_length n <= bit_length (ten_pow2 J) * 2 ->
  lead_ok (S J) (Z.abs n) ->
  exists D I, forall d i, (D <= d)%nat -> (I <= i)%nat ->
    fastBigIntStrBase10 d i (VInt n) = Ok (str n).
Proof.
  intros Hn H1 H2 Hok. rewrite <- (bit_length_abs n) in H1, H2.
  destruct (strBase10_positive_returns (Z.abs n) J ltac:(lia) H1 H2 Hok) as (D & I & R).
  exists D, I. intros d i Hd Hi. unfold fastBigIntStrBase10.
  cbn [isinstance_int negb int_of]. rewrite (proj2 (Z.eqb_neq n 0)) by exact Hn.
  destruct (Z.ltb_spec n 0) as [Hneg|Hpos].
  - rewrite Z.abs_neq in R by lia. rewrite R by assumption. cbn [bind].
    rewrite (str_neg n Hneg). reflexivity.
  - rewrite Z.abs_eq in R by lia. apply R; assumption.
Qed.

Lemma fastBigIntStrBase10_zero d i : fastBigIntStrBase10 d i (VInt 0) = Ok (str 0).
Proof. reflexivity. Qed.

Lemma ten_pow2_bit_lengths :
  bit_length (ten_pow2 11) = 6804 /\ bit_length (ten_pow2 12) = 13607 /\
  bit_length (ten_pow2 13) = 27214.
Proof.
  destruct c3_bit_lengths as (_ & B12 & B13 & _).
  destruct c3_chain_facts as (Hbits & _).
  split; [|split; assumption].
  apply (f_equal (fun l => nth 11 l 0)) in Hbits. exact Hbits.
Qed.

Lemma lead_ok_54427 a :
  0 <= a -> bit_length a <= 54427 ->
  forall J,
    (forall j, (j < J)%nat -> bit_length (ten_pow2 j) * 2 < bit_length a) ->
    bit_length a <= bit_length (ten_pow2 J) * 2 ->
    lead_ok (S J) a.
Proof.
  intros Ha Hbits J H1 H2.
  destruct ten_pow2_bit_lengths as (B11 & B12 & B13).
  destruct (Z_lt_ge_dec (bit_length a) STRINGIFY_BAILOUT_BITS) as [Hs|Hb];
    [apply lead_ok_small; exact Hs|].
  unfold STRINGIFY_BAILOUT_BITS in *.
  assert (HJ : J = 12%nat \/ J = 13%nat).
  { destruct (le_lt_dec J 11) as [Hle|Hgt].
    - pose proof (ten_pow2_bit_length_mono J 11 Hle). lia.
    - destruct (le_lt_dec 14 J) as [Hge|Hlt]; [|lia].
      pose proof (H1 13%nat ltac:(lia)). lia. }
  pose proof (ten_pow2_pos 12) as P12. pose proof (ten_pow2_pos 13) as P13.
  destruct HJ as [-> | ->].
  - right. split; [lia|]. apply lead_ok_small.
    pose proof (bit_length_div a (ten_pow2 12) Ha P12).
    unfold STRINGIFY_BAILOUT_BITS. lia.
  - right. split; [lia|].
    pose proof (bit_length_div a (ten_pow2 13) Ha P13) as Q1.
    assert (Hq : 0 <= a / ten_pow2 13) by (apply Z.div_pos; lia).
    right. split; [lia|]. apply lead_ok_small.
    pose proof (bit_length_div (a / ten_pow2 13) (ten_pow2 12) Hq P12).
    unfold STRINGIFY_BAILOUT_BITS. lia.
Qed.

Lemma bit_length_mul_ge a b :
  0 < a -> 0 < b -> bit_length a + bit_length b - 1 <= bit_length (a * b).
Proof.
  intros Ha Hb.
  destruct (bit_length_pos_bounds a Ha) as (A1 & A2 & _).
  destruct (bit_length_pos_bounds b Hb) as (B1 & B2 & _).
  apply bit_length_ge_iff; [lia|]. rewrite Z.abs_eq by nia.
  replace (bit_length a + bit_length b - 1 - 1)
    with ((bit_length a - 1) + (bit_length b - 1)) by lia.
  rewrite Z.pow_add_r by lia.
  assert (0 < 2 ^ (bit_length a - 1)) by (apply Z.pow_pos_nonneg; lia).
  assert (0 < 2 ^ (bit_length b - 1)) by (apply Z.pow_pos_nonneg; lia).
  nia.
Qed.

Lemma ten_pow2_nat j : ten_pow2 j = 10 ^ Z.of_nat (2 ^ j).
Proof. rewrite ten_pow2_spec, Nat2Z.inj_pow. reflexivity. Qed.

(** A power of ten handed to the helper as a remainder is printed with one
    digit more than the width. *)
Lemma pad_ten_pow2 (k : nat) :
  pad (Z.of_nat k) (str (ten_pow2 k))
    = (str 1 ++ fixed_digits (2 ^ k) 0 EmptyString)%string.
Proof.
  pose proof (ten_pow2_pos k) as Hp.
  assert (E : str (ten_pow2 k) = (str 1 ++ fixed_digits (2 ^ k) 0 EmptyString)%string).
  { rewrite <- (str_concat 1 0 (2 ^ k)).
    - rewrite <- ten_pow2_nat. f_equal. lia.
    - lia.
    - rewrite <- ten_pow2_nat. lia. }
  unfold pad.
  replace (Z.to_nat (Z.shiftl 1 (Z.of_nat k) - Z.of_nat (String.length (str (ten_pow2 k)))))
    with O.
  - cbn [zeros append]. exact E.
  - rewrite E, string_length_app, fixed_digits_length.
    rewrite Z.shiftl_1_l, <- Nat2Z.inj_pow with (n := 2%nat).
    change (String.length (str 1)) with 1%nat. lia.
Qed.

(** What the helper assembles when the division of [(2t+1) * 10^(2^k)] by
    [10^(2^k)] returns [(2t, 10^(2^k))]: the digits of
    [(20t+1) * 10^(2^k) * 10^(2^(k+1))]. *)
Lemma defect_chars (k : nat) t :
  0 < t ->
  exists j,
    ((pad (Z.of_nat k) (str (2 * t)) ++ pad (Z.of_nat k) (str (ten_pow2 k)))
     ++ pad (Z.of_nat (S k)) (str 0))%string
    = (zeros j ++ str ((20 * t + 1) * ten_pow2 k * ten_pow2 (S k)))%string.
Proof.
  intros Ht.
  pose proof (ten_pow2_pos k) as Hp. pose proof (ten_pow2_pos (S k)) as Hp'.
  rewrite pad_ten_pow2, (pad_str_fixed_digits (S k) 0) by lia.
  eexists. unfold pad at 1.
  rewrite !string_app_assoc. f_equal.
  rewrite <- (string_app_assoc (str (2 * t)) (str 1)).
  change (str 1) with (fixed_digits 1 1 EmptyString).
  rewrite <- (str_concat (2 * t) 1 1) by (change (10 ^ Z.of_nat 1) with 10; lia).
  change (10 ^ Z.of_nat 1) with 10.
  rewrite <- (string_app_assoc (str _)).
  rewrite <- str_concat by (rewrite <- ?ten_pow2_nat; lia).
  rewrite <- str_concat; [|rewrite <- ?ten_pow2_nat; nia|rewrite <- ?ten_pow2_nat; lia].
  rewrite <- !ten_pow2_nat. f_equal. ring.
Qed.

Lemma strBase10_defect_returns (t : Z) :
  0 < t ->
  bit_length ((2 * t + 1) * ten_pow2 12) = 27215 ->
  bit_length ((2 * t + 1) * ten_pow2 12 * ten_pow2 13) <= 54428 ->
  exists D I, forall d i, (D <= d)%nat -> (I <= i)%nat ->
    strBase10_positive d i ((2 * t + 1) * ten_pow2 12 * ten_pow2 13)
      = Ok (str ((20 * t + 1) * ten_pow2 12 * ten_pow2 13)).
Proof.
  intros Ht Bl Bn.
  destruct ten_pow2_bit_lengths as (B11 & B12 & B13).
  destruct c3_chain_facts as (_ & _ & Hev).
  pose proof (ten_pow2_pos 12) as P12. pose proof (ten_pow2_pos 13) as P13.
  set (lhs := (2 * t + 1) * ten_pow2 12) in *.
  set (n := lhs * ten_pow2 13) in *.
  assert (Hlhs : 0 < lhs) by (unfold lhs; nia).
  assert (Hn : 0 < n) by (unfold n; nia).
  assert (Bn' : 27215 <= bit_length n).
  { rewrite <- Bl. apply bit_length_mono. unfold n. nia. }
  assert (Bt : bit_length (2 * t) <= 13609).
  { pose proof (bit_length_mul_ge (2 * t + 1) (ten_pow2 12) ltac:(lia) P12) as M.
    fold lhs in M. pose proof (bit_length_mono (2 * t) (2 * t + 1) ltac:(lia)). lia. }
  (* the table *)
  assert (Htab : forall i, (13 <= i)%nat ->
            build_powers i n [10] = Ok (map ten_pow2 (seq 0 14))).
  { intros i Hi. change [10] with (map ten_pow2 (seq 0 1)).
    apply (build_powers_table n 13) with (k := 13%nat) (j := 0%nat); [| |reflexivity|exact Hi].
    - intros j Hj. pose proof (ten_pow2_bit_length_mono j 12 ltac:(lia)). lia.
    - lia. }
  (* the division at the top is exact *)
  destruct (kernel_returns_cases n (ten_pow2 13) ltac:(lia) P13)
    as (q1 & r1 & (D1 & I1 & R1) & Heq1 & _ & Hex1 & _).
  assert (Hbn : bit_length n <= 2 * bit_length (ten_pow2 13)) by lia.
  destruct (Hex1 (or_intror Hbn)) as [Eq1 Er1].
  assert (q1 = lhs /\ r1 = 0) as [-> ->].
  { subst q1 r1. unfold n. rewrite Z.div_mul, Z.mod_mul by lia. split; reflexivity. }
  (* the division below it leaves the divisor as the remainder *)
  destruct (longdiv_even_divisor (ten_pow2 12) t P12 Hev
              ltac:(unfold DIVMOD_BAILOUT_BITS; lia) ltac:(lia)
              ltac:(fold lhs; lia)) as (D2 & I2 & R2).
  fold lhs in R2.
  destruct (defect_chars 12 t Ht) as (j & Echars).
  destruct (str_pos_head ((20 * t + 1) * ten_pow2 12 * ten_pow2 13) ltac:(nia))
    as (c & rest & Es & Hc).
  exists (S (S (Nat.max D1 D2))), (Nat.max 13 (Nat.max I1 I2)).
  intros d i Hd Hi. unfold strBase10_positive.
  rewrite Htab by lia. cbn [bind]. rewrite length_map, length_seq.
  destruct d as [|d]; [lia|]. destruct d as [|d]; [lia|].
  rewrite helper_step by (unfold STRINGIFY_BAILOUT_BITS; lia).
  replace (Z.of_nat 14 - 1) with (Z.of_nat 13) by lia.
  rewrite py_index_table by lia. cbn [bind]. rewrite Nat2Z.id.
  rewrite R1 by lia. cbn [bind].
  rewrite helper_step by (unfold STRINGIFY_BAILOUT_BITS; lia).
  replace (Z.of_nat 13 - 1) with (Z.of_nat 12) by lia.
  rewrite py_index_table by lia. cbn [bind]. rewrite Nat2Z.id.
  rewrite R2 by lia. cbn [bind].
  rewrite (helper_bailout d i (2 * t)) by (unfold STRINGIFY_BAILOUT_BITS; lia).
  cbn [bind].
  rewrite (helper_bailout d i (ten_pow2 12)) by (unfold STRINGIFY_BAILOUT_BITS; lia).
  cbn [bind].
  rewrite (helper_bailout (S d) i 0) by first [reflexivity|lia].
  cbn [bind]. rewrite Echars, Es. apply strip_zeros_prefix. exact Hc.
Qed.

Lemma ten_pow2_12_13 : ten_pow2 12 * ten_pow2 13 = 10 ^ 12288.
Proof.
  rewrite !ten_pow2_spec.
  change (2 ^ Z.of_nat 12) with 4096. change (2 ^ Z.of_nat 13) with 8192.
  rewrite <- Z.pow_add_r by discriminate.
  replace (4096 + 8192) with 12288 by reflexivity. reflexivity.
Qed.

(** * Further properties of the code *)

(** X1: [_splitHiLo(num, bitIdx)] with a nonnegative bit index splits any
    integer, negative ones included, into a floor quotient [hi] and a low
    part [lo] of [bitIdx] bits, and [(hi << bitIdx) | lo] puts it together
    again. *)
Theorem X1_splitHiLo_splits_and_rejoins (num bitIdx : Z) :
  0 <= bitIdx ->
  let '(hi, lo) := _splitHiLo num bitIdx in
  num = hi * 2 ^ bitIdx + lo /\ 0 <= lo < 2 ^ bitIdx /\
  hi = num / 2 ^ bitIdx /\
  Z.lor (Z.shiftl hi bitIdx) lo = num.
Proof.
  intros Hb.
  pose proof (splitHiLo_spec num bitIdx Hb) as S.
  pose proof (split_rejoin num bitIdx Hb) as R.
  destruct (_splitHiLo num bitIdx) as [hi lo]. cbn [fst snd] in R.
  destruct S as (S1 & S2 & S3 & _).
  split; [exact S1|]. split; [exact S2|]. split; [exact S3|exact R].
Qed.

Lemma X1_splitHiLo_witness :
  0 <= 3 /\
  let '(hi, lo) := _splitHiLo (-45) 3 in
  -45 = hi * 2 ^ 3 + lo /\ 0 <= lo < 2 ^ 3 /\ hi = -45 / 2 ^ 3 /\
  Z.lor (Z.shiftl hi 3) lo = -45.
Proof.
  assert (H : 0 <= 3) by discriminate.
  split; [exact H|]. exact (X1_splitHiLo_splits_and_rejoins (-45) 3 H).
Defined.

(** X2: for a nonnegative dividend and a positive divisor
    [_divModPositiveArgs] returns a pair [(q, r)] with [m = q*n + r] and
    [0 <= r <= n].  The pair is the one of the builtin [divmod] whenever the
    divisor is below the bail-out size or the dividend has at most twice the
    bits of the divisor; in every other case it is that pair too, or
    [(m // n - 1, n)] for a dividend that is a multiple of the divisor. *)
Theorem X2_kernel_divmod_or_full_remainder (m n : Z) :
  0 <= m -> 0 < n ->
  exists q r,
    div_returns m n q r /\ q * n + r = m /\ 0 <= r <= n /\
    (bit_length n < DIVMOD_BAILOUT_BITS \/ bit_length m <= 2 * bit_length n ->
     divmod m n = Ok (q, r)) /\
    (divmod m n = Ok (q, r) \/ (m mod n = 0 /\ q = m / n - 1 /\ r = n)).
Proof.
  intros Hm Hn.
  destruct (kernel_returns_cases m n Hm Hn) as (q & r & Hret & Heq & Hr & Hex & Hc).
  assert (Hd : divmod m n = Ok (m / n, m mod n)).
  { unfold divmod. rewrite (proj2 (Z.eqb_neq n 0)) by lia. reflexivity. }
  exists q, r. split; [exact Hret|]. split; [exact Heq|]. split; [exact Hr|]. split.
  - intros H. destruct (Hex H) as [-> ->]. exact Hd.
  - destruct Hc as [[-> ->]|Hfull]; [left; exact Hd|right; exact Hfull].
Qed.

Lemma X2_kernel_witness :
  (0 <= 47 /\ 0 < 5) /\
  exists q r,
    div_returns 47 5 q r /\ q * 5 + r = 47 /\ 0 <= r <= 5 /\
    (bit_length 5 < DIVMOD_BAILOUT_BITS \/ bit_length 47 <= 2 * bit_length 5 ->
     divmod 47 5 = Ok (q, r)) /\
    (divmod 47 5 = Ok (q, r) \/ (47 mod 5 = 0 /\ q = 47 / 5 - 1 /\ r = 5)).
Proof.
  assert (H1 : 0 <= 47) by discriminate.
  assert (H2 : 0 < 5) by reflexivity.
  split; [split; [exact H1|exact H2]|].
  exact (X2_kernel_divmod_or_full_remainder 47 5 H1 H2).
Defined.

(** X3: with a positive divisor no run of [_divModPositiveArgs] raises a
    Python exception, whatever the sign of the dividend: at every budget the
    call either returns a pair with [m = q*n + r] (and [0 <= r <= n] for a
    nonnegative dividend) or stops on a budget of the model. *)
Theorem X3_kernel_raises_nothing (d i : nat) (m n : Z) :
  0 < n ->
  match _divModPositiveArgs d i m n with
  | Ok (q, r) => q * n + r = m /\ (0 <= m -> 0 <= r <= n)
  | Err e => budget_error e = true
  end.
Proof.
  intros Hn.
  destruct (kernel_returns m n Hn) as (q & r & Hret & Heq & Hr & _).
  pose proof (kernel_settled_returns d i m n q r Hret) as S.
  destruct (_divModPositiveArgs d i m n) as [[q' r']|e].
  - specialize (S I). apply Ok_eq_inv in S. apply pair_eq_inv in S.
    destruct S as [-> ->]. split; [exact Heq|exact Hr].
  - destruct (budget_error e) eqn:E; [reflexivity|].
    specialize (S E). discriminate S.
Qed.

Lemma X3_kernel_witness :
  0 < 5 /\
  match _divModPositiveArgs 0 0 (-47) 5 with
  | Ok (q, r) => q * 5 + r = -47 /\ (0 <= -47 -> 0 <= r <= 5)
  | Err e => budget_error e = true
  end.
Proof.
  assert (H : 0 < 5) by reflexivity.
  split; [exact H|]. exact (X3_kernel_raises_nothing 0 0 (-47) 5 H).
Defined.

(** X4: in the branch for operands of equal bit length the loop
    [while r >= n] runs at most once: an iteration budget of one is enough,
    the quotient is 0 or 1, and the result is the one of [divmod]. *)
Theorem X4_equal_length_one_subtraction (d i : nat) (m n : Z) :
  0 <= m -> 0 < n -> DIVMOD_BAILOUT_BITS <= bit_length n ->
  bit_length m = bit_length n -> (1 <= i)%nat ->
  _divModPositiveArgs d i m n = Ok (if m >=? n then (1, m - n) else (0, m)) /\
  _divModPositiveArgs d i m n = divmod m n.
Proof.
  intros Hm Hn Hbig Hlen Hi.
  destruct (bit_length_pos_bounds n Hn) as (K1 & Nlo & Nhi).
  assert (Hm0 : 0 < m).
  { destruct (Z.eq_dec m 0) as [->|]; [|lia].
    change (bit_length 0) with 0 in Hlen. unfold DIVMOD_BAILOUT_BITS in Hbig. lia. }
  destruct (bit_length_pos_bounds m Hm0) as (_ & Mlo & Mhi).
  rewrite Hlen in Mlo, Mhi.
  assert (E2 : 2 ^ bit_length n = 2 * 2 ^ (bit_length n - 1)).
  { replace (bit_length n) with (1 + (bit_length n - 1)) at 1 by lia.
    rewrite Z.pow_add_r by lia. reflexivity. }
  assert (Hrun : _divModPositiveArgs d i m n
                 = Ok (if m >=? n then (1, m - n) else (0, m))).
  { assert (Hstep : forall self, kernel_step self i m n
                      = Ok (if m >=? n then (1, m - n) else (0, m))).
    { intros self. rewrite step_c by assumption.
      destruct i as [|i]; [lia|]. cbn [while_ge].
      destruct (Z.geb_spec m n) as [Hge|Hlt]; [|reflexivity].
      change (0 + 1) with 1.
      destruct i; cbn [while_ge];
        rewrite Z.geb_leb, (proj2 (Z.leb_gt _ _)) by lia; reflexivity. }
    destruct d; [rewrite kernel_unfold_O|rewrite kernel_unfold_S]; apply Hstep. }
  split; [exact Hrun|]. rewrite Hrun. unfold divmod.
  rewrite (proj2 (Z.eqb_neq n 0)) by lia. f_equal.
  destruct (Z.geb_spec m n) as [Hge|Hlt].
  - apply divmod_unique; [exact Hn|lia|lia].
  - apply divmod_unique; [exact Hn|lia|lia].
Qed.

Lemma X4_equal_length_witness :
  (0 <= 2 ^ 9999 + 1 /\ 0 < 2 ^ 9999 /\
   DIVMOD_BAILOUT_BITS <= bit_length (2 ^ 9999) /\
   bit_length (2 ^ 9999 + 1) = bit_length (2 ^ 9999) /\ (1 <= 1)%nat) /\
  _divModPositiveArgs 0 1 (2 ^ 9999 + 1) (2 ^ 9999)
    = Ok (if 2 ^ 9999 + 1 >=? 2 ^ 9999 then (1, 2 ^ 9999 + 1 - 2 ^ 9999)
          else (0, 2 ^ 9999 + 1)) /\
  _divModPositiveArgs 0 1 (2 ^ 9999 + 1) (2 ^ 9999)
    = divmod (2 ^ 9999 + 1) (2 ^ 9999).
Proof.
  assert (H1 : 0 <= 2 ^ 9999 + 1) by (apply Z.leb_le; vm_compute; reflexivity).
  assert (H2 : 0 < 2 ^ 9999) by (apply Z.ltb_lt; vm_compute; reflexivity).
  assert (H3 : DIVMOD_BAILOUT_BITS <= bit_length (2 ^ 9999))
    by (apply Z.leb_le; vm_compute; reflexivity).
  assert (H4 : bit_length (2 ^ 9999 + 1) = bit_length (2 ^ 9999))
    by (apply Z.eqb_eq; vm_compute; reflexivity).
  assert (H5 : (1 <= 1)%nat) by apply le_n.
  exact (conj (conj H1 (conj H2 (conj H3 (conj H4 H5))))
           (X4_equal_length_one_subtraction 0 1 (2 ^ 9999 + 1) (2 ^ 9999)
              H1 H2 H3 H4 H5)).
Defined.

(** X5: the long-division branch (dividend with more than twice the bits of
    the divisor) ends its loop when the working remainder equals the
    divisor.  For every even divisor [n] of at least 10000 bits and every
    odd multiple [(2t+1) * n] with [2 * bit_length n + 1] bits the call
    returns [(2t, n)], where [divmod] gives [(2t+1, 0)]; no budget makes the
    two agree. *)
Theorem X5_longdiv_remainder_equals_divisor (n t : Z) :
  0 < n -> Z.even n = true -> DIVMOD_BAILOUT_BITS <= bit_length n -> 0 <= t ->
  bit_length ((2 * t + 1) * n) = 2 * bit_length n + 1 ->
  div_returns ((2 * t + 1) * n) n (2 * t) n /\
  divmod ((2 * t + 1) * n) n = Ok (2 * t + 1, 0) /\
  forall d i,
    _divModPositiveArgs d i ((2 * t + 1) * n) n <> divmod ((2 * t + 1) * n) n.
Proof.
  intros Hn Hev Hbig Ht Hlen.
  pose proof (longdiv_even_divisor n t Hn Hev Hbig Ht Hlen) as Hret.
  assert (Hd : divmod ((2 * t + 1) * n) n = Ok (2 * t + 1, 0)).
  { unfold divmod. rewrite (proj2 (Z.eqb_neq n 0)) by lia.
    rewrite Z.div_mul, Z.mod_mul by lia. reflexivity. }
  split; [exact Hret|]. split; [exact Hd|].
  intros d i E. rewrite Hd in E.
  pose proof (kernel_settled_returns d i _ n _ _ Hret) as S.
  rewrite E in S. specialize (S I).
  apply Ok_eq_inv, pair_eq_inv in S. lia.
Qed.

Lemma X5_longdiv_witness :
  (0 < 2 ^ 9999 /\ Z.even (2 ^ 9999) = true /\
   DIVMOD_BAILOUT_BITS <= bit_length (2 ^ 9999) /\ 0 <= 2 ^ 10000 /\
   bit_length ((2 * 2 ^ 10000 + 1) * 2 ^ 9999) = 2 * bit_length (2 ^ 9999) + 1) /\
  div_returns ((2 * 2 ^ 10000 + 1) * 2 ^ 9999) (2 ^ 9999) (2 * 2 ^ 10000) (2 ^ 9999) /\
  divmod ((2 * 2 ^ 10000 + 1) * 2 ^ 9999) (2 ^ 9999) = Ok (2 * 2 ^ 10000 + 1, 0) /\
  forall d i,
    _divModPositiveArgs d i ((2 * 2 ^ 10000 + 1) * 2 ^ 9999) (2 ^ 9999)
      <> divmod ((2 * 2 ^ 10000 + 1) * 2 ^ 9999) (2 ^ 9999).
Proof.
  assert (H1 : 0 < 2 ^ 9999) by (apply Z.ltb_lt; vm_compute; reflexivity).
  assert (H2 : Z.even (2 ^ 9999) = true) by (vm_compute; reflexivity).
  assert (H3 : DIVMOD_BAILOUT_BITS <= bit_length (2 ^ 9999))
    by (apply Z.leb_le; vm_compute; reflexivity).
  assert (H4 : 0 <= 2 ^ 10000) by (apply Z.leb_le; vm_compute; reflexivity).
  assert (H5 : bit_length ((2 * 2 ^ 10000 + 1) * 2 ^ 9999)
               = 2 * bit_length (2 ^ 9999) + 1)
    by (apply Z.eqb_eq; vm_compute; reflexivity).
  exact (conj (conj H1 (conj H2 (conj H3 (conj H4 H5))))
           (X5_longdiv_remainder_equals_divisor (2 ^ 9999) (2 ^ 10000)
              H1 H2 H3 H4 H5)).
Defined.

(** X6: the sign handling of [fastBigIntDivMod].  For integer arguments
    with a divisor other than zero the call returns a pair [(q, r)] with
    [m = q*n + r].  The pair is the one of the builtin floor [divmod]
    whenever the signs differ, the dividend is zero, the divisor is below
    the bail-out size or the dividend has at most twice the bits of the
    divisor; the only other outcome, for a dividend that is a multiple of
    the divisor, is [(m // n - 1, n)]. *)
Theorem X6_fastBigIntDivMod_signs (vm vn : value) :
  isinstance_int vm = true -> isinstance_int vn = true -> int_of vn <> 0 ->
  exists q r,
    (exists D I, forall d i, (D <= d)%nat -> (I <= i)%nat ->
       fastBigIntDivMod d i vm vn = Ok (q, r)) /\
    q * int_of vn + r = int_of vm /\
    ((0 <= int_of vm /\ int_of vn < 0) \/ (int_of vm <= 0 /\ 0 < int_of vn) \/
     bit_length (int_of vn) < DIVMOD_BAILOUT_BITS \/
     bit_length (int_of vm) <= 2 * bit_length (int_of vn) ->
     divmod (int_of vm) (int_of vn) = Ok (q, r)) /\
    (divmod (int_of vm) (int_of vn) = Ok (q, r) \/
     (int_of vm mod int_of vn = 0 /\ q = int_of vm / int_of vn - 1 /\ r = int_of vn)).
Proof.
  intros Tm Tn Hn0.
  set (m := int_of vm) in *. set (n := int_of vn) in *.
  destruct (kernel_returns_cases (Z.abs m) (Z.abs n)) as
    (q0 & r0 & (D & I & Hret) & Heq & Hr & Hex & _); [lia|lia|].
  rewrite !bit_length_abs in Hex.
  assert (Hzero : m = 0 -> r0 = 0).
  { intros Z0. rewrite Z0 in Hex. change (Z.abs 0) with 0 in Hex.
    destruct Hex as [_ ->].
    - right. change (bit_length 0) with 0. pose proof (bit_length_nonneg n). lia.
    - apply Z.mod_0_l. lia. }
  destruct (sign_fixup m n q0 r0 Hn0 Heq Hr Hzero) as (q & r & E & Eq & Ex & Cs).
  assert (Hd : divmod m n = Ok (m / n, m mod n)).
  { unfold divmod. rewrite (proj2 (Z.eqb_neq n 0) Hn0). reflexivity. }
  exists q, r. split; [|split; [exact Eq|split]].
  - exists D, I. intros d i Hd' Hi.
    rewrite (wrapper_result d i vm vn q0 r0 Tm Tn (Hret d i Hd' Hi)).
    fold m n. exact E.
  - intros H.
    assert (Hqr : q = m / n /\ r = m mod n).
    { destruct H as [H|[H|H]];
        [apply Ex; left; exact H|apply Ex; right; left; exact H|].
      destruct (Hex H) as [_ H2]. apply Ex. right. right.
      rewrite H2. apply Z.mod_pos_bound. lia. }
    destruct Hqr as [-> ->]. exact Hd.
  - destruct Cs as [[-> ->]|F]; [left; exact Hd|right; exact F].
Qed.

Lemma X6_fastBigIntDivMod_witness :
  (isinstance_int (VInt (-47)) = true /\ isinstance_int (VInt 5) = true /\
   int_of (VInt 5) <> 0) /\
  exists q r,
    (exists D I, forall d i, (D <= d)%nat -> (I <= i)%nat ->
       fastBigIntDivMod d i (VInt (-47)) (VInt 5) = Ok (q, r)) /\
    q * int_of (VInt 5) + r = int_of (VInt (-47)) /\
    ((0 <= int_of (VInt (-47)) /\ int_of (VInt 5) < 0) \/
     (int_of (VInt (-47)) <= 0 /\ 0 < int_of (VInt 5)) \/
     bit_length (int_of (VInt 5)) < DIVMOD_BAILOUT_BITS \/
     bit_length (int_of (VInt (-47))) <= 2 * bit_length (int_of (VInt 5)) ->
     divmod (int_of (VInt (-47))) (int_of (VInt 5)) = Ok (q, r)) /\
    (divmod (int_of (VInt (-47))) (int_of (VInt 5)) = Ok (q, r) \/
     (int_of (VInt (-47)) mod int_of (VInt 5) = 0 /\
      q = int_of (VInt (-47)) / int_of (VInt 5) - 1 /\ r = int_of (VInt 5))).
Proof.
  assert (H1 : isinstance_int (VInt (-47)) = true) by reflexivity.
  assert (H2 : isinstance_int (VInt 5) = true) by reflexivity.
  assert (H3 : int_of (VInt 5) <> 0) by discriminate.
  exact (conj (conj H1 (conj H2 H3))
           (X6_fastBigIntDivMod_signs (VInt (-47)) (VInt 5) H1 H2 H3)).
Defined.

(** X7: a run of [fastBigIntFloorSqrt] on a nonnegative integer never
    raises a Python exception and never returns anything but the floor
    square root: at every budget the outcome is [Z.sqrt n] or a budget of the
    model. *)
Theorem X7_floor_sqrt_every_run (d i : nat) (n : Z) :
  0 <= n ->
  match fastBigIntFloorSqrt d i (VInt n) with
  | Ok v => v = VInt (Z.sqrt n)
  | Err e => budget_error e = true
  end.
Proof.
  intros Hn. unfold fastBigIntFloorSqrt. cbn [isinstance_int negb int_of].
  rewrite (proj2 (Z.ltb_ge n 0)) by lia.
  pose proof (floorSqrt_settled_value d i n Hn) as S.
  destruct (_floorSqrtPositiveInt d i n) as [s|e]; cbn [bind]; [|exact S].
  subst s. destruct (bit_length n <=? 1) eqn:B; [|reflexivity].
  apply Z.leb_le in B. f_equal.
  assert (n < 2 ^ 1) by (rewrite <- (Z.abs_eq n) by lia; apply bit_length_le_iff; lia).
  change (2 ^ 1) with 2 in *.
  assert (n = 0 \/ n = 1) as [->| ->] by lia; reflexivity.
Qed.

Lemma X7_floor_sqrt_witness :
  0 <= 1000 /\
  match fastBigIntFloorSqrt 3 3 (VInt 1000) with
  | Ok v => v = VInt (Z.sqrt 1000)
  | Err e => budget_error e = true
  end.
Proof.
  assert (H : 0 <= 1000) by discriminate.
  exact (conj H (X7_floor_sqrt_every_run 3 3 1000 H)).
Defined.

(** X8: the Newton step of [_floorSqrtPositiveInt] needs no correction.
    For [n] of at least 8 bits the value after the step, [newton_approx n],
    is the floor square root or one above it; once the recursive call and
    the division have returned, the call returns the floor square root at
    the same budgets; and both correction loops leave at their first test,
    so that an iteration budget of zero is enough for them. *)
Theorem X8_newton_step_needs_no_correction (n : Z) :
  0 <= n -> 8 <= bit_length n ->
  Z.sqrt n <= newton_approx n <= Z.sqrt n + 1 /\
  (forall d i s q r,
     _floorSqrtPositiveInt d i (Z.shiftr n (2 * (bit_length n / 4))) = Ok s ->
     _divModPositiveArgs d i n (Z.shiftl s (bit_length n / 4)) = Ok (q, r) ->
     Z.shiftr (Z.shiftl s (bit_length n / 4) + q) 1 = newton_approx n /\
     _floorSqrtPositiveInt (S d) i n = Ok (Z.sqrt n)) /\
  (if newton_approx n * newton_approx n >? n
   then sqrt_down_loop 0 n (newton_approx n - 1)
          (newton_approx n * newton_approx n
           - Z.lor (Z.shiftl (newton_approx n - 1) 1) 1)
   else sqrt_up_loop 0 n (newton_approx n)
          (newton_approx n * newton_approx n
           + Z.lor (Z.shiftl (newton_approx n) 1) 1)) = Ok (Z.sqrt n).
Proof.
  intros Hn HB.
  destruct (newton_start n Hn HB) as (Ha & Hea & Hrange & Hbl).
  set (p := bit_length n / 4) in *.
  set (a := Z.shiftl (Z.sqrt (Z.shiftr n (2 * p))) p) in *.
  assert (Hp : 0 <= p) by (apply Z.div_pos; [apply bit_length_nonneg|lia]).
  assert (Hx : Z.sqrt n <= newton_approx n <= Z.sqrt n + 1).
  { unfold newton_approx. cbv zeta. fold p. fold a.
    rewrite Z.shiftr_div_pow2 by lia. change (2 ^ 1) with 2.
    apply (newton_step_bounds a (2 ^ p) n); try assumption.
    apply Z.pow_pos_nonneg; lia. }
  split; [exact Hx|]. split.
  - intros d i s q r Hs Hq.
    assert (Es : s = Z.sqrt (Z.shiftr n (2 * p))).
    { pose proof (floorSqrt_settled_value d i (Z.shiftr n (2 * p))
                    ltac:(apply Z.shiftr_nonneg; exact Hn)) as V.
      rewrite Hs in V. exact V. }
    subst s. fold a in Hq |- *.
    destruct (kernel_returns_cases n a Hn Ha) as (q' & r' & Hret & _ & _ & Hex & _).
    destruct (Hex (or_intror Hbl)) as [Eq' Er'].
    pose proof (kernel_settled_returns d i n a q' r' Hret) as K.
    rewrite Hq in K. specialize (K I). apply Ok_eq_inv, pair_eq_inv in K.
    destruct K as [Kq Kr]. subst q'.
    assert (Eapprox : Z.shiftr (a + q) 1 = newton_approx n).
    { unfold newton_approx. cbv zeta. fold p. fold a. rewrite Kq. reflexivity. }
    split; [exact Eapprox|].
    rewrite sqrt_unfold_step by exact HB. fold p. rewrite Hs. cbn [bind].
    fold a. rewrite Hq. cbn [bind]. cbv zeta. rewrite Eapprox.
    apply newton_correction; assumption.
  - apply newton_correction; assumption.
Qed.

Lemma X8_newton_witness :
  (0 <= 1000 /\ 8 <= bit_length 1000) /\
  Z.sqrt 1000 <= newton_approx 1000 <= Z.sqrt 1000 + 1 /\
  (forall d i s q r,
     _floorSqrtPositiveInt d i (Z.shiftr 1000 (2 * (bit_length 1000 / 4))) = Ok s ->
     _divModPositiveArgs d i 1000 (Z.shiftl s (bit_length 1000 / 4)) = Ok (q, r) ->
     Z.shiftr (Z.shiftl s (bit_length 1000 / 4) + q) 1 = newton_approx 1000 /\
     _floorSqrtPositiveInt (S d) i 1000 = Ok (Z.sqrt 1000)) /\
  (if newton_approx 1000 * newton_approx 1000 >? 1000
   then sqrt_down_loop 0 1000 (newton_approx 1000 - 1)
          (newton_approx 1000 * newton_approx 1000
           - Z.lor (Z.shiftl (newton_approx 1000 - 1) 1) 1)
   else sqrt_up_loop 0 1000 (newton_approx 1000)
          (newton_approx 1000 * newton_approx 1000
           + Z.lor (Z.shiftl (newton_approx 1000) 1) 1)) = Ok (Z.sqrt 1000).
Proof.
  assert (H1 : 0 <= 1000) by discriminate.
  assert (H2 : 8 <= bit_length 1000) by discriminate.
  exact (conj (conj H1 H2) (X8_newton_step_needs_no_correction 1000 H1 H2)).
Defined.

(** X9: the table loop of [fastBigIntStrBase10] returns for every integer:
    the table holds the powers [10^(2^j)] for [j = 0..J], where [J] is the
    first index at which twice the bit length of the power reaches the bit
    length of [n]. *)
Theorem X9_powers_table (n : Z) :
  exists J : nat,
    (forall i, (Z.to_nat (bit_length n) <= i)%nat ->
       build_powers i n [10] = Ok (map ten_pow2 (seq 0 (S J)))) /\
    (forall j, (j <= J)%nat ->
       nth j (map ten_pow2 (seq 0 (S J))) 0 = 10 ^ 2 ^ Z.of_nat j) /\
    (forall j, (j < J)%nat -> bit_length (10 ^ 2 ^ Z.of_nat j) * 2 < bit_length n) /\
    bit_length n <= bit_length (10 ^ 2 ^ Z.of_nat J) * 2.
Proof.
  destruct (build_powers_returns n) as (J & R & H1 & H2).
  exists J. split; [exact R|]. split; [|split].
  - intros j Hj.
    rewrite (nth_indep _ 0 (ten_pow2 0)) by (rewrite length_map, length_seq; lia).
    rewrite (map_nth ten_pow2 (seq 0 (S J)) 0%nat), seq_nth by lia.
    apply ten_pow2_spec.
  - intros j Hj. rewrite <- ten_pow2_spec. apply H1. exact Hj.
  - rewrite <- ten_pow2_spec. exact H2.
Qed.

(** X10: the contract of [_toBase10StringHelper], as its docstring states
    it: called with a table of the powers [10^(2^j)] and a number below
    [10^(2^digitsLog2)], it returns exactly [2^digitsLog2] characters, the
    decimal digits of the number with zeros in front. *)
Theorem X10_helper_contract (L k : nat) (x : Z) :
  (k <= L)%nat -> 0 <= x < 10 ^ 2 ^ Z.of_nat k ->
  exists s,
    (exists D I, forall d i, (D <= d)%nat -> (I <= i)%nat ->
       _toBase10StringHelper d i x (map ten_pow2 (seq 0 L)) (Z.of_nat k) = Ok s) /\
    Z.of_nat (String.length s) = 2 ^ Z.of_nat k /\
    parse_digits s 0 = Some x.
Proof.
  intros Hk Hx. rewrite <- ten_pow2_spec in Hx.
  exists (fixed_digits (2 ^ k) x EmptyString).
  split; [exact (helper_contract L k x Hk Hx)|]. split.
  - rewrite fixed_digits_length. simpl String.length.
    rewrite Nat.add_0_r, Nat2Z.inj_pow. reflexivity.
  - rewrite <- pad_str_fixed_digits by exact Hx. unfold pad.
    rewrite parse_digits_app, parse_digits_zeros.
    rewrite (proj1 (str_nonneg_spec x ltac:(lia))). reflexivity.
Qed.

Lemma X10_helper_witness :
  ((1 <= 1)%nat /\ 0 <= 42 < 10 ^ 2 ^ Z.of_nat 1) /\
  exists s,
    (exists D I, forall d i, (D <= d)%nat -> (I <= i)%nat ->
       _toBase10StringHelper d i 42 (map ten_pow2 (seq 0 1)) (Z.of_nat 1) = Ok s) /\
    Z.of_nat (String.length s) = 2 ^ Z.of_nat 1 /\
    parse_digits s 0 = Some 42.
Proof.
  assert (H1 : (1 <= 1)%nat) by apply le_n.
  assert (H2 : 0 <= 42 < 10 ^ 2 ^ Z.of_nat 1) by (split; [discriminate|reflexivity]).
  split; [split; assumption|]. exact (X10_helper_contract 1 1 42 H1 H2).
Defined.

(** X11: the loop that strips the leading zeros, on any nonempty string:
    it returns the suffix that starts at the first character other than
    ['0'], or the last character when there is none; what is dropped are
    zeros only, so the number read back stays the same. *)
Theorem X11_strip_leading_zeros (chars : string) :
  chars <> EmptyString ->
  exists (j : nat) (s : string),
    strip_leading_zeros chars = Ok s /\ chars = (zeros j ++ s)%string /\
    (s = "0"%string \/ exists c rest, s = String c rest /\ c <> "0"%char) /\
    (forall v, parse_digits chars 0 = Some v -> parse_int s = Some v).
Proof.
  intros Hne.
  assert (Hshape : exists (j : nat) (s : string),
            strip_leading_zeros chars = Ok s /\ chars = (zeros j ++ s)%string /\
            (s = "0"%string \/ exists c rest, s = String c rest /\ c <> "0"%char)).
  { induction chars as [|c rest IH]; [congruence|].
    cbn [strip_leading_zeros].
    destruct (Ascii.eqb_spec c "0") as [->|Nz].
    - destruct rest as [|c2 rest2].
      + exists O, "0"%string. split; [reflexivity|]. split; [reflexivity|left; reflexivity].
      + destruct (IH ltac:(discriminate)) as (j & s & E & Ez & Es).
        exists (S j), s. split; [exact E|]. split; [|exact Es].
        cbn [zeros append]. rewrite <- Ez. reflexivity.
    - exists O, (String c rest). split; [reflexivity|]. split; [reflexivity|].
      right. exists c, rest. split; [reflexivity|exact Nz]. }
  destruct Hshape as (j & s & E & Ez & Es).
  exists j, s. split; [exact E|]. split; [exact Ez|]. split; [exact Es|].
  intros v Hv.
  destruct (parse_strip_leading_zeros chars v Hne Hv) as (s' & E' & P).
  rewrite E in E'. apply Ok_eq_inv in E'. subst s'. exact P.
Qed.

Lemma X11_strip_witness :
  "00705"%string <> EmptyString /\
  exists (j : nat) (s : string),
    strip_leading_zeros "00705" = Ok s /\ "00705"%string = (zeros j ++ s)%string /\
    (s = "0"%string \/ exists c rest, s = String c rest /\ c <> "0"%char) /\
    (forall v, parse_digits "00705" 0 = Some v -> parse_int s = Some v).
Proof.
  assert (H : "00705"%string <> EmptyString) by discriminate.
  split; [exact H|]. exact (X11_strip_leading_zeros "00705" H).
Defined.

(** X12: [fastBigIntStrBase10] under the precondition that the docstring
    of [_toBase10StringHelper] asks for.  When the table [powers] that the
    loop builds for [abs(n)] has [abs(n) < 10^(2^len(powers))], the call
    returns [str(n)], for negative [n] too, and that string reads back as
    [n]. *)
Theorem X12_strBase10_documented_precondition (n : Z) (i0 : nat) (powers : list Z) :
  build_powers i0 (Z.abs n) [10] = Ok powers ->
  Z.abs n < 10 ^ 2 ^ Z.of_nat (List.length powers) ->
  (exists D I, forall d i, (D <= d)%nat -> (I <= i)%nat ->
     fastBigIntStrBase10 d i (VInt n) = Ok (str n)) /\
  parse_int (str n) = Some n.
Proof.
  intros Hb Hlt. split; [|apply parse_int_str].
  destruct (Z.eq_dec n 0) as [->|Hn].
  { exists O, O. intros d i _ _. apply fastBigIntStrBase10_zero. }
  destruct (build_powers_returns (Z.abs n)) as (J & R & H1 & H2).
  set (i1 := Nat.max i0 (Z.to_nat (bit_length (Z.abs n)))).
  pose proof (build_powers_mono (Z.abs n) i0 i1 [10] powers ltac:(lia) Hb) as Hb1.
  rewrite R in Hb1 by lia. apply Ok_eq_inv in Hb1. subst powers.
  rewrite length_map, length_seq in Hlt. rewrite <- ten_pow2_spec in Hlt.
  rewrite bit_length_abs in H1, H2.
  apply (fastBigIntStrBase10_returns n J Hn H1 H2).
  apply lead_ok_below. lia.
Qed.

Lemma X12_strBase10_witness :
  (build_powers 5 (Z.abs (-1234)) [10] = Ok [10; 100] /\
   Z.abs (-1234) < 10 ^ 2 ^ Z.of_nat (List.length [10; 100])) /\
  (exists D I, forall d i, (D <= d)%nat -> (I <= i)%nat ->
     fastBigIntStrBase10 d i (VInt (-1234)) = Ok (str (-1234))) /\
  parse_int (str (-1234)) = Some (-1234).
Proof.
  assert (H1 : build_powers 5 (Z.abs (-1234)) [10] = Ok [10; 100]) by reflexivity.
  assert (H2 : Z.abs (-1234) < 10 ^ 2 ^ Z.of_nat (List.length [10; 100]))
    by reflexivity.
  exact (conj (conj H1 H2)
           (X12_strBase10_documented_precondition (-1234) 5 [10; 100] H1 H2)).
Defined.

(** X13: [fastBigIntStrBase10] agrees with [str] on every integer of at
    most 54427 bits: each division that the helper makes on such a number
    has a dividend of at most twice the bits of its divisor. *)
Theorem X13_strBase10_up_to_54427_bits (n : Z) :
  bit_length n <= 54427 ->
  (exists D I, forall d i, (D <= d)%nat -> (I <= i)%nat ->
     fastBigIntStrBase10 d i (VInt n) = Ok (str n)) /\
  parse_int (str n) = Some n.
Proof.
  intros Hbits. split; [|apply parse_int_str].
  destruct (Z.eq_dec n 0) as [->|Hn].
  { exists O, O. intros d i _ _. apply fastBigIntStrBase10_zero. }
  destruct (build_powers_returns (Z.abs n)) as (J & _ & H1 & H2).
  pose proof (lead_ok_54427 (Z.abs n) (Z.abs_nonneg n)
                ltac:(rewrite bit_length_abs; exact Hbits) J H1 H2) as Hok.
  rewrite bit_length_abs in H1, H2.
  exact (fastBigIntStrBase10_returns n J Hn H1 H2 Hok).
Qed.

Lemma X13_strBase10_witness :
  bit_length (-12345) <= 54427 /\
  (exists D I, forall d i, (D <= d)%nat -> (I <= i)%nat ->
     fastBigIntStrBase10 d i (VInt (-12345)) = Ok (str (-12345))) /\
  parse_int (str (-12345)) = Some (-12345).
Proof.
  assert (H : bit_length (-12345) <= 54427) by discriminate.
  exact (conj H (X13_strBase10_up_to_54427_bits (-12345) H)).
Defined.

(** X14: at 54428 bits the printer returns wrong digits.  For every [t > 0]
    for which [(2t+1) * 10^4096] has 27215 bits and [(2t+1) * 10^12288] at
    most 54428, [fastBigIntStrBase10((2t+1) * 10^12288)] returns the decimal
    string of [(20t+1) * 10^12288]: the second division of the helper runs
    in the long-division branch and hands back the remainder [10^4096],
    which is printed with 4097 digits. *)
Theorem X14_strBase10_wrong_digits (t : Z) :
  0 < t ->
  bit_length ((2 * t + 1) * ten_pow2 12) = 27215 ->
  bit_length ((2 * t + 1) * ten_pow2 12 * ten_pow2 13) <= 54428 ->
  ten_pow2 12 * ten_pow2 13 = 10 ^ 12288 /\
  (exists D I, forall d i, (D <= d)%nat -> (I <= i)%nat ->
     fastBigIntStrBase10 d i (VInt ((2 * t + 1) * ten_pow2 12 * ten_pow2 13))
       = Ok (str ((20 * t + 1) * ten_pow2 12 * ten_pow2 13))) /\
  parse_int (str ((20 * t + 1) * ten_pow2 12 * ten_pow2 13))
    = Some ((20 * t + 1) * ten_pow2 12 * ten_pow2 13) /\
  (20 * t + 1) * ten_pow2 12 * ten_pow2 13
    <> (2 * t + 1) * ten_pow2 12 * ten_pow2 13 /\
  str ((20 * t + 1) * ten_pow2 12 * ten_pow2 13)
    <> str ((2 * t + 1) * ten_pow2 12 * ten_pow2 13).
Proof.
  intros Ht Bl Bn.
  pose proof (ten_pow2_pos 12) as P12. pose proof (ten_pow2_pos 13) as P13.
  destruct (strBase10_defect_returns t Ht Bl Bn) as (D & I & R).
  set (n := (2 * t + 1) * ten_pow2 12 * ten_pow2 13) in *.
  set (v := (20 * t + 1) * ten_pow2 12 * ten_pow2 13) in *.
  assert (Hn : 0 < n) by (unfold n; nia).
  assert (Hne : v <> n).
  { unfold v, n. intros E.
    assert (0 < ten_pow2 12 * ten_pow2 13) by nia.
    assert (E' : (20 * t + 1) * (ten_pow2 12 * ten_pow2 13)
                 = (2 * t + 1) * (ten_pow2 12 * ten_pow2 13)) by lia.
    apply Z.mul_reg_r in E'; lia. }
  split; [exact ten_pow2_12_13|]. split; [|split; [apply parse_int_str|split; [exact Hne|]]].
  - exists D, I. intros d i Hd Hi. unfold fastBigIntStrBase10.
    cbn [isinstance_int negb int_of].
    rewrite (proj2 (Z.eqb_neq n 0)) by lia.
    rewrite (proj2 (Z.ltb_ge n 0)) by lia. apply R; assumption.
  - intros E. apply Hne.
    pose proof (parse_int_str v) as Pv. rewrite E, parse_int_str in Pv.
    congruence.
Qed.

Lemma X14_strBase10_witness :
  (0 < c3_t /\
   bit_length ((2 * c3_t + 1) * ten_pow2 12) = 27215 /\
   bit_length ((2 * c3_t + 1) * ten_pow2 12 * ten_pow2 13) <= 54428) /\
  ten_pow2 12 * ten_pow2 13 = 10 ^ 12288 /\
  (exists D I, forall d i, (D <= d)%nat -> (I <= i)%nat ->
     fastBigIntStrBase10 d i (VInt ((2 * c3_t + 1) * ten_pow2 12 * ten_pow2 13))
       = Ok (str ((20 * c3_t + 1) * ten_pow2 12 * ten_pow2 13))) /\
  parse_int (str ((20 * c3_t + 1) * ten_pow2 12 * ten_pow2 13))
    = Some ((20 * c3_t + 1) * ten_pow2 12 * ten_pow2 13) /\
  (20 * c3_t + 1) * ten_pow2 12 * ten_pow2 13
    <> (2 * c3_t + 1) * ten_pow2 12 * ten_pow2 13 /\
  str ((20 * c3_t + 1) * ten_pow2 12 * ten_pow2 13)
    <> str ((2 * c3_t + 1) * ten_pow2 12 * ten_pow2 13).
Proof.
  assert (H1 : 0 < c3_t) by (apply Z.pow_pos_nonneg; [reflexivity|discriminate]).
  assert (H2 : bit_length ((2 * c3_t + 1) * ten_pow2 12) = 27215)
    by exact (proj1 (proj2 (proj2 (proj2 c3_bit_lengths)))).
  assert (H3 : bit_length ((2 * c3_t + 1) * ten_pow2 12 * ten_pow2 13) <= 54428).
  { pose proof (proj1 (proj2 (proj2 (proj2 (proj2 c3_bit_lengths))))) as Bn.
    unfold c3_n, c3_lhs in Bn. rewrite Bn. discriminate. }
  exact (conj (conj H1 (conj H2 H3)) (X14_strBase10_wrong_digits c3_t H1 H2 H3)).
Defined.

(** X15: in the branch K < M < 2K, with a nonnegative dividend, the
    quotient estimated from the high parts is never too small and at most
    four too large: the loop [while r < 0] runs at most four times, the
    loop [while r >= n] not at all, and once the recursive call has
    returned, an iteration budget of four gives the result of [divmod]. *)
Theorem X15_branch_d_correction_within_four (d i : nat) (m n q1 r1 : Z) :
  0 <= m -> 0 < n -> DIVMOD_BAILOUT_BITS <= bit_length n ->
  bit_length n < bit_length m < 2 * bit_length n ->
  _divModPositiveArgs d i
    (fst (_splitHiLo m (bit_length n - (bit_length m - bit_length n))))
    (fst (_splitHiLo n (bit_length n - (bit_length m - bit_length n))))
    = Ok (q1, r1) ->
  let e := bit_length n - (bit_length m - bit_length n) in
  let r := Z.lor (Z.shiftl r1 e) (snd (_splitHiLo m e)) - snd (_splitHiLo n e) * q1 in
  m / n <= q1 <= m / n + 4 /\
  (exists q' r',
     while_neg LoopD_neg 4 n q1 r = Ok (q', r') /\
     while_ge LoopD_ge 0 n q' r' = Ok (m / n, m mod n)) /\
  ((4 <= i)%nat -> _divModPositiveArgs (S d) i m n = divmod m n).
Proof.
  intros Hm Hn Hbig HM Hinner e r.
  set (k := bit_length m - bit_length n).
  assert (Hk : 1 <= k) by (unfold k; lia).
  assert (He : 1 <= e) by (unfold e; lia).
  assert (Hm0 : 0 < m).
  { destruct (Z.eq_dec m 0) as [E0|]; [|lia]. rewrite E0 in HM.
    change (bit_length 0) with 0 in HM. pose proof (bit_length_nonneg n). lia. }
  assert (Bn : bit_length n = k + e) by (unfold k, e; lia).
  assert (Bm : bit_length m = 2 * k + e) by (unfold k, e; lia).
  fold e in Hinner. rewrite !splitHiLo_fst in Hinner by lia.
  unfold r. rewrite !splitHiLo_snd by lia. clear r.
  destruct (bit_length_div_pow2 n e Hn ltac:(lia)) as (Hnh & Bnh).
  destruct (bit_length_div_pow2 m e Hm0 ltac:(lia)) as (Hmh & Bmh).
  (* the recursive call is exact *)
  destruct (kernel_returns (m / 2 ^ e) (n / 2 ^ e) Hnh)
    as (qa & ra & Hret & Heq & Hra & Hlt).
  specialize (Hra ltac:(lia)). specialize (Hlt ltac:(lia) ltac:(lia)).
  pose proof (kernel_settled_returns d i _ _ qa ra Hret) as K.
  rewrite Hinner in K. specialize (K I).
  apply Ok_eq_inv, pair_eq_inv in K. destruct K as [<- <-].
  assert (Eq1 : (q1, r1) = ((m / 2 ^ e) / (n / 2 ^ e), (m / 2 ^ e) mod (n / 2 ^ e))).
  { apply divmod_unique; [exact Hnh|exact Heq|lia]. }
  apply pair_eq_inv in Eq1. destruct Eq1 as [Eq1 Er1].
  assert (P : 0 < 2 ^ e) by (apply Z.pow_pos_nonneg; lia).
  pose proof (Z.div_mod m (2 ^ e) ltac:(lia)) as Dm.
  pose proof (Z.mod_pos_bound m (2 ^ e) P) as Bml.
  pose proof (Z.div_mod n (2 ^ e) ltac:(lia)) as Dn.
  set (r := Z.lor (Z.shiftl r1 e) (m mod 2 ^ e) - n mod 2 ^ e * q1).
  assert (Er : r = m - q1 * n).
  { unfold r. rewrite lor_shiftl_low by lia.
    set (mh := m / 2 ^ e) in *. set (nh := n / 2 ^ e) in *.
    set (ml := m mod 2 ^ e) in *. set (nl := n mod 2 ^ e) in *.
    replace (m - q1 * n) with (2 ^ e * mh + ml - q1 * (2 ^ e * nh + nl))
      by (rewrite <- Dm, <- Dn; reflexivity).
    rewrite <- Heq. ring. }
  destruct (bit_length_pos_bounds n Hn) as (_ & Nlo & Nhi).
  destruct (bit_length_pos_bounds m Hm0) as (_ & _ & Mhi).
  rewrite Bn in Nlo, Nhi. rewrite Bm in Mhi.
  destruct (quotient_estimate m n e k Hm ltac:(lia) Hk Mhi (conj Nlo Nhi))
    as (Hlo & Hhi).
  rewrite <- Eq1, <- Er in Hlo, Hhi.
  pose proof (Z.div_mod m n ltac:(lia)) as Dq.
  pose proof (Z.mod_pos_bound m n Hn) as Bq.
  assert (Hq : m / n <= q1 <= m / n + 4) by nia.
  assert (Hneg : forall j, (4 <= j)%nat ->
            while_neg LoopD_neg j n q1 r = Ok (m / n, m mod n)).
  { intros j Hj. rewrite (while_neg_within LoopD_neg n 4 Hn q1 r) by (try exact Hj; lia).
    f_equal. destruct (Z.ltb_spec r 0) as [Hr|Hr].
    - assert (Hr' : r = m + (- q1) * n) by lia.
      rewrite Hr'. rewrite Z.div_add, Z.mod_add by lia.
      f_equal. lia.
    - apply divmod_unique; [exact Hn|lia|lia]. }
  assert (Hge : forall j, while_ge LoopD_ge j n (m / n) (m mod n)
                          = Ok (m / n, m mod n)).
  { intros j. apply while_ge_exit. lia. }
  split; [exact Hq|]. split.
  - exists (m / n), (m mod n). split; [apply Hneg; apply le_n|apply Hge].
  - intros Hi. rewrite kernel_unfold_S, step_d by assumption. cbv zeta. fold e.
    rewrite !splitHiLo_fst, !splitHiLo_snd by lia.
    rewrite Hinner. cbn [bind]. fold r.
    rewrite Hneg by exact Hi. cbn [bind]. rewrite Hge.
    unfold divmod. rewrite (proj2 (Z.eqb_neq n 0)) by lia. reflexivity.
Qed.

Lemma X15_branch_d_witness :
  (0 <= 2 ^ 10000 + 1 /\ 0 < 2 ^ 9999 /\
   DIVMOD_BAILOUT_BITS <= bit_length (2 ^ 9999) /\
   bit_length (2 ^ 9999) < bit_length (2 ^ 10000 + 1) < 2 * bit_length (2 ^ 9999) /\
   _divModPositiveArgs 0 4
     (fst (_splitHiLo (2 ^ 10000 + 1)
             (bit_length (2 ^ 9999)
              - (bit_length (2 ^ 10000 + 1) - bit_length (2 ^ 9999)))))
     (fst (_splitHiLo (2 ^ 9999)
             (bit_length (2 ^ 9999)
              - (bit_length (2 ^ 10000 + 1) - bit_length (2 ^ 9999)))))
     = Ok (2, 0)) /\
  let e := bit_length (2 ^ 9999)
           - (bit_length (2 ^ 10000 + 1) - bit_length (2 ^ 9999)) in
  let r := Z.lor (Z.shiftl 0 e) (snd (_splitHiLo (2 ^ 10000 + 1) e))
           - snd (_splitHiLo (2 ^ 9999) e) * 2 in
  (2 ^ 10000 + 1) / 2 ^ 9999 <= 2 <= (2 ^ 10000 + 1) / 2 ^ 9999 + 4 /\
  (exists q' r',
     while_neg LoopD_neg 4 (2 ^ 9999) 2 r = Ok (q', r') /\
     while_ge LoopD_ge 0 (2 ^ 9999) q' r'
       = Ok ((2 ^ 10000 + 1) / 2 ^ 9999, (2 ^ 10000 + 1) mod 2 ^ 9999)) /\
  ((4 <= 4)%nat ->
   _divModPositiveArgs 1 4 (2 ^ 10000 + 1) (2 ^ 9999)
     = divmod (2 ^ 10000 + 1) (2 ^ 9999)).
Proof.
  assert (H1 : 0 <= 2 ^ 10000 + 1) by (apply Z.leb_le; vm_compute; reflexivity).
  assert (H2 : 0 < 2 ^ 9999) by (apply Z.ltb_lt; vm_compute; reflexivity).
  assert (H3 : DIVMOD_BAILOUT_BITS <= bit_length (2 ^ 9999))
    by (apply Z.leb_le; vm_compute; reflexivity).
  assert (H4 : bit_length (2 ^ 9999) < bit_length (2 ^ 10000 + 1)
               < 2 * bit_length (2 ^ 9999))
    by (split; apply Z.ltb_lt; vm_compute; reflexivity).
  assert (H5 : _divModPositiveArgs 0 4
     (fst (_splitHiLo (2 ^ 10000 + 1)
             (bit_length (2 ^ 9999)
              - (bit_length (2 ^ 10000 + 1) - bit_length (2 ^ 9999)))))
     (fst (_splitHiLo (2 ^ 9999)
             (bit_length (2 ^ 9999)
              - (bit_length (2 ^ 10000 + 1) - bit_length (2 ^ 9999)))))
     = Ok (2, 0)) by (vm_compute; reflexivity).
  exact (conj (conj H1 (conj H2 (conj H3 (conj H4 H5))))
           (X15_branch_d_correction_within_four 0 4 (2 ^ 10000 + 1) (2 ^ 9999) 2 0
              H1 H2 H3 H4 H5)).
Defined.

(** X16: the first half of the branch M == 2K, with a nonnegative
    dividend.  The quotient estimated for [a = m >> kh_ceil] is at most four
    too large, so [while r1 < 0] runs at most four times and leaves the
    remainder [a mod n].  The loop [while r1.bit_length() >= k] then runs
    at most once, and it runs exactly when that remainder has as many bits
    as [n]: it subtracts [n] from a remainder that is already below [n] and
    leaves [r1 < 0] for the second recursive call. *)
Theorem X16_branch_e_first_half (d i : nat) (m n q1 r1 : Z) :
  0 <= m -> 0 < n -> DIVMOD_BAILOUT_BITS <= bit_length n ->
  bit_length m = 2 * bit_length n ->
  _divModPositiveArgs d i
    (fst (_splitHiLo m (bit_length n)))
    (fst (_splitHiLo n (bit_length n / 2))) = Ok (q1, r1) ->
  let k := bit_length n in
  let kh_floor := k / 2 in
  let kh_ceil := k - kh_floor in
  let m_mid := fst (_splitHiLo (snd (_splitHiLo m k)) kh_ceil) in
  let n_lo := snd (_splitHiLo n kh_floor) in
  let r := Z.lor (Z.shiftl r1 kh_floor) m_mid - n_lo * q1 in
  let a := m / 2 ^ kh_ceil in
  a / n <= q1 <= a / n + 4 /\
  (exists q' r',
     while_neg LoopE_r1_neg 4 n q1 r = Ok (q', r') /\
     while_len LoopE_r1_len 1 k n q' r'
       = Ok (if 2 ^ (k - 1) <=? a mod n then (a / n + 1, a mod n - n)
             else (a / n, a mod n))) /\
  (2 ^ (k - 1) <= a mod n -> a mod n - n < 0).
Proof.
  intros Hm Hn Hbig HM Hinner k kf kc m_mid n_lo r a.
  unfold DIVMOD_BAILOUT_BITS in Hbig. fold k in Hbig, HM, Hinner.
  pose proof (Z.div_mod k 2 ltac:(lia)) as Dk.
  pose proof (Z.mod_pos_bound k 2 ltac:(lia)) as Bk2.
  fold kf in Dk, Hinner.
  assert (Hkf : 1 <= kf) by lia.
  assert (Hkc : kf <= kc <= kf + 1) by (unfold kc; lia).
  assert (Hm0 : 0 < m).
  { destruct (Z.eq_dec m 0) as [E0|]; [|lia]. rewrite E0 in HM.
    change (bit_length 0) with 0 in HM. lia. }
  rewrite !splitHiLo_fst in Hinner by lia.
  destruct (bit_length_div_pow2 n kf Hn ltac:(fold k; lia)) as (Hnh & Bnh).
  destruct (bit_length_div_pow2 m k Hm0 ltac:(lia)) as (Hmh & Bmh).
  fold k in Bnh.
  (* the recursive call is exact *)
  destruct (kernel_returns (m / 2 ^ k) (n / 2 ^ kf) Hnh)
    as (qa & ra & Hret & Heq & Hra & Hlt).
  specialize (Hra ltac:(lia)). specialize (Hlt ltac:(lia) ltac:(lia)).
  pose proof (kernel_settled_returns d i _ _ qa ra Hret) as K.
  rewrite Hinner in K. specialize (K I).
  apply Ok_eq_inv, pair_eq_inv in K. destruct K as [<- <-].
  assert (Eq1 : (q1, r1) = ((m / 2 ^ k) / (n / 2 ^ kf), (m / 2 ^ k) mod (n / 2 ^ kf))).
  { apply divmod_unique; [exact Hnh|exact Heq|lia]. }
  apply pair_eq_inv in Eq1. destruct Eq1 as [Eq1 Er1].
  (* the dividend of the first half *)
  assert (Pc : 0 < 2 ^ kc) by (apply Z.pow_pos_nonneg; lia).
  assert (Pf : 0 < 2 ^ kf) by (apply Z.pow_pos_nonneg; lia).
  assert (Ek : 2 ^ k = 2 ^ kc * 2 ^ kf).
  { rewrite <- Z.pow_add_r by lia. f_equal. unfold kc. lia. }
  assert (Eh : m / 2 ^ k = a / 2 ^ kf).
  { unfold a. rewrite Z.div_div, <- Ek by lia. reflexivity. }
  assert (Emid : m_mid = a mod 2 ^ kf).
  { unfold m_mid. rewrite splitHiLo_snd, splitHiLo_fst by lia.
    rewrite Ek, Z.rem_mul_r by lia.
    rewrite Z.mul_comm, Z.div_add by lia.
    rewrite (Z.div_small (m mod 2 ^ kc)) by (apply Z.mod_pos_bound; lia).
    reflexivity. }
  assert (Ha : 0 <= a) by (apply Z.div_pos; lia).
  pose proof (Z.div_mod a (2 ^ kf) ltac:(lia)) as Da.
  pose proof (Z.mod_pos_bound a (2 ^ kf) Pf) as Ba.
  pose proof (Z.div_mod n (2 ^ kf) ltac:(lia)) as Dn.
  assert (Er : r = a - q1 * n).
  { unfold r, n_lo. rewrite splitHiLo_snd by lia. rewrite Emid.
    rewrite lor_shiftl_low by lia. rewrite Eh in Heq.
    set (ah := a / 2 ^ kf) in *. set (nh := n / 2 ^ kf) in *.
    set (al := a mod 2 ^ kf) in *. set (nl := n mod 2 ^ kf) in *.
    replace (a - q1 * n) with (2 ^ kf * ah + al - q1 * (2 ^ kf * nh + nl))
      by (rewrite <- Da, <- Dn; reflexivity).
    rewrite <- Heq. ring. }
  destruct (bit_length_pos_bounds n Hn) as (_ & Nlo & Nhi).
  destruct (bit_length_pos_bounds m Hm0) as (_ & _ & Mhi).
  fold k in Nlo, Nhi. rewrite HM in Mhi.
  assert (Ahi : a < 2 ^ (2 * kc + kf)).
  { unfold a. apply Z.div_lt_upper_bound; [lia|].
    rewrite <- Z.pow_add_r by lia.
    assert (2 ^ (2 * k) <= 2 ^ (kc + (2 * kc + kf))) by (apply Z.pow_le_mono_r; lia).
    lia. }
  replace k with (kc + kf) in Nlo, Nhi by (unfold kc; lia).
  destruct (quotient_estimate a n kf kc Ha ltac:(lia) ltac:(lia) Ahi (conj Nlo Nhi))
    as (Hlo & Hhi).
  rewrite <- Eh, <- Eq1, <- Er in Hlo, Hhi.
  pose proof (Z.div_mod a n ltac:(lia)) as Dq.
  pose proof (Z.mod_pos_bound a n Hn) as Bq.
  assert (Hq : a / n <= q1 <= a / n + 4) by nia.
  assert (Hneg : while_neg LoopE_r1_neg 4 n q1 r = Ok (a / n, a mod n)).
  { rewrite (while_neg_within LoopE_r1_neg n 4 Hn q1 r) by (try apply le_n; lia).
    f_equal. destruct (Z.ltb_spec r 0) as [Hr|Hr].
    - assert (Hr' : r = a + (- q1) * n) by lia.
      rewrite Hr'. rewrite Z.div_add, Z.mod_add by lia.
      f_equal. lia.
    - apply divmod_unique; [exact Hn|lia|lia]. }
  split; [exact Hq|]. split; [|intros _; lia].
  exists (a / n), (a mod n). split; [exact Hneg|].
  apply while_len_once; [exact Hn|reflexivity|exact Bq|apply le_n].
Qed.

Lemma X16_branch_e_witness :
  (0 <= half_m /\ 0 < half_n /\ DIVMOD_BAILOUT_BITS <= bit_length half_n /\
   bit_length half_m = 2 * bit_length half_n /\
   _divModPositiveArgs 0 4
     (fst (_splitHiLo half_m (bit_length half_n)))
     (fst (_splitHiLo half_n (bit_length half_n / 2))) = Ok (2 ^ 4999 + 1, 1)) /\
  let k := bit_length half_n in
  let kh_floor := k / 2 in
  let kh_ceil := k - kh_floor in
  let m_mid := fst (_splitHiLo (snd (_splitHiLo half_m k)) kh_ceil) in
  let n_lo := snd (_splitHiLo half_n kh_floor) in
  let r := Z.lor (Z.shiftl 1 kh_floor) m_mid - n_lo * (2 ^ 4999 + 1) in
  let a := half_m / 2 ^ kh_ceil in
  a / half_n <= 2 ^ 4999 + 1 <= a / half_n + 4 /\
  (exists q' r',
     while_neg LoopE_r1_neg 4 half_n (2 ^ 4999 + 1) r = Ok (q', r') /\
     while_len LoopE_r1_len 1 k half_n q' r'
       = Ok (if 2 ^ (k - 1) <=? a mod half_n
             then (a / half_n + 1, a mod half_n - half_n)
             else (a / half_n, a mod half_n))) /\
  (2 ^ (k - 1) <= a mod half_n -> a mod half_n - half_n < 0).
Proof.
  destruct half_inputs_facts as (H1 & H2 & H3 & H4 & H5).
  exact (conj (conj H1 (conj H2 (conj H3 (conj H4 H5))))
           (X16_branch_e_first_half 0 4 half_m half_n (2 ^ 4999 + 1) 1
              H1 H2 H3 H4 H5)).
Defined.
